(** * Broddy: site mirroring, asset discovery and link rewriting

    A shallow embedding of [broddy] (src/index.js, the version that keeps
    [filePathMap] and [usedPaths]) and of the closures it defines:
    [assetPath], [getRelativePath], [rewriteUrls], [extractAssets] and the
    six numbered phases of the run.

    Conventions.
    - A JavaScript string is a [string]; regular expressions work on its
      list of characters.
    - [Map] objects whose iteration order the program relies on
      ([assetUrls], [downloadedAssets]) are association lists kept in
      insertion order; [filePathMap] is a [gmap], [usedPaths] and
      [processedAssets] are [gset]s.
    - What Node and the network provide (the WHATWG [URL] parser, [fetch],
      cheerio, [JSON.parse], the working directory) is gathered in a record
      [Host]; every definition and theorem is parametric in it.
    - The disk is the map [files] from absolute paths to contents and the
      set [dirs] of the folders; [fs.mkdir], [fs.writeFile], [fs.stat],
      [fs.readdir] and [fs.readFile] fail where Node's do: a file in the
      way of a folder, a folder in the way of a file, a path that ends
      with a separator.
    - A JavaScript exception is the [Throw] constructor of [result]. *)

From Stdlib Require Import ZArith NArith Lia Ascii String List.
From stdpp Require Import gmap strings list pretty.

Local Open Scope string_scope.

(** ** JavaScript strings *)

Module JS.

Definition chars (s : string) : list ascii := list_ascii_of_string s.
Definition str (l : list ascii) : string := string_of_list_ascii l.

(** [s.startsWith(p)] *)
Definition startsWith (s p : string) : bool := String.prefix p s.

(** [s.endsWith(p)] *)
Definition endsWith (s p : string) : bool :=
  String.prefix (str (rev (chars p))) (str (rev (chars s))).

(** [s.slice(0, -n)] for the non-negative length [n] of some other string.
    When [n] is zero the end index is [-0], that is [0], and the slice is
    empty. *)
Definition slice_0_neg (s : string) (n : nat) : string :=
  match n with
  | O => ""
  | S _ => String.substring 0 (String.length s - n) s
  end.

(** Truthiness of a string: the empty string is falsy. *)
Definition truthy (s : string) : bool :=
  match s with EmptyString => false | String _ _ => true end.

(** [ToInt32]: wrap to the signed 32-bit range. *)
Definition to_int32 (z : Z) : Z := ((z + 2 ^ 31) mod 2 ^ 32 - 2 ^ 31)%Z.

(** [x << k] on numbers. *)
Definition shl32 (x : Z) (k : Z) : Z := to_int32 (Z.shiftl (to_int32 x) k).

(** [x & y] on numbers. *)
Definition and32 (x y : Z) : Z := to_int32 (Z.land (to_int32 x) (to_int32 y)).

(** [s.charCodeAt(i)] for each [i], in order. *)
Definition charCodes (s : string) : list Z :=
  map (fun c => Z.of_N (N_of_ascii c)) (chars s).

Definition digit36 (d : N) : ascii :=
  if (d <? 10)%N then ascii_of_N (48 + d) else ascii_of_N (87 + d).

Fixpoint toString36_go (fuel : nat) (n : N) (acc : string) : string :=
  match fuel with
  | O => acc
  | S fuel' =>
      let acc' := String (digit36 (n mod 36)) acc in
      if (n / 36 =? 0)%N then acc' else toString36_go fuel' (n / 36)%N acc'
  end.

(** [n.toString(36)] for a non-negative integer [n]. *)
Definition toString36 (n : N) : string :=
  toString36_go (S (N.size_nat n)) n "".

(** [s.slice(1)] *)
Definition slice1 (s : string) : string :=
  match s with EmptyString => "" | String _ s' => s' end.

Definition lowerChar (c : ascii) : ascii :=
  let n := nat_of_ascii c in
  if ((65 <=? n)%nat && (n <=? 90)%nat)%bool then ascii_of_nat (n + 32) else c.

(** [s.toLowerCase()], on the letters A to Z. *)
Definition toLowerCase (s : string) : string := str (map lowerChar (chars s)).

(** [set.add(x)] on a [Set] kept in insertion order. *)
Definition setAdd (x : string) (l : list string) : list string :=
  if bool_decide (x ∈ l) then l else (l ++ [x])%list.

(** [map.has(k)], [map.get(k)] and [map.set(k, v)] on a [Map] kept in
    insertion order; setting a present key keeps its position. *)
Fixpoint mapGet {V : Type} (k : string) (m : list (string * V)) : option V :=
  match m with
  | [] => None
  | (k', v) :: m' => if bool_decide (k' = k) then Some v else mapGet k m'
  end.

Definition mapHas {V : Type} (k : string) (m : list (string * V)) : bool :=
  match mapGet k m with Some _ => true | None => false end.

Fixpoint mapSet {V : Type} (k : string) (v : V) (m : list (string * V))
    : list (string * V) :=
  match m with
  | [] => [(k, v)]
  | (k', v') :: m' =>
      if bool_decide (k' = k) then (k, v) :: m' else (k', v') :: mapSet k v m'
  end.

Definition mapKeys {V : Type} (m : list (string * V)) : list string := map fst m.

(** [s.split(sep)] for a one-character separator, on character lists. *)
Fixpoint splitOn (sep : ascii) (l : list ascii) : list (list ascii) :=
  match l with
  | [] => [[]]
  | c :: l' =>
      if bool_decide (c = sep) then [] :: splitOn sep l'
      else match splitOn sep l' with
           | [] => [[c]]
           | s :: ss => (c :: s) :: ss
           end
  end.

(** [parts.join(sep)] *)
Fixpoint joinWith (sep : ascii) (ss : list (list ascii)) : list ascii :=
  match ss with
  | [] => []
  | [s] => s
  | s :: ss' => (s ++ sep :: joinWith sep ss')%list
  end.

End JS.

(** ** Node's [path] module (POSIX flavour) *)

Module Path.

Definition slash : ascii := "/"%char.
Definition dot : ascii := "."%char.

Definition is_slash (c : ascii) : bool := bool_decide (c = slash).

Fixpoint takeWhile (f : ascii -> bool) (l : list ascii) : list ascii :=
  match l with
  | [] => []
  | c :: l' => if f c then c :: takeWhile f l' else []
  end.

Fixpoint dropWhile (f : ascii -> bool) (l : list ascii) : list ascii :=
  match l with
  | [] => []
  | c :: l' => if f c then dropWhile f l' else l
  end.

(** The last component of a path, reversed, trailing separators skipped. *)
Definition rev_last_component (p : string) : list ascii :=
  takeWhile (fun c => negb (is_slash c)) (dropWhile is_slash (rev (JS.chars p))).

Fixpoint split_at_dot (l : list ascii) : option (list ascii * list ascii) :=
  match l with
  | [] => None
  | c :: l' =>
      if bool_decide (c = dot) then Some ([], l')
      else match split_at_dot l' with
           | Some (a, b) => Some (c :: a, b)
           | None => None
           end
  end.

(** [path.extname(p)]: from the last dot of the last component to its end;
    empty when there is no dot, when the dot is the first character of the
    component, or when the component is [..]. *)
Definition extname (p : string) : string :=
  match split_at_dot (rev_last_component p) with
  | None => ""
  | Some (rev_ext, rev_before) =>
      match rev_before, rev_ext with
      | [], _ => ""
      | [c], [] => if bool_decide (c = dot) then "" else "."
      | _, _ => JS.str (dot :: rev rev_ext)
      end
  end.

(** [path.basename(p)] *)
Definition basename (p : string) : string := JS.str (rev (rev_last_component p)).

(** [path.dirname(p)].  The scan runs from the end down to index 1: trailing
    separators and the last component are passed over, and the path is cut
    at the separator before them. *)
Definition dirname (p : string) : string :=
  match JS.chars p with
  | [] => "."
  | c0 :: rest =>
      let hasRoot := is_slash c0 in
      match dropWhile (fun c => negb (is_slash c)) (dropWhile is_slash (rev rest)) with
      | [] => if hasRoot then "/" else "."
      | _ :: before =>
          match before with
          | [] => if hasRoot then "//" else JS.str [c0]
          | _ => JS.str (c0 :: rev before)
          end
      end
  end.

Definition segment := list ascii.

Definition dotdot : segment := [dot; dot].

(** The segment stack of [normalizeString] for an absolute path: empty
    segments and [.] are dropped, [..] pops (and is dropped at the root). *)
Fixpoint normalizeAbs (segs : list segment) (stack : list segment) : list segment :=
  match segs with
  | [] => rev stack
  | s :: segs' =>
      if bool_decide (s = []) || bool_decide (s = [dot]) then normalizeAbs segs' stack
      else if bool_decide (s = dotdot) then normalizeAbs segs' (tail stack)
      else normalizeAbs segs' (s :: stack)
  end.

Definition segments (p : string) : list segment := JS.splitOn slash (JS.chars p).

Definition isAbsolute (p : string) : bool :=
  match JS.chars p with c :: _ => is_slash c | [] => false end.

(** [path.resolve(p)] as the segments of the absolute result; [cwd] is
    [process.cwd()]. *)
Definition resolve (cwd : string) (p : string) : list segment :=
  if isAbsolute p then normalizeAbs (segments p) []
  else normalizeAbs (segments cwd ++ segments p) [].

(** [path.resolve(dir, p)] where [dir] is given by its segments. *)
Definition resolveFrom (dir : list segment) (p : string) : list segment :=
  if isAbsolute p then normalizeAbs (segments p) []
  else normalizeAbs (dir ++ segments p) [].

Fixpoint stripCommon (a b : list segment) : list segment * list segment :=
  match a, b with
  | x :: a', y :: b' => if bool_decide (x = y) then stripCommon a' b' else (a, b)
  | _, _ => (a, b)
  end.

(** [path.relative(from, to)]: both are resolved, their common leading
    segments dropped, and one [..] is emitted per remaining segment of
    [from]. *)
Definition relative (cwd : string) (from to : string) : string :=
  if bool_decide (from = to) then ""
  else
    let '(f, t) := stripCommon (resolve cwd from) (resolve cwd to) in
    JS.str (JS.joinWith slash (map (fun _ => dotdot) f ++ t)).

(** Two separators in a row somewhere in a path. *)
Fixpoint hasDoubleSlash (l : list ascii) : bool :=
  match l with
  | [] => false
  | c :: l' =>
      match l' with
      | c' :: _ => (is_slash c && is_slash c') || hasDoubleSlash l'
      | [] => false
      end
  end.

(** The absolute path string of a segment list. *)
Definition render (segs : list segment) : string :=
  JS.str (slash :: JS.joinWith slash segs).

(** [path.join(a, b)], resolved against the working directory: the file
    the operating system opens for it. *)
Definition joinResolve (cwd : string) (a b : string) : list segment :=
  resolve cwd (if JS.truthy a then if JS.truthy b then a +:+ "/" +:+ b else a else b).

End Path.

(** ** Regular expressions

    A backtracking matcher with the priorities of the JavaScript engine:
    alternatives left to right, greedy quantifiers longest first, lazy ones
    shortest first, numbered capture groups and backreferences.  Characters
    are the code units below 256. *)

Module Regex.

Local Open Scope list_scope.

Inductive re : Type :=
| Eps
| Chr (c : ascii)
| Cls (f : ascii -> bool)
| Seq (r1 r2 : re)
| Alt (r1 r2 : re)
| Star (greedy : bool) (r : re)
| Group (n : nat) (r : re)
| Backref (n : nat).

Definition captures := list (nat * list ascii).

(** [match[n]]; a group that did not take part reads as the empty string
    (the program only tests such values for truthiness). *)
Fixpoint getcap (n : nat) (c : captures) : list ascii :=
  match c with
  | [] => []
  | (k, v) :: c' => if Nat.eqb k n then v else getcap n c'
  end.

Definition setcap (n : nat) (v : list ascii) (c : captures) : captures := (n, v) :: c.

Fixpoint stripPrefix (p s : list ascii) : option (list ascii) :=
  match p, s with
  | [], _ => Some s
  | a :: p', b :: s' => if bool_decide (a = b) then stripPrefix p' s' else None
  | _ :: _, [] => None
  end.

Definition outcome := option (list ascii * captures).

(** [run r s c k]: match [r] at the head of [s] with captures [c], then
    continue with [k] on what is left; backtrack when [k] fails. *)
Fixpoint run (r : re) (s : list ascii) (c : captures)
    (k : list ascii -> captures -> outcome) {struct r} : outcome :=
  match r with
  | Eps => k s c
  | Chr a =>
      match s with
      | x :: s' => if bool_decide (x = a) then k s' c else None
      | [] => None
      end
  | Cls f =>
      match s with
      | x :: s' => if f x then k s' c else None
      | [] => None
      end
  | Seq r1 r2 => run r1 s c (fun s' c' => run r2 s' c' k)
  | Alt r1 r2 =>
      match run r1 s c k with
      | Some x => Some x
      | None => run r2 s c k
      end
  | Star greedy r1 =>
      (fix loop (fuel : nat) (s : list ascii) (c : captures) {struct fuel} : outcome :=
         let more (_ : unit) :=
           match fuel with
           | O => None
           | S fuel' =>
               run r1 s c (fun s' c' =>
                 if (length s' <? length s)%nat then loop fuel' s' c' else None)
           end in
         if greedy then
           match more () with Some x => Some x | None => k s c end
         else
           match k s c with Some x => Some x | None => more () end)
        (length s) s c
  | Group n r1 =>
      run r1 s c (fun s' c' => k s' (setcap n (take (length s - length s') s) c'))
  | Backref n =>
      match stripPrefix (getcap n c) s with
      | Some s' => k s' c
      | None => None
      end
  end.

(** [matches r s c s' c']: [r] can match a prefix of [s], leaving [s'] and
    turning the captures [c] into [c'] (priorities forgotten). *)
Inductive matches : re -> list ascii -> captures -> list ascii -> captures -> Prop :=
| matches_Eps s c : matches Eps s c s c
| matches_Chr a s c : matches (Chr a) (a :: s) c s c
| matches_Cls f x s c : f x = true -> matches (Cls f) (x :: s) c s c
| matches_Seq r1 r2 s c s1 c1 s2 c2 :
    matches r1 s c s1 c1 -> matches r2 s1 c1 s2 c2 -> matches (Seq r1 r2) s c s2 c2
| matches_Alt_l r1 r2 s c s' c' : matches r1 s c s' c' -> matches (Alt r1 r2) s c s' c'
| matches_Alt_r r1 r2 s c s' c' : matches r2 s c s' c' -> matches (Alt r1 r2) s c s' c'
| matches_Star_stop g r s c : matches (Star g r) s c s c
| matches_Star_more g r s c s1 c1 s2 c2 :
    matches r s c s1 c1 -> matches (Star g r) s1 c1 s2 c2 ->
    matches (Star g r) s c s2 c2
| matches_Group n r s c s' c' :
    matches r s c s' c' ->
    matches (Group n r) s c s' (setcap n (take (length s - length s') s) c')
| matches_Backref n s c s' :
    stripPrefix (getcap n c) s = Some s' -> matches (Backref n) s c s' c.

(** A match at the head of [s]: what is left after it, and the captures. *)
Definition matchHere (r : re) (s : list ascii) : outcome :=
  run r s [] (fun s' c => Some (s', c)).

Record found := mkFound {
  before : list ascii;
  matched : list ascii;
  after : list ascii;
  groups : captures;
}.

(** The leftmost match in [s]; [skipped] is the text already passed over,
    reversed. *)
Fixpoint search (r : re) (skipped : list ascii) (s : list ascii) : option found :=
  match matchHere r s with
  | Some (s', c) => Some (mkFound (rev skipped) (take (length s - length s') s) s' c)
  | None =>
      match s with
      | [] => None
      | x :: s' => search r (x :: skipped) s'
      end
  end.

(** [s.match(r)] for a regular expression without the [g] flag. *)
Definition exec (r : re) (s : list ascii) : option found := search r [] s.

(** [r.test(s)] *)
Definition test (r : re) (s : list ascii) : bool :=
  match exec r s with Some _ => true | None => false end.

(** [[...s.matchAll(r)]] for a [g] regular expression: successive matches,
    each search resuming where the previous match ended (one character
    further after an empty match). *)
Fixpoint matchAllFrom (fuel : nat) (r : re) (s : list ascii) : list found :=
  match fuel with
  | O => []
  | S fuel' =>
      match exec r s with
      | None => []
      | Some m =>
          m :: match matched m, after m with
               | [], [] => []
               | [], _ :: rest => matchAllFrom fuel' r rest
               | _ :: _, rest => matchAllFrom fuel' r rest
               end
      end
  end.

Definition matchAll (r : re) (s : list ascii) : list found :=
  matchAllFrom (S (length s)) r s.

(** [s.replace(r, fn)] for a [g] regular expression and a replacer
    function [fn(match, ...groups)]. *)
Fixpoint replaceAllFrom (fuel : nat) (r : re) (fn : found -> list ascii)
    (s : list ascii) : list ascii :=
  match fuel with
  | O => s
  | S fuel' =>
      match exec r s with
      | None => s
      | Some m =>
          before m ++ fn m ++
          match matched m, after m with
          | [], [] => []
          | [], x :: rest => x :: replaceAllFrom fuel' r fn rest
          | _ :: _, rest => replaceAllFrom fuel' r fn rest
          end
      end
  end.

Definition replaceAll (r : re) (fn : found -> list ascii) (s : list ascii) : list ascii :=
  replaceAllFrom (S (length s)) r fn s.

(** [s.replace(r, text)] for a regular expression without the [g] flag and
    a replacement text free of [$] patterns. *)
Definition replaceFirst (r : re) (text : list ascii) (s : list ascii) : list ascii :=
  match exec r s with
  | None => s
  | Some m => before m ++ text ++ after m
  end.

(** *** Building blocks *)

Fixpoint lit (l : list ascii) : re :=
  match l with
  | [] => Eps
  | [a] => Chr a
  | a :: l' => Seq (Chr a) (lit l')
  end.

Definition text (s : string) : re := lit (JS.chars s).

Fixpoint seq (rs : list re) : re :=
  match rs with
  | [] => Eps
  | [r] => r
  | r :: rs' => Seq r (seq rs')
  end.

Fixpoint alt (rs : list re) : re :=
  match rs with
  | [] => Cls (fun _ => false)
  | [r] => r
  | r :: rs' => Alt r (alt rs')
  end.

Definition star (r : re) : re := Star true r.
Definition plus (r : re) : re := Seq r (Star true r).
Definition lazyStar (r : re) : re := Star false r.
Definition lazyPlus (r : re) : re := Seq r (Star false r).
Definition opt (r : re) : re := Alt r Eps.

Definition code (c : ascii) : nat := nat_of_ascii c.

Definition oneOf (l : list ascii) : re := Cls (fun c => bool_decide (c ∈ l)).
Definition noneOf (l : list ascii) : re := Cls (fun c => negb (bool_decide (c ∈ l))).

(** [\s] *)
Definition isSpace (c : ascii) : bool :=
  bool_decide (code c ∈ [9; 10; 11; 12; 13; 32; 160]%nat).
Definition space : re := Cls isSpace.
(** [\s*] and [\s+] *)
Definition ws : re := star space.
Definition ws1 : re := plus space.

(** [.] *)
Definition anyChar : re := Cls (fun c => negb (bool_decide (code c ∈ [10; 13]%nat))).

Definition isAlpha (c : ascii) : bool :=
  ((65 <=? code c)%nat && (code c <=? 90)%nat)
  || ((97 <=? code c)%nat && (code c <=? 122)%nat).
Definition isDigit (c : ascii) : bool := (48 <=? code c)%nat && (code c <=? 57)%nat.

Definition dquote : ascii := ascii_of_nat 34.
Definition squote : ascii := ascii_of_nat 39.
Definition backtick : ascii := ascii_of_nat 96.
Definition backslash : ascii := ascii_of_nat 92.

End Regex.

(** ** Exceptions *)

Inductive result (A : Type) : Type :=
| Ok (a : A)
| Throw (e : string).
Arguments Ok {A} a.
Arguments Throw {A} e.

(** ** What the platform provides *)

(** The fields of a [URL] object that the program reads. *)
Record URL := mkURL {
  href : string;
  origin : string;
  pathname : string;
  search : string;
}.

(** An element of a document loaded by cheerio: its tag name, its
    attributes in source order, and its inner HTML ([$(el).html()]). *)
Record element := mkElement {
  tag : string;
  attribs : list (string * string);
  inner : string;
}.

(** - [new_URL input base]: [new URL(input)] when [base] is [None],
      [new URL(input, base)] otherwise; [None] when the constructor throws.
    - [fetch url]: [None] when the request is rejected (network error),
      otherwise [res.ok] and the body.
    - [load]: cheerio's [load], as the document-order list of all elements;
      [html]: [$.html()], the serialisation of such a list.
    - [JSON_parse]: whether [JSON.parse] accepts the text.
    - [cwd]: [process.cwd()]. *)
Record Host := mkHost {
  new_URL : string -> option string -> option URL;
  fetch : string -> option (bool * string);
  load : string -> list element;
  html : list element -> string;
  JSON_parse : string -> bool;
  cwd : string;
}.

(** ** The path allocator *)

(** [filePathMap] (url -> final file path) and [usedPaths]. *)
Record Alloc := mkAlloc {
  filePathMap : gmap string string;
  usedPaths : gset string;
}.

Definition emptyAlloc : Alloc := mkAlloc ∅ ∅.

(** One round of the hash loop:
    [hash = (hash << 5) - hash + char; hash = hash & hash]. *)
Definition hashStep (hash char : Z) : Z :=
  let hash1 := (JS.shl32 hash 5 - hash + char)%Z in
  JS.and32 hash1 hash1.

Definition searchHash (search : string) : Z :=
  fold_left hashStep (JS.charCodes search) 0%Z.

(** [`${Math.abs(hash).toString(36)}`] *)
Definition hashSuffix (search : string) : string :=
  JS.toString36 (Z.to_N (Z.abs (searchHash search))).

(** The path before collision handling. *)
Definition hashedPath (u : URL) : string :=
  let filePath := pathname u in
  if JS.truthy (search u) then
    let ext := Path.extname filePath in
    if JS.truthy ext then
      let nameWithoutExt := JS.slice_0_neg filePath (String.length ext) in
      nameWithoutExt +:+ "-" +:+ hashSuffix (search u) +:+ ext
    else
      filePath +:+ "-" +:+ hashSuffix (search u)
  else filePath.

(** [`${nameWithoutExt}-${counter}${ext}`] *)
Definition numbered (nameWithoutExt ext : string) (counter : nat) : string :=
  nameWithoutExt +:+ "-" +:+ pretty counter +:+ ext.

(** The [while (usedPaths.has(newPath)) counter++] loop, entered with
    [counter]; [fuel] bounds the number of increments. *)
Fixpoint freePath (used : gset string) (nameWithoutExt ext : string)
    (fuel counter : nat) : option string :=
  let newPath := numbered nameWithoutExt ext counter in
  if bool_decide (newPath ∈ used) then
    match fuel with
    | O => None
    | S fuel' => freePath used nameWithoutExt ext fuel' (S counter)
    end
  else Some newPath.

(** Collision handling: the [if (usedPaths.has(filePath))] block. *)
Definition uncollide (used : gset string) (filePath : string) : option string :=
  if bool_decide (filePath ∈ used) then
    let ext := Path.extname filePath in
    let nameWithoutExt := JS.slice_0_neg filePath (String.length ext) in
    freePath used nameWithoutExt ext (size used) 1
  else Some filePath.

(** [assetPath(url)]. [None] when [new URL(url, baseUrl)] throws; the maps
    are then untouched. *)
Definition assetPath (h : Host) (baseUrl : string) (url : string) (a : Alloc)
    : option (string * Alloc) :=
  match filePathMap a !! url with
  | Some p => Some (p, a)
  | None =>
      match new_URL h url (Some baseUrl) with
      | None => None
      | Some u =>
          match uncollide (usedPaths a) (hashedPath u) with
          | None => None
          | Some filePath =>
              Some (filePath,
                    mkAlloc (<[url := filePath]> (filePathMap a))
                            ({[filePath]} ∪ usedPaths a))
          end
      end
  end.

(** ** Relative paths between saved files *)

(** [getRelativePath(fromFilePath, toFilePath)]; [path.sep] is [/]. *)
Definition getRelativePath (h : Host) (fromFilePath toFilePath : string) : string :=
  let fromDir := Path.dirname fromFilePath in
  let relative := Path.relative (cwd h) fromDir toFilePath in
  JS.str (JS.joinWith Path.slash (JS.splitOn Path.slash (JS.chars relative))).

(** Where [save(p, data)] writes: [path.join(outDir, p)]. *)
Definition location (h : Host) (outDir p : string) : list Path.segment :=
  Path.joinResolve (cwd h) outDir p.

(** ** The pattern table *)

Module Patterns.

Import Regex.
Local Open Scope list_scope.

Definition ch (s : string) : re :=
  match s with String c _ => Chr c | EmptyString => Eps end.

(** The class of the three quote characters: backtick, single, double. *)
Definition quote3 : re := oneOf [backtick; squote; dquote].
(** The class of the single and the double quote. *)
Definition quote2 : re := oneOf [squote; dquote].

(** A quote of [quote3], group 1 holding the shortest non-empty run of
    characters that are not such quotes, and a quote of [quote3] again. *)
Definition quoted3 : re :=
  seq [quote3; Group 1 (lazyPlus (noneOf [backtick; dquote; squote])); quote3].

(** [\s*\(\s*] and [\s*\)] *)
Definition openParen : re := seq [ws; ch "("; ws].
Definition closeParen : re := seq [ws; ch ")"].

Definition JS_IMPORTS : list re :=
  [ seq [text "import"; openParen; quoted3; closeParen];
    seq [text "import"; ws1; lazyStar anyChar; ws1; text "from"; ws1; quoted3];
    seq [text "require"; openParen; quoted3; closeParen];
    seq [text "new"; ws1; text "URL"; openParen; quoted3];
    seq [text "__webpack_require__.p"; ws; ch "+"; ws; quoted3];
    seq [text "__webpack_public_path__"; ws; ch "+"; ws; quoted3];
    seq [text "__framer__url"; ws; quoted3];
    seq [text "fetch"; openParen; quoted3; closeParen];
    seq [text "loadScript"; openParen; quoted3; closeParen];
    seq [text ".lazy"; openParen; text "()"; ws; text "=>"; ws; text "import";
         openParen; quoted3; closeParen];
    seq [text "chunk:"; ws; quoted3] ].

(** [url\s*\(\s*(Q?)([^)]+?)\1\s*\)], with Q a quote of [quote2]. *)
Definition cssUrl : re :=
  seq [text "url"; openParen; Group 1 (opt quote2);
       Group 2 (lazyPlus (noneOf [")"%char])); Backref 1; closeParen].

Definition CSS_URLS : list re :=
  [ cssUrl;
    seq [text "@import"; ws1; opt (seq [text "url"; openParen]); quote2;
         Group 1 (lazyPlus (noneOf [squote; dquote])); quote2; opt closeParen];
    seq [text "src:"; ws; cssUrl] ].

Definition notSpace : re := Cls (fun c => negb (isSpace c)).
Definition notSpaceStar : re :=
  Cls (fun c => negb (isSpace c) && negb (bool_decide (c = "*"%char))).

(** The directive up to the reference, for the comment opener [opener]. *)
Definition directive (opener : string) : re :=
  seq [text opener; oneOf ["#"%char; "@"%char]; ws; text "sourceMappingURL="].

Definition SOURCE_MAP : list re :=
  [ seq [directive "//"; Group 1 (plus notSpace)];
    seq [directive "/*"; Group 1 (plus notSpaceStar); ws; text "*/"] ].

Definition JSON_ASSETS : list re :=
  [ seq [Chr dquote;
         alt [text "src"; text "href"; text "url"; text "image"; text "icon";
              text "logo"; text "poster"; text "thumbnail"];
         Chr dquote; ws; ch ":"; ws; Chr dquote;
         Group 1 (lazyPlus (noneOf [dquote])); Chr dquote] ].

(** [/^[./]|\.js|\.mjs|\.css|\.json|\.wasm|\.map/.test(url)] *)
Definition looksLikePath (url : string) : bool :=
  match JS.chars url with
  | c :: _ => bool_decide (c ∈ ["."%char; "/"%char])
  | [] => false
  end
  || test (alt [text ".js"; text ".mjs"; text ".css"; text ".json"; text ".wasm";
                text ".map"]) (JS.chars url).

(** The patterns of [rewriteUrls]. *)

(** [[a-zA-Z][a-zA-Z0-9+.-]*:\/\/] *)
Definition isSchemeChar (c : ascii) : bool :=
  isAlpha c || isDigit c || bool_decide (c ∈ ["+"%char; "."%char; "-"%char]).
Definition scheme : re := seq [Cls isAlpha; star (Cls isSchemeChar); text "://"].

Definition notQuote3Space : re :=
  Cls (fun c => negb (bool_decide (c ∈ [squote; dquote; backtick])) && negb (isSpace c)).

(** [(Q)(SCHEME[^Q\s]+)\1], with Q a quote of [quote3] and SCHEME as
    in [scheme]. *)
Definition quotedUrl : re :=
  seq [Group 1 quote3; Group 2 (seq [scheme; plus notQuote3Space]); Backref 1].

Definition fetchUrl : re := seq [text "fetch"; openParen; quotedUrl].
Definition newUrl : re := seq [text "new"; ws1; text "URL"; openParen; quotedUrl].

(** [url\s*\(\s*(Q?)(SCHEME[^)]+?)\1\s*\)], with Q a quote of [quote2]. *)
Definition cssAbsUrl : re :=
  seq [text "url"; openParen; Group 1 (opt quote2);
       Group 2 (seq [scheme; lazyPlus (noneOf [")"%char])]); Backref 1; closeParen].

(** [@import\s+], an optional [url(] with blanks, then [(Q)(SCHEME[^Q]+?)\1]
    with Q a quote of [quote2], then an optional closing parenthesis after
    blanks. *)
Definition cssAbsImport : re :=
  seq [text "@import"; ws1; opt (seq [text "url"; openParen]); Group 1 quote2;
       Group 2 (seq [scheme; lazyPlus (noneOf [squote; dquote])]); Backref 1;
       opt closeParen].

(** [:\s*D(SCHEME[^D]+?)D], with D the double quote. *)
Definition jsonAbsUrl : re :=
  seq [ch ":"; ws; Chr dquote; Group 1 (seq [scheme; lazyPlus (noneOf [dquote])]);
       Chr dquote].

(** [https?:\/\/] and the longest non-empty run of characters that are
    neither blank nor one of the eleven excluded punctuation marks. *)
Definition attrUrl : re :=
  seq [text "http"; opt (ch "s"); text "://";
       plus (Cls (fun c =>
         negb (isSpace c)
         && negb (bool_decide (c ∈ [dquote; squote; "<"%char; ">"%char; "{"%char;
                                    "}"%char; "|"%char; backslash; "^"%char;
                                    backtick; "]"%char]))))].

End Patterns.

(** [s.trim()] *)
Definition trim (s : string) : string :=
  JS.str (rev (Path.dropWhile Regex.isSpace
                 (rev (Path.dropWhile Regex.isSpace (JS.chars s))))).

(** ** The reference rewriter *)

(** The body shared by every replacer of [rewriteUrls]: the relative path
    to write for [url], when [new URL(url)] has the origin of the site and
    [filePathMap] has the URL. *)
Definition rewriteTarget (h : Host) (baseOrigin : string) (a : Alloc)
    (filePath url : string) : option string :=
  match new_URL h url None with
  | None => None
  | Some urlObj =>
      if bool_decide (origin urlObj = baseOrigin) then
        match filePathMap a !! url with
        | Some targetPath => Some (getRelativePath h filePath targetPath)
        | None => None
        end
      else None
  end.

Section Replacers.

Context (h : Host) (baseOrigin : string) (a : Alloc) (filePath : string).

Import Regex.
Local Open Scope list_scope.

(** [(match, quote, url) => ...] with the text written before the opening
    quote and after the closing one. *)
Definition quotedReplacer (lead trail : string) (m : found) : list ascii :=
  let quote := getcap 1 (groups m) in
  let url := JS.str (getcap 2 (groups m)) in
  match rewriteTarget h baseOrigin a filePath url with
  | Some relativePath =>
      JS.chars lead ++ quote ++ JS.chars relativePath ++ quote ++ JS.chars trail
  | None => matched m
  end.

(** The [url()] replacer, which trims the URL first. *)
Definition cssUrlReplacer (m : found) : list ascii :=
  let quote := getcap 1 (groups m) in
  let cleanUrl := trim (JS.str (getcap 2 (groups m))) in
  match rewriteTarget h baseOrigin a filePath cleanUrl with
  | Some relativePath =>
      JS.chars "url(" ++ quote ++ JS.chars relativePath ++ quote ++ JS.chars ")"
  | None => matched m
  end.

(** The JSON replacer [(match, url) => ...]. *)
Definition jsonReplacer (m : found) : list ascii :=
  let url := JS.str (getcap 1 (groups m)) in
  match rewriteTarget h baseOrigin a filePath url with
  | Some relativePath => JS.chars ": " ++ dquote :: JS.chars relativePath ++ [dquote]
  | None => matched m
  end.

Definition rewriteJs (content : list ascii) : list ascii :=
  let rewritten := replaceAll Patterns.quotedUrl (quotedReplacer "" "") content in
  let rewritten := replaceAll Patterns.fetchUrl (quotedReplacer "fetch(" "") rewritten in
  replaceAll Patterns.newUrl (quotedReplacer "new URL(" "") rewritten.

Definition rewriteCss (content : list ascii) : list ascii :=
  let rewritten := replaceAll Patterns.cssAbsUrl cssUrlReplacer content in
  replaceAll Patterns.cssAbsImport (quotedReplacer "@import url(" ")") rewritten.

Definition rewriteJson (content : list ascii) : list ascii :=
  replaceAll Patterns.jsonAbsUrl jsonReplacer content.

(** The three [if (fileType === ...)] blocks, in order. *)
Definition rewriteBody (content fileType : string) : string :=
  let rewritten := JS.chars content in
  let rewritten :=
    if bool_decide (fileType = "js") || bool_decide (fileType = "mjs")
    then rewriteJs rewritten else rewritten in
  let rewritten :=
    if bool_decide (fileType = "css") then rewriteCss rewritten else rewritten in
  let rewritten :=
    if bool_decide (fileType = "json") then rewriteJson rewritten else rewritten in
  JS.str rewritten.

End Replacers.

(** [rewriteUrls(content, fileUrl, fileType)].  [None] when one of the two
    [new URL] calls or [assetPath] throws. *)
Definition rewriteUrls (h : Host) (baseUrl : string) (content fileUrl fileType : string)
    (a : Alloc) : option (string * Alloc) :=
  match new_URL h baseUrl None with
  | None => None
  | Some baseUrlObj =>
      match new_URL h fileUrl (Some baseUrl) with
      | None => None
      | Some fileUrlObj =>
          match assetPath h baseUrl fileUrl a with
          | None => None
          | Some (filePath, a') =>
              if negb (bool_decide (origin fileUrlObj = origin baseUrlObj)) then
                Some (content, a')
              else
                Some (rewriteBody h (origin baseUrlObj) a' filePath content fileType, a')
          end
      end
  end.

(** ** The pattern extractor *)

Section Extractor.

Context (h : Host).

Import Regex.

Definition group (n : nat) (m : found) : string := JS.str (getcap n (groups m)).

(** The body of [matches.forEach] for a script pattern; [url] is
    [match[1]]. *)
Definition scanScriptRef (baseUrl url : string) (found : list string) : list string :=
  if JS.truthy url && (JS.startsWith url "http" || JS.startsWith url "//") then
    JS.setAdd (if JS.startsWith url "//" then "https:" +:+ url else url) found
  else if JS.truthy url && negb (JS.startsWith url "data:")
          && negb (JS.startsWith url "#") then
    if Patterns.looksLikePath url then
      match new_URL h url (Some baseUrl) with
      | Some resolved => JS.setAdd (href resolved) found
      | None => found
      end
    else found
  else found.

(** The body of [matches.forEach] for a stylesheet pattern; [url] is
    [match[2] || match[1]]. *)
Definition scanStyleRef (baseUrl : string) (m : Regex.found) (found : list string)
    : list string :=
  let url := if JS.truthy (group 2 m) then group 2 m else group 1 m in
  if JS.truthy url && negb (JS.startsWith url "data:")
     && negb (JS.startsWith url "#") then
    if JS.startsWith url "http" || JS.startsWith url "//" then
      JS.setAdd (if JS.startsWith url "//" then "https:" +:+ url else url) found
    else
      match new_URL h url (Some baseUrl) with
      | Some resolved => JS.setAdd (href resolved) found
      | None => found
      end
  else found.

(** The body of [PATTERNS.SOURCE_MAP.forEach]. *)
Definition scanSourceMap (code : list ascii) (baseUrl : string)
    (acc : list string * gmap string string) (pattern : re)
    : list string * gmap string string :=
  let '(found, sourceMapUrls) := acc in
  match exec pattern code with
  | None => acc
  | Some m =>
      let mapUrl := group 1 m in
      if JS.truthy mapUrl then
        if JS.startsWith mapUrl "http" then (JS.setAdd mapUrl found, sourceMapUrls)
        else
          match new_URL h mapUrl (Some baseUrl) with
          | Some resolved =>
              (JS.setAdd (href resolved) found,
               <[baseUrl := href resolved]> sourceMapUrls)
          | None => acc
          end
      else acc
  end.

(** The body of [PATTERNS.JSON_ASSETS.forEach]'s inner loop. *)
Definition scanJsonRef (url : string) (found : list string) : list string :=
  if JS.truthy url && JS.startsWith url "http" then JS.setAdd url found else found.

(** [patterns.forEach(pattern => [...code.matchAll(pattern)].forEach(body))] *)
Definition forEachMatch (patterns : list re) (code : list ascii)
    (body : Regex.found -> list string -> list string) (found : list string)
    : list string :=
  fold_left (fun found pattern =>
               fold_left (fun found m => body m found) (matchAll pattern code) found)
            patterns found.

(** [extractAssets(code, type, baseUrl)]: the [Set] it returns in insertion
    order, and [sourceMapUrls] after the call. *)
Definition extractAssets (enableSourceMaps : bool) (code type baseUrl : string)
    (sourceMapUrls : gmap string string) : list string * gmap string string :=
  let text := JS.chars code in
  let acc : list string * gmap string string := ([], sourceMapUrls) in
  let acc :=
    if bool_decide (type = "js") || bool_decide (type = "mjs") then
      let found :=
        forEachMatch Patterns.JS_IMPORTS text
          (fun m => scanScriptRef baseUrl (group 1 m)) (fst acc) in
      if enableSourceMaps then
        fold_left (scanSourceMap text baseUrl) Patterns.SOURCE_MAP (found, snd acc)
      else (found, snd acc)
    else acc in
  let acc :=
    if bool_decide (type = "css") then
      (forEachMatch Patterns.CSS_URLS text (scanStyleRef baseUrl) (fst acc), snd acc)
    else acc in
  if bool_decide (type = "json") then
    (forEachMatch Patterns.JSON_ASSETS text (fun m => scanJsonRef (group 1 m)) (fst acc),
     snd acc)
  else acc.

End Extractor.

(** ** The state of a run *)

Inductive line : Type :=
| Log (s : string)
| Warn (s : string).

(** The maps and sets created at the top of [broddy], the file system
    (the files by absolute path, and the folders that exist, by absolute
    path), the requests sent so far, oldest first, and the console. *)
Record State := mkState {
  assetUrls : list (string * string);
  processedAssets : gset string;
  sourceMapUrls : gmap string string;
  alloc : Alloc;
  files : gmap string string;
  dirs : gset string;
  requests : list string;
  console : list line;
}.

Definition withAssetUrls (m : list (string * string)) (st : State) : State :=
  mkState m (processedAssets st) (sourceMapUrls st) (alloc st) (files st) (dirs st)
          (requests st) (console st).
Definition withProcessed (p : gset string) (st : State) : State :=
  mkState (assetUrls st) p (sourceMapUrls st) (alloc st) (files st) (dirs st)
          (requests st) (console st).
Definition withSourceMapUrls (m : gmap string string) (st : State) : State :=
  mkState (assetUrls st) (processedAssets st) m (alloc st) (files st) (dirs st)
          (requests st) (console st).
Definition withAlloc (a : Alloc) (st : State) : State :=
  mkState (assetUrls st) (processedAssets st) (sourceMapUrls st) a (files st) (dirs st)
          (requests st) (console st).
Definition withFiles (f : gmap string string) (st : State) : State :=
  mkState (assetUrls st) (processedAssets st) (sourceMapUrls st) (alloc st) f (dirs st)
          (requests st) (console st).
Definition withDirs (d : gset string) (st : State) : State :=
  mkState (assetUrls st) (processedAssets st) (sourceMapUrls st) (alloc st) (files st) d
          (requests st) (console st).
Definition request (url : string) (st : State) : State :=
  mkState (assetUrls st) (processedAssets st) (sourceMapUrls st) (alloc st)
          (files st) (dirs st) (requests st ++ [url]) (console st).
Definition print (l : line) (st : State) : State :=
  mkState (assetUrls st) (processedAssets st) (sourceMapUrls st) (alloc st)
          (files st) (dirs st) (requests st) (console st ++ [l]).

(** The paths from the first segment of [segs] down to [segs] itself. *)
Definition prefixesOf (segs : list Path.segment) : list (list Path.segment) :=
  map (fun n => take n segs) (List.seq 1 (length segs)).

(** The folders that hold the files [fs]. *)
Definition foldersOf (fs : gmap string string) : gset string :=
  list_to_set
    (flat_map (fun kv => map Path.render
                           (prefixesOf (removelast (Path.normalizeAbs (Path.segments kv.1) []))))
              (map_to_list fs)).

(** The state in which [broddy] starts, the disk holding the files
    [files0] and the folders above them. *)
Definition initialState (files0 : gmap string string) : State :=
  mkState [] ∅ ∅ emptyAlloc files0 (foldersOf files0) [] [].

Section Run.

Context (h : Host) (baseUrl outDir : string) (enableSourceMaps : bool).

(** *** The file system *)

(** The folders: the root, those recorded in [dirs], and the working
    directory with the folders above it. *)
Definition folders (st : State) : gset string :=
  {["/"]} ∪ dirs st
  ∪ list_to_set (map Path.render (prefixesOf (Path.resolve (cwd h) ""))).

Definition isDir (segs : list Path.segment) (st : State) : bool :=
  bool_decide (Path.render segs ∈ folders st).

Definition isFile (segs : list Path.segment) (st : State) : bool :=
  bool_decide (is_Some (files st !! Path.render segs)).

(** [fs.mkdir(dir, { recursive: true })] for the folder [segs]: rejected
    when [segs] or a folder above it is a file; otherwise [segs] and the
    folders above it exist afterwards. *)
Definition mkdirp (segs : list Path.segment) (st : State) : option State :=
  if existsb (fun d => isFile d st) (prefixesOf segs) then None
  else Some (withDirs (list_to_set (map Path.render (prefixesOf segs)) ∪ dirs st) st).

(** [path.join(a, b)] ends with a separator: it does when its last
    argument that is not empty does. *)
Definition joinedEndsWithSlash (a b : string) : bool :=
  JS.endsWith (if JS.truthy a then if JS.truthy b then a +:+ "/" +:+ b else a else b) "/".

(** [save(p, data)]: [fs.mkdir] of the folder of [path.join(outDir, p)],
    then [fs.writeFile], which is rejected for a path that ends with a
    separator or names a folder.  The boolean tells whether the file was
    written; the folders made by [fs.mkdir] stay when [fs.writeFile] is
    rejected. *)
Definition save (p data : string) (st : State) : bool * State :=
  let segs := location h outDir p in
  match mkdirp (removelast segs) st with
  | None => (false, st)
  | Some st =>
      if joinedEndsWithSlash outDir p || isDir segs st then (false, st)
      else (true, withFiles (<[Path.render segs := data]> (files st)) st)
  end.

(** [fs.stat(path.join(outDir, p))] succeeds. *)
Definition stat (p : string) (st : State) : bool :=
  let segs := location h outDir p in
  if joinedEndsWithSlash outDir p then isDir segs st
  else isFile segs st || isDir segs st.

(** [download(url)]: the body, or [None] when it throws (request rejected,
    or response not ok). *)
Definition download (url : string) (st : State) : option string * State :=
  (match fetch h url with
   | Some (true, body) => Some body
   | _ => None
   end, request url st).

(** The chain [type = "other"; if ... else if ...] on a lower-cased
    extension. *)
Definition assetType (ext : string) : string :=
  if bool_decide (ext ∈ [".js"; ".mjs"]) then "js"
  else if bool_decide (ext ∈ [".css"]) then "css"
  else if bool_decide (ext ∈ [".json"]) then "json"
  else "other".

(** The type for [path.extname(new URL(url).pathname).toLowerCase()];
    [None] when the constructor throws. *)
Definition typeOfUrl (url : string) : option string :=
  match new_URL h url None with
  | Some u => Some (assetType (JS.toLowerCase (Path.extname (pathname u))))
  | None => None
  end.

(** *** 1. Download pages *)

Fixpoint getAttr (name : string) (attrs : list (string * string)) : option string :=
  match attrs with
  | [] => None
  | (n, v) :: attrs' => if bool_decide (n = name) then Some v else getAttr name attrs'
  end.

Fixpoint setAttr (name value : string) (attrs : list (string * string))
    : list (string * string) :=
  match attrs with
  | [] => [(name, value)]
  | (n, v) :: attrs' =>
      if bool_decide (n = name) then (n, value) :: attrs'
      else (n, v) :: setAttr name value attrs'
  end.

(** The body of [$("[name]").each] for one element. *)
Definition rewriteAttr (baseOrigin : string) (a : Alloc) (file name : string)
    (el : element) : element :=
  match getAttr name (attribs el) with
  | None => el
  | Some value =>
      if JS.truthy value && JS.startsWith value "http" then
        match rewriteTarget h baseOrigin a file value with
        | Some relativePath =>
            mkElement (tag el) (setAttr name relativePath (attribs el)) (inner el)
        | None => el
        end
      else el
  end.

(** The three passes over the document: [href], [src], [data]. *)
Definition rewriteDocument (baseOrigin : string) (a : Alloc) (file : string)
    (doc : list element) : list element :=
  let doc := map (rewriteAttr baseOrigin a file "href") doc in
  let doc := map (rewriteAttr baseOrigin a file "src") doc in
  map (rewriteAttr baseOrigin a file "data") doc.

Definition pageFile (page : string) : string :=
  if bool_decide (page = "/") then "index.html" else JS.slice1 page +:+ ".html".

(** The body of the loop over [pages].  [Throw] aborts the run. *)
Definition downloadPage (page : string) (st : State) : result State :=
  match new_URL h page (Some baseUrl) with
  | None => Throw "Invalid URL"
  | Some u =>
      let url := href u in
      let st := print (Log ("Page: " +:+ url)) st in
      let st := request url st in
      match fetch h url with
      | None => Throw "fetch failed"
      | Some (_, text) =>
          let file := pageFile page in
          match new_URL h baseUrl None with
          | None => Throw "Invalid URL"
          | Some baseUrlObj =>
              let doc := rewriteDocument (origin baseUrlObj) (alloc st) file
                           (load h text) in
              match save file (html h doc) st with
              | (true, st) => Ok (print (Log file) st)
              | (false, _) => Throw "save failed"
              end
          end
      end
  end.

Fixpoint downloadPages (pages : list string) (st : State) : result State :=
  match pages with
  | [] => Ok st
  | page :: pages' =>
      match downloadPage page st with
      | Ok st' => downloadPages pages' st'
      | Throw e => Throw e
      end
  end.

(** *** 2. Initial scan of HTML files for assets *)

(** The absolute path [k] names an entry below the output folder. *)
Definition below (k : string) : bool :=
  let root := match location h outDir "" with
              | [] => "/"
              | segs => Path.render segs +:+ "/"
              end in
  JS.startsWith k root && negb (bool_decide (k = root)).

(** The HTML files that [fs.readdir(outDir, {recursive: true})] lists,
    with their content. *)
Definition htmlFiles (st : State) : list (string * string) :=
  filter (fun kv => below kv.1 && JS.endsWith kv.1 ".html")
         (map_to_list (files st)).

(** The folders in that listing whose name ends in [.html]:
    [fs.readFile] is rejected for them. *)
Definition htmlFolders (st : State) : list string :=
  filter (fun k => below k && JS.endsWith k ".html") (elements (folders st)).

Definition assetSelectors : list (string * string) :=
  [("link", "href"); ("script", "src"); ("img", "src"); ("source", "src");
   ("video", "src"); ("audio", "src"); ("embed", "src"); ("object", "data");
   ("iframe", "src")].

Definition hasAttr (name : string) (el : element) : bool :=
  match getAttr name (attribs el) with Some _ => true | None => false end.

Definition selected (el : element) : bool :=
  existsb (fun sel => bool_decide (tag el = sel.1) && hasAttr sel.2 el) assetSelectors.

(** The body of [["href", "src", "data"].forEach] for one element. *)
Definition scanAttr (el : element) (m : list (string * string)) (attr : string)
    : list (string * string) :=
  match getAttr attr (attribs el) with
  | None => m
  | Some val =>
      if JS.truthy val && negb (JS.startsWith val "data:")
         && negb (JS.startsWith val "#") then
        let url :=
          if JS.startsWith val "http" then Some val
          else if JS.startsWith val "//" then Some ("https:" +:+ val)
          else option_map href (new_URL h val (Some baseUrl)) in
        match url with
        | None => m
        | Some url =>
            match typeOfUrl url with
            | Some type => JS.mapSet url type m
            | None => m
            end
        end
      else m
  end.

(** [url.replace(/[,;]$/, "")] *)
Definition dropTrailingPunctuation (url : string) : string :=
  match rev (JS.chars url) with
  | c :: r =>
      if bool_decide (c ∈ [","%char; ";"%char]) then JS.str (rev r) else url
  | [] => url
  end.

(** The body of [urlMatches.forEach] in the scan of all attributes. *)
Definition scanAttrUrl (m : list (string * string)) (url : string)
    : list (string * string) :=
  let cleanUrl := dropTrailingPunctuation url in
  match typeOfUrl cleanUrl with
  | Some type => JS.mapSet cleanUrl type m
  | None => m
  end.

Definition attrUrlMatches (val : string) : list string :=
  map (fun m => JS.str (Regex.matched m)) (Regex.matchAll Patterns.attrUrl (JS.chars val)).

(** The inline bodies of the elements with tag [t] (and, for scripts,
    without a [src]) go through [extractAssets] with type [type]. *)
Definition scanInline (t type : string) (needNoSrc : bool) (st : State) (el : element)
    : State :=
  if bool_decide (tag el = t) && (negb needNoSrc || negb (hasAttr "src" el))
     && JS.truthy (inner el) then
    let '(found, sm) :=
      extractAssets h enableSourceMaps (inner el) type baseUrl (sourceMapUrls st) in
    withAssetUrls (fold_left (fun m url => JS.mapSet url type m) found (assetUrls st))
                  (withSourceMapUrls sm st)
  else st.

(** The body of the loop over [htmlFiles]. *)
Definition scanDocument (doc : list element) (st : State) : State :=
  let st :=
    withAssetUrls
      (fold_left (fun m el => fold_left (scanAttr el) ["href"; "src"; "data"] m)
                 (filter (fun el => selected el) doc) (assetUrls st)) st in
  let st := fold_left (scanInline "script" "js" true) doc st in
  let st := fold_left (scanInline "style" "css" false) doc st in
  withAssetUrls
    (fold_left (fun m el =>
                  fold_left (fun m val => fold_left scanAttrUrl (attrUrlMatches val) m)
                            (map snd (attribs el)) m)
               doc (assetUrls st)) st.

Definition scanPages (st : State) : result State :=
  match htmlFolders st with
  | [] => Ok (fold_left (fun st kv => scanDocument (load h kv.2) st) (htmlFiles st) st)
  | _ :: _ => Throw "EISDIR: illegal operation on a directory, read"
  end.

(** *** 3. Recursively scan assets for more dependencies *)

(** The body of [for (const foundUrl of found)]; [None] when
    [new URL(foundUrl)] throws. *)
Definition addFound (foundUrl : string) (st : State) (toProcess : list string)
    : option (State * list string) :=
  if negb (JS.mapHas foundUrl (assetUrls st))
     && negb (bool_decide (foundUrl ∈ processedAssets st)) then
    match typeOfUrl foundUrl with
    | None => None
    | Some foundType =>
        Some (print (Log ("Found: " +:+ foundUrl))
                (withAssetUrls (JS.mapSet foundUrl foundType (assetUrls st)) st),
              (toProcess ++ [foundUrl])%list)
    end
  else Some (st, toProcess).

(** The loop over [found]; the boolean tells whether it was left by an
    exception. *)
Fixpoint addAllFound (found : list string) (st : State) (toProcess : list string)
    : State * list string * bool :=
  match found with
  | [] => (st, toProcess, false)
  | foundUrl :: found' =>
      match addFound foundUrl st toProcess with
      | None => (st, toProcess, true)
      | Some (st', toProcess') => addAllFound found' st' toProcess'
      end
  end.

(** One turn of the [while] loop for an unprocessed [url], [toProcess]
    being the queue after [shift]. *)
Definition scanAsset (url : string) (st : State) (toProcess : list string)
    : State * list string :=
  let st := withProcessed ({[url]} ∪ processedAssets st) st in
  let type := default "other" (JS.mapGet url (assetUrls st)) in
  let '(content, st) := download url st in
  match content with
  | None => (print (Warn ("Failed to scan " +:+ url)) st, toProcess)
  | Some text =>
      let '(found, sm) := extractAssets h enableSourceMaps text type url (sourceMapUrls st) in
      let '(st, toProcess, threw) := addAllFound found (withSourceMapUrls sm st) toProcess in
      if threw then (print (Warn ("Failed to scan " +:+ url)) st, toProcess)
      else (st, toProcess)
  end.

(** [while (toProcess.length > 0)], at most [fuel] turns; [None] when the
    turns run out. *)
Fixpoint discover (fuel : nat) (toProcess : list string) (st : State) : option State :=
  match toProcess with
  | [] => Some st
  | url :: toProcess' =>
      match fuel with
      | O => None
      | S fuel' =>
          if bool_decide (url ∈ processedAssets st) then discover fuel' toProcess' st
          else
            let '(st', toProcess'') := scanAsset url st toProcess' in
            discover fuel' toProcess'' st'
      end
  end.

(** Phases 2 and 3 after the pages are saved: [toProcess] starts as the
    keys of [assetUrls]. *)
Definition discovery (fuel : nat) (st : State) : option (result State) :=
  match scanPages st with
  | Throw e => Some (Throw e)
  | Ok st =>
      let st := print (Log "Scanning for dependencies...") st in
      Ok <$> discover fuel (JS.mapKeys (assetUrls st)) st
  end.

(** *** 4. Pre-compute all asset paths *)

(** [pathname === "/" || pathname.endsWith(".html")] *)
Definition isPagePath (u : URL) : bool :=
  bool_decide (pathname u = "/") || JS.endsWith (pathname u) ".html".

Fixpoint precompute (urls : list string) (a : Alloc) : result Alloc :=
  match urls with
  | [] => Ok a
  | url :: urls' =>
      match new_URL h url (Some baseUrl) with
      | None => Throw "Invalid URL"
      | Some u =>
          if isPagePath u then precompute urls' a
          else
            match assetPath h baseUrl url a with
            | Some (_, a') => precompute urls' a'
            | None => Throw "Invalid URL"
            end
      end
  end.

(** *** 5. Download all assets *)

(** A value that is either a [Buffer] or a string. *)
Inductive data : Type :=
| Buffer (bytes : string)
| Text (s : string).

(** [x.toString("utf8")] *)
Definition toString (x : data) : string :=
  match x with Buffer b => b | Text s => s end.

(** [x.replace(pattern, text)]: a string method; a [Buffer] has no
    [replace], and calling it throws a [TypeError]. *)
Definition replaceMethod (x : data) (pattern : Regex.re) (text : string) : result data :=
  match x with
  | Text s => Ok (Text (JS.str (Regex.replaceFirst pattern (JS.chars text) (JS.chars s))))
  | Buffer _ => Throw "processedContent.replace is not a function"
  end.

(** The [for (const pattern of PATTERNS.SOURCE_MAP)] loop: [Ok None] when
    no directive is kept, [Throw] when [new URL(mapRef, url)] throws. *)
Fixpoint findSourceMapUrl (patterns : list Regex.re) (text url : string)
    : result (option string) :=
  match patterns with
  | [] => Ok None
  | pattern :: patterns' =>
      match Regex.exec pattern (JS.chars text) with
      | Some m =>
          let mapRef := group 1 m in
          if JS.truthy mapRef then
            if JS.startsWith mapRef "http" then Ok (Some mapRef)
            else if negb (JS.startsWith mapRef "data:") then
              match new_URL h mapRef (Some url) with
              | Some r => Ok (Some (href r))
              | None => Throw "Invalid URL"
              end
            else Ok None
          else findSourceMapUrl patterns' text url
      | None => findSourceMapUrl patterns' text url
      end
  end.

(** The directive patterns of the two [replace] calls. *)
Definition lineDirective : Regex.re :=
  Regex.seq [Patterns.directive "//"; Regex.plus Patterns.notSpace].
Definition blockDirective : Regex.re :=
  Regex.seq [Patterns.directive "/*"; Regex.plus Patterns.notSpaceStar; Regex.ws;
             Regex.text "*/"].

(** [processedContent.replace(line, ...).replace(block, ...)]: the update
    of the source map reference. *)
Definition rewriteDirective (processedContent : data) (mapFileName : string)
    : result data :=
  match replaceMethod processedContent lineDirective
          ("//# sourceMappingURL=" +:+ mapFileName) with
  | Throw e => Throw e
  | Ok once =>
      replaceMethod once blockDirective
        ("/*# sourceMappingURL=" +:+ mapFileName +:+ " */")
  end.

(** The inner [try] block of the source-map branch, up to the value stored
    in [downloadedAssets]; the state carries the saved map even when a
    later statement throws. *)
Definition processSourceMap (url sourceMapUrl : string) (processedContent : data)
    (st : State) : result string * State :=
  match assetPath h baseUrl url (alloc st) with
  | None => (Throw "Invalid URL", st)
  | Some (p, a') =>
      let st := withAlloc a' st in
      let mapPath := p +:+ ".map" in
      let mapFullPath := Path.render (location h outDir mapPath) in
      let '(mapContent, st) :=
        match files st !! mapFullPath with
        | Some existing => (Some existing, st)
        | None =>
            let '(fetched, st) := download sourceMapUrl st in
            match fetched with
            | Some body =>
                match save mapPath body st with
                | (true, st) => (Some body, st)
                | (false, st) => (None, st)
                end
            | None => (None, st)
            end
        end in
      match mapContent with
      | None => (Throw "download or save failed", st)
      | Some mapContent =>
          if negb (JSON_parse h mapContent) then (Throw "Unexpected token", st)
          else
            let mapFileName := Path.basename mapPath in
            match rewriteDirective processedContent mapFileName with
            | Throw e => (Throw e, st)
            | Ok rewritten => (Ok (toString rewritten), st)
            end
      end
  end.

(** The body of the loop over [assetUrls]; [acc] is [downloadedAssets]. *)
Definition downloadAsset (acc : list (string * string) * State) (entry : string * string)
    : list (string * string) * State :=
  let '(downloadedAssets, st) := acc in
  let '(url, type) := entry in
  let failed (st : State) :=
    (downloadedAssets, print (Warn ("Failed to download " +:+ url)) st) in
  match new_URL h url (Some baseUrl) with
  | None => failed st
  | Some u =>
      if isPagePath u then acc
      else
        match assetPath h baseUrl url (alloc st) with
        | None => failed st
        | Some (filePath, a') =>
            let st := withAlloc a' st in
            if stat filePath st then
              (downloadedAssets, print (Log (Path.basename filePath +:+ " (cached)")) st)
            else
              let '(content, st) := download url st in
              match content with
              | None => failed st
              | Some content =>
                  let '(processedContent, st) :=
                    match rewriteUrls h baseUrl content url type (alloc st) with
                    | Some (rewritten, a'') => (Buffer rewritten, withAlloc a'' st)
                    | None => (Buffer content, print (Warn "Failed to rewrite URLs") st)
                    end in
                  let done (stored : string) (st : State) :=
                    (JS.mapSet url stored downloadedAssets,
                     print (Log (Path.basename filePath)) st) in
                  if enableSourceMaps
                     && (bool_decide (type = "js") || bool_decide (type = "mjs")) then
                    let text := toString processedContent in
                    match findSourceMapUrl Patterns.SOURCE_MAP text url with
                    | Throw _ => failed st
                    | Ok sourceMapUrl =>
                        match sourceMapUrl with
                        | Some sourceMapUrl =>
                            if JS.truthy sourceMapUrl
                               && negb (JS.startsWith sourceMapUrl "data:") then
                              let st := print (Log ("Found source map: " +:+ sourceMapUrl)) st in
                              match processSourceMap url sourceMapUrl processedContent st with
                              | (Ok stored, st) => done stored st
                              | (Throw _, st) =>
                                  done content
                                       (print (Warn "Failed to process source map") st)
                              end
                            else done content st
                        | None => done content st
                        end
                    end
                  else done content st
              end
        end
  end.

Definition downloadAssets (st : State) : list (string * string) * State :=
  fold_left downloadAsset (assetUrls st) ([], st).

(** *** 6. Save assets *)

(** The body of the loop over [downloadedAssets]; [Throw] aborts the
    run. *)
Fixpoint saveAssets (downloadedAssets : list (string * string)) (st : State)
    : result State :=
  match downloadedAssets with
  | [] => Ok st
  | (url, content) :: rest =>
      match assetPath h baseUrl url (alloc st) with
      | None => Throw "Invalid URL"
      | Some (p, a') =>
          match save p content (withAlloc a' st) with
          | (true, st) => saveAssets rest st
          | (false, _) => Throw "save failed"
          end
      end
  end.

(** *** The whole run *)

(** What the run leaves: the final state, [downloadedAssets], and the three
    counts of the summary. *)
Record Summary := mkSummary {
  final : State;
  downloadedAssets : list (string * string);
  pageCount : nat;
  assetCount : nat;
  sourceMapsFound : nat;
}.

(** [fs.mkdir(outDir, { recursive: true })] on the disk holding [files0]:
    rejected for an empty path, and when the folder or one above it is a
    file. *)
Definition start (files0 : gmap string string) : result State :=
  if negb (JS.truthy outDir) then Throw "ENOENT: no such file or directory, mkdir"
  else
    match mkdirp (Path.resolve (cwd h) outDir) (initialState files0) with
    | Some st => Ok st
    | None => Throw "EEXIST: file already exists, mkdir"
    end.

(** The phases after the first, from the state [st] in which the pages are
    saved. *)
Definition mirror (pages : list string) (fuel : nat) (st : State)
    : option (result Summary) :=
      match discovery fuel st with
      | None => None
      | Some (Throw e) => Some (Throw e)
      | Some (Ok st) =>
          match precompute (JS.mapKeys (assetUrls st)) (alloc st) with
          | Throw e => Some (Throw e)
          | Ok a =>
              let st := withAlloc a st in
              let st := print (Log ("Downloading " +:+ pretty (length (assetUrls st))
                                    +:+ " assets...")) st in
              let '(downloaded, st) := downloadAssets st in
              match saveAssets downloaded st with
              | Throw e => Some (Throw e)
              | Ok st =>
                  Some (Ok (mkSummary st downloaded (length pages) (length downloaded)
                              (length (filter (fun kv => JS.endsWith kv.1 ".map")
                                              downloaded))))
              end
          end
      end.

(** [broddy(baseUrl, pages, outDir, enableSourceMaps)] on a disk holding
    [files0]; [fuel] bounds the turns of the discovery loop.  [None]: the
    turns ran out; [Some (Throw e)]: the run was aborted by an exception. *)
Definition broddy (pages : list string) (files0 : gmap string string) (fuel : nat)
    : option (result Summary) :=
  match start files0 with
  | Throw e => Some (Throw e)
  | Ok st =>
      match downloadPages pages st with
      | Throw e => Some (Throw e)
      | Ok st => mirror pages fuel st
      end
  end.

End Run.

(** Any number of calls of [assetPath], on any URLs, between two states. *)
Inductive allocSteps (h : Host) (baseUrl : string) : Alloc -> Alloc -> Prop :=
| allocSteps_refl a : allocSteps h baseUrl a a
| allocSteps_call a url p a1 a2 :
    assetPath h baseUrl url a = Some (p, a1) ->
    allocSteps h baseUrl a1 a2 ->
    allocSteps h baseUrl a a2.

(** Every assigned path is recorded as used, and no path has two URLs. *)
Definition allocInv (a : Alloc) : Prop :=
  (forall u p, filePathMap a !! u = Some p -> p ∈ usedPaths a)
  /\ (forall u v p, filePathMap a !! u = Some p -> filePathMap a !! v = Some p -> u = v).

(** A segment of a normalised path: not empty, no separator inside. *)
Definition cleanSegment (s : Path.segment) : Prop := s <> [] /\ Path.slash ∉ s.

(** The detection patterns that [rewriteUrls] applies to a file of type
    [fileType], in the order of its [replace] calls, each with the URL that
    its replacer looks up in [filePathMap]. *)
Definition detectors (fileType : string) : list (Regex.re * (Regex.found -> string)) :=
  let url1 (m : Regex.found) := JS.str (Regex.getcap 1 (Regex.groups m)) in
  let url2 (m : Regex.found) := JS.str (Regex.getcap 2 (Regex.groups m)) in
  (if bool_decide (fileType = "js") || bool_decide (fileType = "mjs")
   then [(Patterns.quotedUrl, url2); (Patterns.fetchUrl, url2); (Patterns.newUrl, url2)]
   else [])
  ++ (if bool_decide (fileType = "css")
      then [(Patterns.cssAbsUrl, fun m => trim (url2 m)); (Patterns.cssAbsImport, url2)]
      else [])
  ++ (if bool_decide (fileType = "json") then [(Patterns.jsonAbsUrl, url1)] else []).

(** The references left to rewrite in [content], the text of the file at
    [fileUrl]: the URLs captured by the matches that the global search of a
    detection pattern finds in [content] and for which the replacer has a
    path to write. *)
Definition pending (h : Host) (baseUrl fileUrl fileType : string) (a : Alloc)
    (content : string) : list string :=
  match new_URL h baseUrl None, assetPath h baseUrl fileUrl a with
  | Some baseUrlObj, Some (filePath, a') =>
      flat_map (fun d =>
                  filter (fun url =>
                            bool_decide
                              (is_Some (rewriteTarget h (origin baseUrlObj) a' filePath url)))
                         (map d.2 (Regex.matchAll d.1 (JS.chars content))))
               (detectors fileType)
  | _, _ => []
  end.

(** [r] has a group [n]. *)
Fixpoint sets (n : nat) (r : Regex.re) : bool :=
  match r with
  | Regex.Seq r1 r2 | Regex.Alt r1 r2 => sets n r1 || sets n r2
  | Regex.Star _ r1 => sets n r1
  | Regex.Group k r1 => Nat.eqb k n || sets n r1
  | _ => false
  end.

(** Every match of [r] goes through a group [n] that begins with
    [Patterns.scheme], and through no group [n] after it. *)
Inductive schemeGroup (n : nat) : Regex.re -> Prop :=
| schemeGroup_here r : schemeGroup n (Regex.Group n (Regex.Seq Patterns.scheme r))
| schemeGroup_first r1 r2 :
    schemeGroup n r1 -> sets n r2 = false -> schemeGroup n (Regex.Seq r1 r2)
| schemeGroup_then r1 r2 : schemeGroup n r2 -> schemeGroup n (Regex.Seq r1 r2).

(** A text that begins with a scheme and [://]. *)
Definition absolute (l : list ascii) : Prop :=
  exists a sch rest,
    l = (a :: sch ++ JS.chars "://" ++ rest)%list /\ Regex.isAlpha a = true.

(** ** A sample host

    A small URL parser, enough for the concrete runs below: absolute
    [http:]/[https:] URLs with a non-empty host, other schemes as opaque
    paths, and relative references against an [http(s)] base, with dot
    segments removed.  It does no percent-encoding and no host
    normalisation.  The general theorems do not depend on it. *)

Module Sample.

Local Open Scope list_scope.

Definition code (c : ascii) : nat := nat_of_ascii c.

Definition is_alpha (c : ascii) : bool :=
  ((65 <=? code c)%nat && (code c <=? 90)%nat)
  || ((97 <=? code c)%nat && (code c <=? 122)%nat).

Definition is_digit (c : ascii) : bool :=
  (48 <=? code c)%nat && (code c <=? 57)%nat.

Definition is_scheme_char (c : ascii) : bool :=
  is_alpha c || is_digit c
  || bool_decide (c = "+"%char) || bool_decide (c = "."%char) || bool_decide (c = "-"%char).

Definition is_one_of (s : string) (c : ascii) : bool :=
  bool_decide (c ∈ JS.chars s).

Definition until (stop : string) (l : list ascii) : list ascii :=
  Path.takeWhile (fun c => negb (is_one_of stop c)) l.

Definition from (stop : string) (l : list ascii) : list ascii :=
  Path.dropWhile (fun c => negb (is_one_of stop c)) l.

Definition split_scheme (l : list ascii) : option (list ascii * list ascii) :=
  match l with
  | c :: _ =>
      if is_alpha c then
        match Path.dropWhile is_scheme_char l with
        | ":"%char :: rest => Some (Path.takeWhile is_scheme_char l, rest)
        | _ => None
        end
      else None
  | [] => None
  end.

Fixpoint remove_dots (segs acc : list (list ascii)) : list (list ascii) :=
  match segs with
  | [] => rev acc
  | s :: rest =>
      if bool_decide (s = JS.chars ".") then
        match rest with [] => rev ([] :: acc) | _ => remove_dots rest acc end
      else if bool_decide (s = JS.chars "..") then
        match rest with [] => rev ([] :: tail acc) | _ => remove_dots rest (tail acc) end
      else remove_dots rest (s :: acc)
  end.

Definition normal_path (p : list ascii) : list ascii :=
  match p with
  | "/"%char :: p' => "/"%char :: JS.joinWith "/"%char (remove_dots (JS.splitOn "/"%char p') [])
  | _ => "/"%char :: JS.joinWith "/"%char (remove_dots (JS.splitOn "/"%char p) [])
  end.

Definition query_of (l : list ascii) : list ascii :=
  match from "?#" l with
  | "?"%char :: q => match until "#" q with [] => [] | q' => "?"%char :: q' end
  | _ => []
  end.

Definition is_special (scheme : list ascii) : bool :=
  bool_decide (scheme = JS.chars "http") || bool_decide (scheme = JS.chars "https").

Definition parse_absolute (input : string) : option URL :=
  match split_scheme (JS.chars input) with
  | None => None
  | Some (scheme, rest) =>
      if is_special scheme then
        match rest with
        | "/"%char :: "/"%char :: rest' =>
            let host := until "/?#" rest' in
            let tl := from "/?#" rest' in
            match host with
            | [] => None
            | _ =>
                let org := scheme ++ JS.chars "://" ++ host in
                let path := normal_path (until "?#" tl) in
                Some (mkURL (JS.str (org ++ path ++ from "?#" tl))
                            (JS.str org) (JS.str path) (JS.str (query_of tl)))
            end
        | _ => None
        end
      else
        Some (mkURL input "null" (JS.str (until "?#" rest)) (JS.str (query_of rest)))
  end.

Definition dir_of (p : list ascii) : list ascii :=
  rev (Path.dropWhile (fun c => negb (Path.is_slash c)) (rev p)).

Definition parse (input : string) (base : option string) : option URL :=
  match parse_absolute input, base with
  | Some u, _ => Some u
  | None, None => None
  | None, Some b =>
      match split_scheme (JS.chars input), parse_absolute b with
      | Some _, _ => None
      | None, None => None
      | None, Some bu =>
          if negb (is_special (until ":" (JS.chars (origin bu)))) then None else
          match JS.chars input with
          | "/"%char :: "/"%char :: _ =>
              parse_absolute (JS.str (until ":" (JS.chars (origin bu))) +:+ ":" +:+ input)
          | "/"%char :: _ => parse_absolute (origin bu +:+ input)
          | "?"%char :: _ => parse_absolute (origin bu +:+ pathname bu +:+ input)
          | "#"%char :: _ =>
              parse_absolute (origin bu +:+ pathname bu +:+ search bu +:+ input)
          | [] => parse_absolute (origin bu +:+ pathname bu +:+ search bu)
          | _ =>
              parse_absolute
                (origin bu +:+ JS.str (dir_of (JS.chars (pathname bu))) +:+ input)
          end
      end
  end.

(** A host with this parser and no network, for the allocator alone. *)
Definition offline : Host :=
  mkHost parse (fun _ => None) (fun _ => []) (fun _ => "") (fun _ => false) "/".

(** A plain serialisation of a document. *)
Definition showAttr (kv : string * string) : string :=
  " " +:+ kv.1 +:+ "='" +:+ kv.2 +:+ "'".

Definition showElement (el : element) : string :=
  "<" +:+ tag el +:+ String.concat "" (map showAttr (attribs el)) +:+ ">"
  +:+ inner el +:+ "</" +:+ tag el +:+ ">".

Definition serialize (doc : list element) : string :=
  String.concat "" (map showElement doc).

(** A host serving [web] (URL to [res.ok] and body), whose HTML parser
    knows the documents [docs] by their serialisation, with working
    directory [dir]. *)
Definition site (web : list (string * (bool * string))) (docs : list (list element))
    (dir : string) : Host :=
  mkHost parse
         (fun url => JS.mapGet url web)
         (fun text => default [] (JS.mapGet text (map (fun d => (serialize d, d)) docs)))
         serialize
         (fun text => JS.startsWith text "{")
         dir.

(** Call [assetPath] on each URL in turn; a URL that does not parse is
    passed over. *)
Definition allocateFrom (h : Host) (baseUrl : string) (a : Alloc)
    (urls : list string) : Alloc :=
  fold_left (fun a url =>
               match assetPath h baseUrl url a with
               | Some (_, a') => a'
               | None => a
               end) urls a.

Definition allocate (h : Host) (baseUrl : string) (urls : list string) : Alloc :=
  allocateFrom h baseUrl emptyAlloc urls.

End Sample.

(** ** Sample sites *)

Module Scenario.

Definition base : string := "https://x.test".

(** A page with one script, the script importing a chunk. *)
Definition spaPage : list element :=
  [mkElement "script" [("src", "https://x.test/app.js")] ""].

Definition spa : Host :=
  Sample.site
    [("https://x.test/", (true, Sample.serialize spaPage));
     ("https://x.test/app.js", (true, "import('https://x.test/chunk.js')"));
     ("https://x.test/chunk.js", (true, "export default 1"))]
    [spaPage] "/home/u".

(** The same site, the script ending in a source-map directive. *)
Definition appWithDirective : string :=
  "import('https://x.test/chunk.js');//@ sourceMappingURL=maps/app.js.map".

Definition mapped : Host :=
  Sample.site
    [("https://x.test/", (true, Sample.serialize spaPage));
     ("https://x.test/app.js", (true, appWithDirective));
     ("https://x.test/chunk.js", (true, "export default 1"));
     ("https://x.test/maps/app.js.map", (true, "{}"))]
    [spaPage] "/home/u".

(** A script with an inline source map. *)
Definition inlineMap : string :=
  "export default 1;//# sourceMappingURL=data:application/json;base64,e30=".

(** Two URLs with the path [/img] on two hosts, and a script of the site
    that fetches the one of the site. *)
Definition imgUrls : list string :=
  ["https://cdn.test/img"; "https://x.test/app.js"; "https://x.test/img"].

Definition offline : Host := Sample.site [] [] "/home/u".

(** Two scripts that import each other. *)
Definition cycle : Host :=
  Sample.site
    [("https://x.test/a.js", (true, "import('https://x.test/b.js')"));
     ("https://x.test/b.js", (true, "import('https://x.test/a.js')"))]
    [] "/home/u".

(** A page with two scripts whose URLs differ by a doubled separator. *)
Definition twinsPage : list element :=
  [mkElement "script" [("src", "https://x.test/a/b.js")] "";
   mkElement "script" [("src", "https://x.test/a//b.js")] ""].

Definition twins : Host :=
  Sample.site
    [("https://x.test/", (true, Sample.serialize twinsPage));
     ("https://x.test/a/b.js", (true, "FIRST"));
     ("https://x.test/a//b.js", (true, "SECOND"))]
    [twinsPage] "/home/u".

(** A page whose inline script builds a URL from a scheme and the host of
    the page; the script of the page is served. *)
Definition danglingPage : list element :=
  [mkElement "script" [("src", "https://x.test/app.js")] "";
   mkElement "script" [] "new URL('http://' + location.host)"].

Definition dangling : Host :=
  Sample.site
    [("https://x.test/", (true, Sample.serialize danglingPage));
     ("https://x.test/app.js", (true, "export default 1"))]
    [danglingPage] "/home/u".

End Scenario.

(** ** What the scans change *)

(** Between two states only [assetUrls] and [sourceMapUrls] differ, and the
    keys of [assetUrls] stay distinct. *)
Definition onlyUrlsChange (st st' : State) : Prop :=
  files st' = files st
  /\ alloc st' = alloc st
  /\ processedAssets st' = processedAssets st
  /\ console st' = console st
  /\ requests st' = requests st
  /\ (NoDup (JS.mapKeys (assetUrls st)) -> NoDup (JS.mapKeys (assetUrls st'))).

(** ** Definitions for the further properties *)

(** A segment that [normalizeAbs] pushes and never pops by itself. *)
Definition plainSegment (s : Path.segment) : Prop :=
  s <> [] /\ s <> [Path.dot] /\ s <> Path.dotdot.

(** The folder that [path.join(outDir, p)] puts a rooted [p] under. *)
Definition outBase (h : Host) (outDir : string) : list Path.segment :=
  if JS.truthy outDir then Path.resolve (cwd h) outDir else [].

(** The digits of [toString(36)]. *)
Definition base36 : list ascii := JS.chars "0123456789abcdefghijklmnopqrstuvwxyz".

(** ** The command line and the crawl of the root page *)

Module Cli.

(** [a.startsWith("--")] *)
Definition isFlag (a : string) : bool := JS.startsWith a "--".

(** What the top of the script settles before [broddy] runs; [pages] is
    [remaining] after the output folder was popped, and is empty when the
    pages are to come from [crawlRoot]. *)
Record Options := mkOptions {
  baseUrl : string;
  enableSourceMaps : bool;
  outDir : string;
  pages : list string;
}.

(** [args.filter((a) => a !== baseUrl && !a.startsWith("--"))] *)
Definition remaining (baseUrl : string) (args : list string) : list string :=
  filter (fun a => negb (bool_decide (a = baseUrl)) && negb (isFlag a)) args.

(** [if (remaining.length && !remaining.at(-1).startsWith("/"))
       outDir = remaining.pop()]: the folder and what is left. *)
Definition popOutDir (remaining : list string) : string * list string :=
  match rev remaining with
  | lastArg :: others =>
      if negb (JS.startsWith lastArg "/") then (lastArg, rev others)
      else ("mirror", remaining)
  | [] => ("mirror", remaining)
  end.

(** The statements before the call of [broddy], on [process.argv.slice(2)];
    [None] is the usage message and [process.exit(1)]. *)
Definition parseArgs (args : list string) : option Options :=
  match List.find (fun a => negb (isFlag a)) args with
  | None => None
  | Some baseUrl =>
      if JS.truthy baseUrl then
        let '(outDir, pages) := popOutDir (remaining baseUrl args) in
        Some (mkOptions baseUrl (bool_decide ("--sourcemaps" ∈ args)) outDir pages)
      else None
  end.

End Cli.

(** The body of [$("a[href]").each] in [crawlRoot]. *)
Definition crawlLink (h : Host) (base : string) (set : list string) (el : element)
    : list string :=
  if bool_decide (tag el = "a") then
    match getAttr "href" (attribs el) with
    | None => set
    | Some target =>
        match new_URL h target (Some base) with
        | None => set
        | Some u =>
            match new_URL h base None with
            | None => set
            | Some b =>
                if bool_decide (origin u = origin b) then JS.setAdd (pathname u) set
                else set
            end
        end
    end
  else set.

(** [crawlRoot(base)]: the pages of a site, found on its root page. *)
Definition crawlRoot (h : Host) (base : string) : result (list string) :=
  match new_URL h "/" (Some base) with
  | None => Throw "Invalid URL"
  | Some root =>
      match fetch h (href root) with
      | None => Throw "fetch failed"
      | Some (_, text) => Ok (fold_left (crawlLink h base) (load h text) ["/"])
      end
  end.

(** [p] is the path of a link of [doc] into the site at [base]: what
    [crawlRoot] looks for. *)
Definition linkedPage (h : Host) (base : string) (doc : list element) (p : string) : Prop :=
  exists el target u b,
    el ∈ doc /\ tag el = "a" /\ getAttr "href" (attribs el) = Some target
    /\ new_URL h target (Some base) = Some u /\ new_URL h base None = Some b
    /\ origin u = origin b /\ p = pathname u.

(** A root page that answers 404 and links to [/about] twice and to
    another site. *)
Definition linksPage : list element :=
  [mkElement "a" [("href", "/about")] "About";
   mkElement "a" [("href", "https://other.test/x")] "Elsewhere";
   mkElement "a" [("href", "https://x.test/about?tab=1")] "About again"].

Definition linked : Host :=
  Sample.site [("https://x.test/", (false, Sample.serialize linksPage))]
    [linksPage] "/home/u".

(** The host [h] with the status of every response replaced: [res.ok] is
    [ok url] for the response to [url]. *)
Definition withStatus (ok : string -> bool) (h : Host) : Host :=
  mkHost (new_URL h) (fun url => (fun r => (ok url, r.2)) <$> fetch h url)
         (load h) (html h) (JSON_parse h) (cwd h).

(** The requests of phase 1, one per page. *)
Definition pageUrls (h : Host) (baseUrl : string) (pages : list string) : list string :=
  omap (fun page => href <$> new_URL h page (Some baseUrl)) pages.

(** What phase 5 stores are assets: their URLs parse, and their paths are
    not page paths. *)
Definition storable (h : Host) (baseUrl url : string) : Prop :=
  exists u, new_URL h url (Some baseUrl) = Some u /\ isPagePath u = false.

(** The summary of a finished run; an empty one for any other outcome. *)
Definition summaryOf (r : option (result Summary)) : Summary :=
  match r with
  | Some (Ok s) => s
  | _ => mkSummary (initialState ∅) [] 0 0 0
  end.

(** A page with a script and a frame. *)
Definition framedPage : list element :=
  [mkElement "script" [("src", "https://x.test/app.js")] "";
   mkElement "iframe" [("src", "https://x.test/frame.html")] ""].

Definition framed : Host :=
  Sample.site
    [("https://x.test/", (true, Sample.serialize framedPage));
     ("https://x.test/app.js", (true, "export default 1"));
     ("https://x.test/frame.html", (true, "<p>frame</p>"))]
    [framedPage] "/home/u".

(** The state that a phase returns; the initial one when it throws. *)
Definition stateOf (r : result State) : State :=
  match r with
  | Ok st => st
  | Throw _ => initialState ∅
  end.

(** Phase 4 has given [url] its path, if [url] is an asset. *)
Definition covered (h : Host) (baseUrl : string) (a : Alloc) (url : string) : Prop :=
  forall x, new_URL h url (Some baseUrl) = Some x -> isPagePath x = false ->
            is_Some (filePathMap a !! url).

(** * Properties *)

(** ** Strings *)

Lemma chars_app (s t : string) : JS.chars (s +:+ t) = (JS.chars s ++ JS.chars t)%list.
Proof. induction s as [|c s IH]; simpl; [done | by rewrite IH]. Qed.

Lemma chars_inj (s t : string) : JS.chars s = JS.chars t -> s = t.
Proof.
  intros E. rewrite <- (string_of_list_ascii_of_string s),
    <- (string_of_list_ascii_of_string t). unfold JS.chars in E. by rewrite E.
Qed.

Lemma str_chars (s : string) : JS.str (JS.chars s) = s.
Proof. apply string_of_list_ascii_of_string. Qed.

Lemma chars_str (l : list ascii) : JS.chars (JS.str l) = l.
Proof. apply list_ascii_of_string_of_list_ascii. Qed.

Lemma numbered_inj (name ext : string) : Inj (=) (=) (numbered name ext).
Proof.
  intros i j E. unfold numbered in E.
  apply (f_equal JS.chars) in E. rewrite !chars_app in E.
  do 2 apply app_inv_head in E. apply app_inv_tail in E.
  apply chars_inj in E. by apply (inj pretty) in E.
Qed.

(** ** The path allocator *)

Section Allocator.

Context (h : Host) (baseUrl : string).

Lemma freePath_fresh used name ext fuel counter p :
  freePath used name ext fuel counter = Some p -> p ∉ used.
Proof.
  revert counter. induction fuel as [|fuel IH]; intros counter; simpl;
    case_bool_decide; try done; try (intros [= <-]; done). apply IH.
Qed.

(** The collision loop ends: among [size used + 1] distinct candidates one
    is not in [used]. *)
Lemma freePath_total used name ext fuel counter (S : gset string) :
  (forall k, counter <= k -> numbered name ext k ∈ used -> numbered name ext k ∈ S) ->
  size S <= fuel ->
  is_Some (freePath used name ext fuel counter).
Proof.
  revert counter S. induction fuel as [|fuel IH]; intros counter S HS Hsize; simpl.
  - case_bool_decide as Hin; [|by eexists].
    apply HS in Hin; [|lia].
    assert (size S = 0) as Hz%size_empty_iff by lia. set_solver.
  - case_bool_decide as Hin; [|by eexists].
    apply (IH _ (S ∖ {[numbered name ext counter]})).
    + intros k Hk Hused. apply elem_of_difference. split; [apply HS; [lia|done]|].
      rewrite elem_of_singleton. intros E%numbered_inj. lia.
    + assert (numbered name ext counter ∈ S) as HinS by (apply HS; [lia|done]).
      pose proof (size_difference S {[numbered name ext counter]}) as Hd.
      rewrite size_singleton in Hd. 
      assert ({[numbered name ext counter]} ⊆ S) as Hsub by set_solver.
      specialize (Hd Hsub).
      assert (size S <> 0).
      { intros Hz. apply size_empty_iff in Hz. set_solver. }
      lia.
Qed.

Lemma uncollide_total used filePath : is_Some (uncollide used filePath).
Proof.
  unfold uncollide. case_bool_decide; [|by eexists].
  by apply (freePath_total _ _ _ _ _ used).
Qed.

Lemma uncollide_fresh used filePath p : uncollide used filePath = Some p -> p ∉ used.
Proof.
  unfold uncollide. case_bool_decide.
  - apply freePath_fresh.
  - by intros [= <-].
Qed.

(** [assetPath] returns whenever the URL parses. *)
Lemma assetPath_total url a :
  is_Some (new_URL h url (Some baseUrl)) -> is_Some (assetPath h baseUrl url a).
Proof.
  intros [u Hu]. unfold assetPath. destruct (filePathMap a !! url); [by eexists|].
  rewrite Hu. destruct (uncollide_total (usedPaths a) (hashedPath u)) as [p ->].
  by eexists.
Qed.

(** What a call does to the maps: nothing, or one fresh path claimed. *)
Lemma assetPath_cases url a p a' :
  assetPath h baseUrl url a = Some (p, a') ->
  (filePathMap a !! url = Some p /\ a' = a)
  \/ (filePathMap a !! url = None /\ (p ∉ usedPaths a)
      /\ a' = mkAlloc (<[url := p]> (filePathMap a)) ({[p]} ∪ usedPaths a)).
Proof.
  unfold assetPath. destruct (filePathMap a !! url) as [q|] eqn:E.
  - intros [= <- <-]. by left.
  - destruct (new_URL h url (Some baseUrl)) as [u|]; [|done].
    destruct (uncollide (usedPaths a) (hashedPath u)) as [q|] eqn:Eq; [|done].
    intros [= <- <-]. right. split; [done|]. split; [|done].
    by eapply uncollide_fresh.
Qed.

Lemma allocInv_empty : allocInv emptyAlloc.
Proof. split; intros *; simpl; by rewrite lookup_empty. Qed.

Lemma assetPath_inv url a p a' :
  allocInv a -> assetPath h baseUrl url a = Some (p, a') -> allocInv a'.
Proof.
  intros [Hused Hinj] [[_ ->]|(Hnone & Hfresh & ->)]%assetPath_cases; [done|].
  split; simpl.
  - intros u q. rewrite lookup_insert. case_decide.
    + intros [= <-]. set_solver.
    + intros Hq%Hused. set_solver.
  - intros u v q. rewrite !lookup_insert. repeat case_decide; subst.
    + done.
    + intros [= <-] Hv%Hused. done.
    + intros Hu%Hused [= <-]. done.
    + apply Hinj.
Qed.

Lemma allocSteps_inv a a' : allocSteps h baseUrl a a' -> allocInv a -> allocInv a'.
Proof. induction 1; eauto using assetPath_inv. Qed.

Lemma assetPath_lookup url a p a' :
  assetPath h baseUrl url a = Some (p, a') -> filePathMap a' !! url = Some p.
Proof.
  intros [[? ->]|(_ & _ & ->)]%assetPath_cases; [done|]. simpl. apply lookup_insert_eq.
Qed.

Lemma assetPath_keeps url a p a' u q :
  assetPath h baseUrl url a = Some (p, a') ->
  filePathMap a !! u = Some q -> filePathMap a' !! u = Some q.
Proof.
  intros [[? ->]|(Hnone & _ & ->)]%assetPath_cases Hu; [done|]. simpl.
  rewrite lookup_insert_ne; [done|]. intros ->. congruence.
Qed.

Lemma allocSteps_keeps a a' u q :
  allocSteps h baseUrl a a' ->
  filePathMap a !! u = Some q -> filePathMap a' !! u = Some q.
Proof. induction 1; eauto using assetPath_keeps. Qed.

End Allocator.

(** In any state reached from the empty maps by calls of [assetPath], two
    different URLs that both have a path have different paths, as
    strings. *)
Lemma filePathMap_injective (h : Host) (baseUrl : string) (a : Alloc)
    (u v pu pv : string) :
  allocSteps h baseUrl emptyAlloc a ->
  u <> v ->
  filePathMap a !! u = Some pu ->
  filePathMap a !! v = Some pv ->
  pu <> pv.
Proof.
  intros Hsteps Hne Hu Hv ->.
  destruct (allocSteps_inv _ _ _ _ Hsteps allocInv_empty) as [_ Hinj]. eauto.
Qed.

Lemma allocateFrom_steps (h : Host) (baseUrl : string) (urls : list string) (a : Alloc) :
  allocSteps h baseUrl a (Sample.allocateFrom h baseUrl a urls).
Proof.
  revert a. induction urls as [|url urls IH]; intros a; simpl; [constructor|].
  destruct (assetPath h baseUrl url a) as [[p a']|] eqn:E; [|apply IH].
  eapply allocSteps_call; [exact E|apply IH].
Qed.

Lemma allocate_steps (h : Host) (baseUrl : string) (urls : list string) :
  allocSteps h baseUrl emptyAlloc (Sample.allocate h baseUrl urls).
Proof. apply allocateFrom_steps. Qed.

(** C3. Idempotent allocation: once [assetPath] has returned [p] for a URL,
    a later call for that URL, after any number of calls for any URLs,
    returns [p] again and changes nothing. *)
Theorem assetPath_idempotent (h : Host) (baseUrl : string) (a a1 a2 : Alloc)
    (u p : string) :
  assetPath h baseUrl u a = Some (p, a1) ->
  allocSteps h baseUrl a1 a2 ->
  assetPath h baseUrl u a2 = Some (p, a2).
Proof.
  intros Hfirst Hsteps.
  apply assetPath_lookup in Hfirst.
  pose proof (allocSteps_keeps _ _ _ _ _ _ Hsteps Hfirst) as Hlater.
  unfold assetPath. by rewrite Hlater.
Qed.

Lemma assetPath_idempotent_witness :
  let h := Sample.offline in
  let u := "https://x.test/img?a=1" in
  let a1 := Sample.allocate h "https://x.test" [u] in
  let a2 := Sample.allocateFrom h "https://x.test" a1
              ["https://cdn.test/img"; "https://x.test/img"; u] in
  filePathMap a2 !! "https://x.test/img" = Some "-1"
  /\ assetPath h "https://x.test" u a2 = Some ("/img-169li", a2).
Proof.
  intros h u a1 a2. split; [vm_compute; reflexivity|].
  apply (assetPath_idempotent h "https://x.test" emptyAlloc a1 a2 u "/img-169li").
  - vm_compute. reflexivity.
  - apply allocateFrom_steps.
Defined.

(** ** The reference rewriter *)

(** C10. A file whose origin differs from the origin of the site is
    returned unchanged by [rewriteUrls], whatever it contains and whatever
    the URL-to-path map holds. *)
Theorem rewriteUrls_cross_origin_unchanged (h : Host) (baseUrl : string)
    (content fileUrl fileType : string) (a : Alloc) (baseUrlObj fileUrlObj : URL) :
  new_URL h baseUrl None = Some baseUrlObj ->
  new_URL h fileUrl (Some baseUrl) = Some fileUrlObj ->
  origin fileUrlObj <> origin baseUrlObj ->
  exists a', rewriteUrls h baseUrl content fileUrl fileType a = Some (content, a').
Proof.
  intros Hbase Hfile Hne. unfold rewriteUrls. rewrite Hbase, Hfile.
  destruct (assetPath_total h baseUrl fileUrl a) as [[p a'] Hp]; [by eexists|].
  rewrite Hp. rewrite bool_decide_eq_false_2 by done. simpl. by exists a'.
Qed.

Lemma rewriteUrls_cross_origin_unchanged_witness :
  let a := Sample.allocate Scenario.offline Scenario.base
             ["https://x.test/a.js"; "https://cdn.test/lib.js"] in
  filePathMap a !! "https://x.test/a.js" = Some "/a.js"
  /\ exists a',
       rewriteUrls Scenario.offline Scenario.base "import('https://x.test/a.js')"
         "https://cdn.test/lib.js" "js" a
       = Some ("import('https://x.test/a.js')", a').
Proof.
  intros a. split; [vm_compute; reflexivity|].
  eapply (rewriteUrls_cross_origin_unchanged Scenario.offline Scenario.base
            "import('https://x.test/a.js')" "https://cdn.test/lib.js" "js" a).
  - vm_compute. reflexivity.
  - vm_compute. reflexivity.
  - vm_compute. discriminate.
Defined.


(** ** The pattern extractor *)

(** C8 at an inline source map: with source maps enabled, the [data:]
    reference of the directive is added to the extracted set. *)
Theorem extractAssets_adds_data_uri :
  (extractAssets Scenario.offline true Scenario.inlineMap "js"
     "https://x.test/app.js" ∅).1
  = ["data:application/json;base64,e30="].
Proof. vm_compute. reflexivity. Qed.

(** ** Relative paths *)

(** C4 at a target whose path lost its leading slash in collision
    handling: the relative path written into [/app.js] leads, from the
    directory where [/app.js] is saved, to a file other than the saved
    target. *)
Theorem relative_path_misses_renamed_target :
  let h := Scenario.offline in
  let a := Sample.allocate h Scenario.base Scenario.imgUrls in
  filePathMap a !! "https://x.test/app.js" = Some "/app.js"
  /\ filePathMap a !! "https://x.test/img" = Some "-1"
  /\ rewriteUrls h Scenario.base "fetch('https://x.test/img')"
       "https://x.test/app.js" "js" a
     = Some ("fetch('home/u/-1')", a)
  /\ Path.render (Path.resolveFrom (location h "mirror" (Path.dirname "/app.js"))
                    (getRelativePath h "/app.js" "-1"))
     = "/home/u/mirror/home/u/-1"
  /\ Path.render (location h "mirror" "-1") = "/home/u/mirror/-1".
Proof. intros h a. repeat split; vm_compute; reflexivity. Qed.

(** ** Whole runs *)

(** C1 on the single-page site: the run reports two assets, and both the
    saved page and the saved script still hold the absolute URLs. *)
Theorem spa_run_leaves_references_absolute :
  exists s,
    broddy Scenario.spa Scenario.base "mirror" false ["/"] ∅ 10 = Some (Ok s)
    /\ assetCount s = 2
    /\ filePathMap (alloc (final s)) !! "https://x.test/app.js" = Some "/app.js"
    /\ filePathMap (alloc (final s)) !! "https://x.test/chunk.js" = Some "/chunk.js"
    /\ files (final s) !! "/home/u/mirror/index.html"
       = Some "<script src='https://x.test/app.js'></script>"
    /\ files (final s) !! "/home/u/mirror/app.js"
       = Some "import('https://x.test/chunk.js')"
    /\ files (final s) !! "/home/u/mirror/chunk.js" = Some "export default 1".
Proof.
  destruct (broddy Scenario.spa Scenario.base "mirror" false ["/"] ∅ 10)
    as [[s|e]|] eqn:E; [|vm_compute in E; discriminate..].
  exists s. split; [reflexivity|].
  assert (Some (Ok s) = broddy Scenario.spa Scenario.base "mirror" false ["/"] ∅ 10)
    as E' by done.
  clear E. vm_compute in E'. injection E' as ->. repeat split; vm_compute; reflexivity.
Qed.

(** C2 on a page with the scripts [/a/b.js] and [/a//b.js]: the two URLs
    get two paths, both are downloaded and counted, [save] writes both to
    the one file that the two paths name, and the file ends up with the
    script saved last. *)
Theorem twin_paths_share_one_file :
  exists s,
    broddy Scenario.twins Scenario.base "mirror" false ["/"] ∅ 10 = Some (Ok s)
    /\ downloadedAssets s
       = [("https://x.test/a/b.js", "FIRST"); ("https://x.test/a//b.js", "SECOND")]
    /\ filePathMap (alloc (final s)) !! "https://x.test/a/b.js" = Some "/a/b.js"
    /\ filePathMap (alloc (final s)) !! "https://x.test/a//b.js" = Some "/a//b.js"
    /\ Path.render (location Scenario.twins "mirror" "/a/b.js") = "/home/u/mirror/a/b.js"
    /\ Path.render (location Scenario.twins "mirror" "/a//b.js") = "/home/u/mirror/a/b.js"
    /\ map fst (map_to_list (files (final s)))
       = ["/home/u/mirror/index.html"; "/home/u/mirror/a/b.js"]
    /\ files (final s) !! "/home/u/mirror/a/b.js" = Some "SECOND".
Proof.
  destruct (broddy Scenario.twins Scenario.base "mirror" false ["/"] ∅ 10)
    as [[s|e]|] eqn:E; [|vm_compute in E; discriminate..].
  exists s. split; [reflexivity|].
  assert (Some (Ok s) = broddy Scenario.twins Scenario.base "mirror" false ["/"] ∅ 10)
    as E' by done.
  clear E. vm_compute in E'. injection E' as ->. repeat split; vm_compute; reflexivity.
Qed.

(** C7 on a page whose inline script holds [new URL('http://' + ...)]: the
    text [http://] is taken for an asset, its request is rejected, which
    the discovery loop survives with a warning, and the run is then aborted
    by [new URL] in phase 4. *)
Theorem failed_fetch_aborts_run :
  let h := Scenario.dangling in
  let st1 := stateOf (downloadPages h Scenario.base "mirror" ["/"]
                        (stateOf (start h "mirror" ∅))) in
  let st3 := stateOf (default (Throw "") (discovery h Scenario.base "mirror" false 10 st1)) in
  fetch h "http://" = None
  /\ discovery h Scenario.base "mirror" false 10 st1 = Some (Ok st3)
  /\ JS.mapKeys (assetUrls st3) = ["https://x.test/app.js"; "http://"]
  /\ Warn "Failed to scan http://" ∈ console st3
  /\ broddy h Scenario.base "mirror" false ["/"] ∅ 10 = Some (Throw "Invalid URL").
Proof.
  intros h st1 st3. split; [vm_compute; reflexivity|].
  split; [vm_compute; reflexivity|]. split; [vm_compute; reflexivity|].
  split; [|vm_compute; reflexivity].
  apply list_elem_of_In. vm_compute. tauto.
Qed.

(** ** Maps in insertion order *)

Lemma mapHas_keys {V : Type} (k : string) (m : list (string * V)) :
  JS.mapHas k m = true <-> k ∈ JS.mapKeys m.
Proof.
  unfold JS.mapHas, JS.mapKeys. induction m as [|[k' v] m IH]; simpl.
  - split; [done|]. by intros ?%elem_of_nil.
  - case_bool_decide as E.
    + subst. split; [intros _; apply list_elem_of_here | done].
    + rewrite IH. split; [apply list_elem_of_further|].
      intros [?|?]%elem_of_cons; [congruence | done].
Qed.

Lemma mapKeys_mapSet_new {V : Type} (k : string) (v : V) (m : list (string * V)) :
  JS.mapHas k m = false -> JS.mapKeys (JS.mapSet k v m) = (JS.mapKeys m ++ [k])%list.
Proof.
  unfold JS.mapHas, JS.mapKeys. induction m as [|[k' v'] m IH]; simpl; [done|].
  case_bool_decide; [done|]. intros Hm. simpl. by rewrite IH.
Qed.

Lemma mapGet_mapSet {V : Type} (k k' : string) (v : V) (m : list (string * V)) :
  JS.mapGet k' (JS.mapSet k v m) = if bool_decide (k = k') then Some v else JS.mapGet k' m.
Proof.
  induction m as [|[k0 v0] m IH]; simpl; [done|].
  destruct (bool_decide (k0 = k)) eqn:E0; simpl.
  - apply bool_decide_eq_true in E0. repeat case_bool_decide; congruence.
  - rewrite IH. apply bool_decide_eq_false in E0.
    repeat case_bool_decide; congruence.
Qed.

Lemma mapHas_mapSet {V : Type} (k : string) (v : V) (m : list (string * V)) :
  JS.mapHas k (JS.mapSet k v m) = true.
Proof. unfold JS.mapHas. rewrite mapGet_mapSet. by rewrite bool_decide_eq_true_2. Qed.

(** ** The discovery loop *)

Section Discovery.

Context (h : Host) (enableSourceMaps : bool).

Local Abbreviation keys st := (JS.mapKeys (assetUrls st)).

(** What one found URL does: nothing, or one new key at the end of the map
    and of the queue. *)
Lemma addFound_cases foundUrl st toProcess st' toProcess' :
  addFound h foundUrl st toProcess = Some (st', toProcess') ->
  (st' = st /\ toProcess' = toProcess)
  \/ ((foundUrl ∉ keys st)
      /\ keys st' = (keys st ++ [foundUrl])%list
      /\ toProcess' = (toProcess ++ [foundUrl])%list
      /\ processedAssets st' = processedAssets st
      /\ requests st' = requests st).
Proof.
  unfold addFound.
  destruct (JS.mapHas foundUrl (assetUrls st)) eqn:Hhas; simpl.
  { intros [= <- <-]. by left. }
  case_bool_decide; simpl.
  { intros [= <- <-]. by left. }
  destruct (typeOfUrl h foundUrl) as [ty|]; [|done].
  intros [= <- <-]. right. simpl.
  split. { rewrite <- mapHas_keys. by rewrite Hhas. }
  split; [by apply mapKeys_mapSet_new|]. done.
Qed.

Lemma addAllFound_spec found st toProcess st' toProcess' threw :
  addAllFound h found st toProcess = (st', toProcess', threw) ->
  exists new,
    keys st' = (keys st ++ new)%list
    /\ toProcess' = (toProcess ++ new)%list
    /\ (forall x, x ∈ new -> x ∈ found)
    /\ (NoDup (keys st) -> NoDup (keys st'))
    /\ processedAssets st' = processedAssets st
    /\ requests st' = requests st.
Proof.
  revert st toProcess. induction found as [|f found IH]; intros st toProcess; simpl.
  - intros [= <- <- <-]. exists []. rewrite !app_nil_r. repeat split; try done.
  - destruct (addFound h f st toProcess) as [[st1 tp1]|] eqn:E.
    2:{ intros [= <- <- <-]. exists []. rewrite !app_nil_r. repeat split; try done.
        by intros x ?%elem_of_nil. }
    intros Hrest. destruct (IH _ _ Hrest) as (new & Hk & Ht & Hsub & Hnd & Hp & Hr).
    destruct (addFound_cases _ _ _ _ _ E) as [[-> ->]|(Hfresh & Hk1 & -> & Hp1 & Hr1)].
    + exists new. repeat split; try done. intros x Hx. right. by apply Hsub.
    + assert (NoDup (keys st) -> NoDup (keys st')) as Hnd2.
      { intros Hnd0. apply Hnd. rewrite Hk1. apply NoDup_app. repeat split; try done.
        - intros x Hx ->%list_elem_of_singleton. done.
        - apply NoDup_singleton. }
      exists (f :: new).
      split; [by rewrite Hk, Hk1, <- app_assoc|].
      split; [by rewrite Ht, <- app_assoc|].
      split; [intros x [->|Hx]%elem_of_cons; [left | right; by apply Hsub]|].
      split; [exact Hnd2|]. split; congruence.
Qed.

(** One turn of the loop for an unprocessed URL. *)
Lemma scanAsset_spec url st toProcess st' toProcess' :
  scanAsset h enableSourceMaps url st toProcess = (st', toProcess') ->
  exists new,
    keys st' = (keys st ++ new)%list
    /\ toProcess' = (toProcess ++ new)%list
    /\ (forall x, x ∈ new ->
          exists text ty sm, fetch h url = Some (true, text)
            /\ x ∈ (extractAssets h enableSourceMaps text ty url sm).1)
    /\ (NoDup (keys st) -> NoDup (keys st'))
    /\ processedAssets st' = {[url]} ∪ processedAssets st
    /\ requests st' = (requests st ++ [url])%list.
Proof.
  unfold scanAsset, download. simpl.
  destruct (fetch h url) as [[[|] text]|] eqn:Hfetch; simpl.
  2,3: intros [= <- <-]; exists []; rewrite !app_nil_r; repeat split; try done;
       by intros x ?%elem_of_nil.
  destruct (extractAssets _ _ _ _ _ _) as [found sm] eqn:Hex.
  destruct (addAllFound _ _ _ _) as [[st1 tp1] threw] eqn:Hadd.
  apply addAllFound_spec in Hadd as (new & Hk & Ht & Hsub & Hnd & Hp & Hr).
  simpl in *.
  intros Hres. exists new.
  assert (keys st' = keys st1 /\ toProcess' = tp1
          /\ processedAssets st' = processedAssets st1
          /\ requests st' = requests st1) as (-> & -> & -> & ->)
    by (destruct threw; injection Hres as <- <-; done).
  repeat split; try done.
  intros x Hx. eexists text, _, _. split; [done|]. rewrite Hex. by apply Hsub.
Qed.

Lemma keys_bound (U : gset string) (l : list string) :
  NoDup l -> (forall x, x ∈ l -> x ∈ U) -> length l <= size U.
Proof.
  intros Hnd Hsub. rewrite <- (size_list_to_set (C := gset string) l) by done.
  apply subseteq_size. intros x Hx%elem_of_list_to_set. by apply Hsub.
Qed.

Lemma discover_loop (U : gset string) :
  (forall u ty text sm v,
      u ∈ U -> fetch h u = Some (true, text) ->
      v ∈ (extractAssets h enableSourceMaps text ty u sm).1 -> v ∈ U) ->
  forall fuel done toProcess st,
    keys st = (done ++ toProcess)%list ->
    NoDup (keys st) ->
    (forall x, x ∈ processedAssets st <-> x ∈ done) ->
    (forall x, x ∈ keys st -> x ∈ U) ->
    size U <= fuel + length done ->
    exists st' rest,
      discover h enableSourceMaps fuel toProcess st = Some st'
      /\ keys st' = (done ++ rest)%list
      /\ requests st' = (requests st ++ rest)%list
      /\ NoDup (keys st')
      /\ (forall x, x ∈ keys st' -> x ∈ U).
Proof.
  intros Hclosed fuel. induction fuel as [|fuel IH];
    intros done toProcess st Hk Hnd Hproc HU Hfuel.
  - destruct toProcess as [|url rest].
    + exists st, []. simpl. rewrite !app_nil_r in *. repeat split; auto.
    + exfalso. pose proof (keys_bound U _ Hnd HU) as Hb.
      rewrite Hk, length_app in Hb. simpl in *. lia.
  - destruct toProcess as [|url rest].
    + exists st, []. simpl. rewrite !app_nil_r in *. repeat split; auto.
    + simpl. assert (url ∉ done) as Hnew.
      { rewrite Hk in Hnd. apply NoDup_app in Hnd as (_ & Hdis & _).
        intros Hin. apply (Hdis _ Hin). left. }
      rewrite bool_decide_eq_false_2 by (by rewrite Hproc).
      destruct (scanAsset h enableSourceMaps url st rest) as [st1 tp1] eqn:Hscan.
      apply scanAsset_spec in Hscan as (new & Hk1 & -> & Hsub & Hnd1 & Hp1 & Hr1).
      destruct (IH (done ++ [url])%list (rest ++ new)%list st1)
        as (st' & more & Hd & Hk' & Hr' & Hnd' & HU').
      * rewrite Hk1, Hk, <- !app_assoc. done.
      * by apply Hnd1.
      * intros x. rewrite Hp1, elem_of_union, elem_of_singleton, Hproc, elem_of_app,
          list_elem_of_singleton. tauto.
      * intros x. rewrite Hk1. intros [Hx|Hx]%elem_of_app; [by apply HU|].
        destruct (Hsub _ Hx) as (text & ty & sm & Hf & Hin).
        eapply Hclosed; [|exact Hf|exact Hin]. apply HU. rewrite Hk.
        apply elem_of_app. right. left.
      * rewrite length_app. simpl. lia.
      * exists st', (url :: more). rewrite Hd. split; [done|].
        split; [by rewrite Hk', <- app_assoc|].
        split; [by rewrite Hr', Hr1, <- app_assoc|done].
Qed.

End Discovery.


(** The found set depends on the type only through the tests of
    [extractAssets], and not on [sourceMapUrls]. *)
Lemma scanSourceMap_found (h : Host) (code : list ascii) (baseUrl : string)
    (patterns : list Regex.re) (found : list string) (sm sm' : gmap string string) :
  (fold_left (scanSourceMap h code baseUrl) patterns (found, sm)).1
  = (fold_left (scanSourceMap h code baseUrl) patterns (found, sm')).1.
Proof.
  revert found sm sm'. induction patterns as [|p ps IH]; intros found sm sm'; [done|].
  simpl. destruct (Regex.exec p code) as [m|]; [|apply IH].
  destruct (JS.truthy (group 1 m)); [|apply IH].
  destruct (JS.startsWith (group 1 m) "http"); [apply IH|].
  destruct (new_URL h (group 1 m) (Some baseUrl)); apply IH.
Qed.

Lemma extractAssets_found_cases (h : Host) (esm : bool) (text ty u : string)
    (sm : gmap string string) :
  exists ty',
    ty' ∈ ["js"; "css"; "json"; "other"]
    /\ (extractAssets h esm text ty u sm).1 = (extractAssets h esm text ty' u ∅).1.
Proof.
  unfold extractAssets. cbv zeta.
  destruct (decide (ty = "js")) as [->|Hjs].
  { exists "js". split; [set_solver|].
    change (bool_decide ("js" = "js")) with true.
    change (bool_decide ("js" = "css")) with false.
    change (bool_decide ("js" = "json")) with false.
    cbn [orb fst snd]. destruct esm; [apply scanSourceMap_found | done]. }
  destruct (decide (ty = "mjs")) as [->|Hmjs].
  { exists "js". split; [set_solver|].
    change (bool_decide ("js" = "js")) with true.
    change (bool_decide ("mjs" = "js")) with false.
    change (bool_decide ("mjs" = "mjs")) with true.
    change (bool_decide ("js" = "css")) with false.
    change (bool_decide ("js" = "json")) with false.
    change (bool_decide ("mjs" = "css")) with false.
    change (bool_decide ("mjs" = "json")) with false.
    cbn [orb fst snd]. destruct esm; [apply scanSourceMap_found | done]. }
  rewrite (bool_decide_eq_false_2 (ty = "js")) by done.
  rewrite (bool_decide_eq_false_2 (ty = "mjs")) by done.
  destruct (decide (ty = "css")) as [->|Hcss].
  { exists "css". split; [set_solver|].
    change (bool_decide ("css" = "js")) with false.
    change (bool_decide ("css" = "mjs")) with false.
    change (bool_decide ("css" = "css")) with true.
    change (bool_decide ("css" = "json")) with false.
    cbn [orb fst snd]. done. }
  rewrite (bool_decide_eq_false_2 (ty = "css")) by done.
  destruct (decide (ty = "json")) as [->|Hjson].
  { exists "json". split; [set_solver|].
    change (bool_decide ("json" = "js")) with false.
    change (bool_decide ("json" = "mjs")) with false.
    change (bool_decide ("json" = "css")) with false.
    change (bool_decide ("json" = "json")) with true.
    cbn [orb fst snd]. done. }
  rewrite (bool_decide_eq_false_2 (ty = "json")) by done.
  exists "other". split; [set_solver|].
  change (bool_decide ("other" = "js")) with false.
  change (bool_decide ("other" = "mjs")) with false.
  change (bool_decide ("other" = "css")) with false.
  change (bool_decide ("other" = "json")) with false.
  cbn [orb fst snd]. done.
Qed.


(** ** Source maps *)

(** C9 on a site whose script ends in
    [//@ sourceMappingURL=maps/app.js.map], with source maps enabled: the
    map is fetched and saved as [app.js.map], the update of the reference
    throws, which the console shows, and the saved script keeps its
    directive as it was downloaded. *)
Theorem source_map_directive_not_rewritten :
  exists s,
    broddy Scenario.mapped Scenario.base "mirror" true ["/"] ∅ 10 = Some (Ok s)
    /\ files (final s) !! "/home/u/mirror/app.js.map" = Some "{}"
    /\ Warn "Failed to process source map" ∈ console (final s)
    /\ files (final s) !! "/home/u/mirror/app.js"
       = Some "import('https://x.test/chunk.js');//@ sourceMappingURL=maps/app.js.map".
Proof.
  destruct (broddy Scenario.mapped Scenario.base "mirror" true ["/"] ∅ 10)
    as [[s|e]|] eqn:E; [|vm_compute in E; discriminate..].
  exists s. split; [reflexivity|].
  assert (Some (Ok s) = broddy Scenario.mapped Scenario.base "mirror" true ["/"] ∅ 10)
    as E' by done.
  clear E. vm_compute in E'. injection E' as ->.
  split; [vm_compute; reflexivity|]. split; [|vm_compute; reflexivity].
  apply list_elem_of_In. vm_compute. tauto.
Qed.

Section SourceMaps.

Context (h : Host) (baseUrl outDir : string).

Lemma rewriteUrls_alloc content url type a p a' :
  assetPath h baseUrl url a = Some (p, a') ->
  forall r a'', rewriteUrls h baseUrl content url type a' = Some (r, a'') -> a'' = a'.
Proof.
  intros Hp r a''. unfold rewriteUrls.
  destruct (new_URL h baseUrl None); [|done].
  destruct (new_URL h url (Some baseUrl)); [|done].
  apply assetPath_lookup in Hp. unfold assetPath. rewrite Hp.
  case_bool_decide; simpl; by intros [= _ <-].
Qed.

End SourceMaps.

(** ** The phases of a run *)

Section Phases.

Context (h : Host) (baseUrl outDir : string) (enableSourceMaps : bool).

Local Abbreviation keys st := (JS.mapKeys (assetUrls st)).

(** *** Phase 1 *)

Lemma mkdirp_frame segs st st' :
  mkdirp segs st = Some st' ->
  alloc st' = alloc st /\ assetUrls st' = assetUrls st
  /\ processedAssets st' = processedAssets st /\ requests st' = requests st
  /\ console st' = console st /\ files st' = files st.
Proof. unfold mkdirp. case_match; [done|]. by intros [= <-]. Qed.

(** [save] touches the disk only, and writes one file or none. *)
Lemma save_frame p data st ok st' :
  save h outDir p data st = (ok, st') ->
  alloc st' = alloc st /\ assetUrls st' = assetUrls st
  /\ processedAssets st' = processedAssets st /\ requests st' = requests st
  /\ console st' = console st
  /\ files st' = (if ok then <[Path.render (location h outDir p) := data]> (files st)
                  else files st).
Proof.
  unfold save. destruct (mkdirp _ st) as [st1|] eqn:E; [|by intros [= <- <-]].
  apply mkdirp_frame in E as (Ha & Hu & Hp & Hr & Hc & Hf).
  case_match; intros [= <- <-]; cbn [alloc assetUrls processedAssets requests console files
                                     withFiles]; rewrite ?Hf; done.
Qed.

Lemma downloadPage_spec page st st' :
  alloc st = emptyAlloc ->
  downloadPage h baseUrl outDir page st = Ok st' ->
  alloc st' = emptyAlloc
  /\ assetUrls st' = assetUrls st
  /\ processedAssets st' = processedAssets st.
Proof.
  intros Ha. unfold downloadPage.
  destruct (new_URL h page (Some baseUrl)) as [u|] eqn:Hu; [|done].
  destruct (fetch h (href u)) as [[ok text]|] eqn:Hf; [|done].
  destruct (new_URL h baseUrl None) as [b|]; [|done].
  destruct (save h outDir _ _ _) as [[|] st1] eqn:Hs; [|done].
  apply save_frame in Hs as (Ha1 & Hu1 & Hp1 & _).
  intros [= <-]. cbn [alloc assetUrls processedAssets print request] in *.
  repeat split; congruence.
Qed.

Lemma downloadPages_spec pages st st' :
  alloc st = emptyAlloc ->
  downloadPages h baseUrl outDir pages st = Ok st' ->
  alloc st' = emptyAlloc
  /\ assetUrls st' = assetUrls st
  /\ processedAssets st' = processedAssets st.
Proof.
  revert st. induction pages as [|page pages IH]; intros st Ha; simpl.
  - by intros [= <-].
  - destruct (downloadPage h baseUrl outDir page st) as [st1|] eqn:E; [|done].
    destruct (downloadPage_spec _ _ _ Ha E) as (Ha1 & Hu1 & Hp1).
    intros Hrest. destruct (IH _ Ha1 Hrest) as (Ha2 & Hu2 & Hp2).
    repeat split; congruence.
Qed.

Lemma start_spec files0 st :
  start h outDir files0 = Ok st ->
  alloc st = emptyAlloc /\ assetUrls st = [] /\ processedAssets st = ∅
  /\ requests st = [] /\ files st = files0.
Proof.
  unfold start. case_match; [done|].
  destruct (mkdirp _ _) as [st0|] eqn:E; [|done]. intros [= <-].
  apply mkdirp_frame in E as (-> & -> & -> & -> & _ & ->). done.
Qed.

(** *** Phase 2 *)

Lemma mapKeys_mapSet_old {V : Type} (k : string) (v : V) (m : list (string * V)) :
  JS.mapHas k m = true -> JS.mapKeys (JS.mapSet k v m) = JS.mapKeys m.
Proof.
  unfold JS.mapHas, JS.mapKeys. induction m as [|[k' v'] m IH]; simpl; [done|].
  destruct (bool_decide (k' = k)) eqn:E; simpl.
  - apply bool_decide_eq_true in E. by subst.
  - intros Hm. by rewrite IH.
Qed.

Lemma NoDup_mapSet {V : Type} (k : string) (v : V) (m : list (string * V)) :
  NoDup (JS.mapKeys m) -> NoDup (JS.mapKeys (JS.mapSet k v m)).
Proof.
  intros Hnd. destruct (JS.mapHas k m) eqn:E.
  - by rewrite mapKeys_mapSet_old.
  - rewrite mapKeys_mapSet_new by done. apply NoDup_app. repeat split; [done| |].
    + intros x Hx ->%list_elem_of_singleton. apply mapHas_keys in Hx. congruence.
    + apply NoDup_singleton.
Qed.

Lemma fold_left_preserves {A B : Type} (P : A -> Prop) (f : A -> B -> A) l a :
  P a -> (forall a b, P a -> P (f a b)) -> P (fold_left f l a).
Proof. revert a. induction l; simpl; eauto. Qed.

Lemma onlyUrlsChange_refl st : onlyUrlsChange st st.
Proof. by repeat split. Qed.

Lemma onlyUrlsChange_trans st1 st2 st3 :
  onlyUrlsChange st1 st2 -> onlyUrlsChange st2 st3 -> onlyUrlsChange st1 st3.
Proof.
  intros (? & ? & ? & ? & ? & ?) (? & ? & ? & ? & ? & ?).
  repeat split; try congruence. eauto.
Qed.

Lemma onlyUrlsChange_with m st :
  (NoDup (keys st) -> NoDup (JS.mapKeys m)) -> onlyUrlsChange st (withAssetUrls m st).
Proof. intros H. by repeat split. Qed.

Lemma scanAttr_NoDup el m attr :
  NoDup (JS.mapKeys m) -> NoDup (JS.mapKeys (scanAttr h baseUrl el m attr)).
Proof.
  intros Hnd. unfold scanAttr. destruct (getAttr attr (attribs el)) as [val|]; [|done].
  destruct (_ && _); [|done].
  destruct (if JS.startsWith val "http" then _ else _) as [url|]; [|done].
  destruct (typeOfUrl h url); [|done]. by apply NoDup_mapSet.
Qed.

Lemma scanAttrUrl_NoDup m url :
  NoDup (JS.mapKeys m) -> NoDup (JS.mapKeys (scanAttrUrl h m url)).
Proof.
  intros Hnd. unfold scanAttrUrl. destruct (typeOfUrl h _); [|done].
  by apply NoDup_mapSet.
Qed.

Lemma scanInline_only t type needNoSrc st el :
  onlyUrlsChange st (scanInline h baseUrl enableSourceMaps t type needNoSrc st el).
Proof.
  unfold scanInline. destruct (_ && _); [|apply onlyUrlsChange_refl].
  destruct (extractAssets _ _ _ _ _ _) as [found sm].
  repeat split; try done. simpl. intros Hnd.
  apply (fold_left_preserves (fun m => NoDup (JS.mapKeys m))); [done|].
  intros m url. apply NoDup_mapSet.
Qed.

Lemma scanInlines_only t type needNoSrc doc st :
  onlyUrlsChange st
    (fold_left (scanInline h baseUrl enableSourceMaps t type needNoSrc) doc st).
Proof.
  revert st. induction doc as [|el doc IH]; intros st; simpl;
    [apply onlyUrlsChange_refl|].
  eapply onlyUrlsChange_trans; [apply scanInline_only|apply IH].
Qed.

Lemma scanDocument_only doc st :
  onlyUrlsChange st (scanDocument h baseUrl enableSourceMaps doc st).
Proof.
  unfold scanDocument.
  eapply onlyUrlsChange_trans; [|apply onlyUrlsChange_with].
  - eapply onlyUrlsChange_trans; [|apply scanInlines_only].
    eapply onlyUrlsChange_trans; [|apply scanInlines_only].
    apply onlyUrlsChange_with. intros Hnd.
    apply (fold_left_preserves (fun m => NoDup (JS.mapKeys m))); [done|].
    intros m el Hm.
    apply (fold_left_preserves (fun m => NoDup (JS.mapKeys m))); [done|].
    intros m' attr. apply scanAttr_NoDup.
  - intros Hnd. apply (fold_left_preserves (fun m => NoDup (JS.mapKeys m))); [done|].
    intros m el Hm.
    apply (fold_left_preserves (fun m => NoDup (JS.mapKeys m))); [done|].
    intros m' val Hm'.
    apply (fold_left_preserves (fun m => NoDup (JS.mapKeys m))); [done|].
    intros m'' url. apply scanAttrUrl_NoDup.
Qed.

Lemma scanPages_only st st' :
  scanPages h baseUrl outDir enableSourceMaps st = Ok st' -> onlyUrlsChange st st'.
Proof.
  unfold scanPages. destruct (htmlFolders h outDir st); [|done]. intros [= <-].
  apply (fold_left_preserves (fun s => onlyUrlsChange st s)); [apply onlyUrlsChange_refl|].
  intros s kv Hs. eapply onlyUrlsChange_trans; [exact Hs|apply scanDocument_only].
Qed.

(** *** Phase 3 *)

Lemma addFound_effects foundUrl st toProcess st' toProcess' :
  addFound h foundUrl st toProcess = Some (st', toProcess') ->
  files st' = files st /\ alloc st' = alloc st
  /\ (forall l, l ∈ console st -> l ∈ console st').
Proof.
  unfold addFound. destruct (_ && _).
  - destruct (typeOfUrl h foundUrl); [|done]. intros [= <- <-]. simpl.
    repeat split; try done. intros l Hl. apply elem_of_app. by left.
  - by intros [= <- <-].
Qed.

Lemma addAllFound_effects found st toProcess st' toProcess' threw :
  addAllFound h found st toProcess = (st', toProcess', threw) ->
  files st' = files st /\ alloc st' = alloc st
  /\ (forall l, l ∈ console st -> l ∈ console st').
Proof.
  revert st toProcess. induction found as [|f found IH]; intros st toProcess; simpl.
  - by intros [= <- <- <-].
  - destruct (addFound h f st toProcess) as [[st1 tp1]|] eqn:E; [|by intros [= <- <- <-]].
    intros Hrest. apply addFound_effects in E as (Hf & Ha & Hc).
    apply IH in Hrest as (Hf' & Ha' & Hc'). repeat split; try congruence. eauto.
Qed.

Lemma scanAsset_effects url st toProcess st' toProcess' :
  scanAsset h enableSourceMaps url st toProcess = (st', toProcess') ->
  files st' = files st /\ alloc st' = alloc st
  /\ (forall l, l ∈ console st -> l ∈ console st').
Proof.
  unfold scanAsset, download. simpl.
  destruct (fetch h url) as [[[|] text]|] eqn:Hfetch; simpl.
  2,3: intros [= <- <-]; simpl; repeat split; try done;
       intros l Hl; apply elem_of_app; by left.
  destruct (extractAssets _ _ _ _ _ _) as [found sm] eqn:Hex.
  destruct (addAllFound _ _ _ _) as [[st1 tp1] threw] eqn:Hadd.
  apply addAllFound_effects in Hadd as (Hf & Ha & Hc). simpl in *.
  intros Hres.
  assert (files st' = files st1 /\ alloc st' = alloc st1
          /\ (forall l, l ∈ console st1 -> l ∈ console st')) as (-> & -> & Hc').
  { destruct threw; injection Hres as <- <-; simpl; repeat split; try done.
    intros l Hl. apply elem_of_app. by left. }
  repeat split; try done. eauto.
Qed.

(** *** Phase 4 *)

Lemma precompute_steps urls a a' :
  precompute h baseUrl urls a = Ok a' -> allocSteps h baseUrl a a'.
Proof.
  revert a. induction urls as [|url urls IH]; intros a; simpl.
  - intros [= <-]. constructor.
  - destruct (new_URL h url (Some baseUrl)) as [u|]; [|done].
    destruct (isPagePath u); [apply IH|].
    destruct (assetPath h baseUrl url a) as [[p a1]|] eqn:E; [|done].
    intros Hrest. eapply allocSteps_call; [exact E|by apply IH].
Qed.

(** *** Phase 5 *)

Lemma assetPath_hit url a p :
  filePathMap a !! url = Some p -> assetPath h baseUrl url a = Some (p, a).
Proof. intros H. unfold assetPath. by rewrite H. Qed.

Lemma processSourceMap_spec url sourceMapUrl processedContent st p r st' :
  filePathMap (alloc st) !! url = Some p ->
  processSourceMap h baseUrl outDir url sourceMapUrl processedContent st = (r, st') ->
  alloc st' = alloc st /\ assetUrls st' = assetUrls st.
Proof.
  intros Hp. unfold processSourceMap, download. rewrite (assetPath_hit _ _ _ Hp).
  intros E.
  repeat case_match; simplify_eq;
    repeat match goal with
           | H : save _ _ _ _ _ = _ |- _ =>
               apply save_frame in H as (? & ? & _);
               cbn [alloc assetUrls withAlloc request print] in *
           end;
    cbn [alloc assetUrls withAlloc request print]; by destruct (alloc st).
Qed.

Lemma elem_of_mapSet {V : Type} (k : string) (v : V) (m : list (string * V)) u c :
  (u, c) ∈ JS.mapSet k v m -> (u = k /\ c = v) \/ (u, c) ∈ m.
Proof.
  induction m as [|[k' v'] m IH]; simpl.
  - intros [= -> ->]%list_elem_of_singleton. by left.
  - destruct (bool_decide (k' = k)) eqn:E.
    + intros [[= -> ->]|Hin]%elem_of_cons; [by left|]. right. by right.
    + intros [[= -> ->]|Hin]%elem_of_cons; [right; left|].
      destruct (IH Hin) as [?|?]; [by left|]. right. by right.
Qed.

Lemma mapKeys_mapSet_key {V : Type} (k : string) (v : V) (m : list (string * V)) :
  k ∈ JS.mapKeys (JS.mapSet k v m).
Proof. apply mapHas_keys. apply mapHas_mapSet. Qed.

Lemma downloadAsset_urls d st url ty d' st' :
  downloadAsset h baseUrl outDir enableSourceMaps (d, st) (url, ty) = (d', st') ->
  assetUrls st' = assetUrls st.
Proof.
  unfold downloadAsset, download. cbv beta iota zeta. intros E.
  repeat case_match; simplify_eq; cbn [assetUrls withAlloc request print]; try done.
  all: match goal with
       | Hp : assetPath _ _ _ _ = Some (?p, _),
         H : processSourceMap _ _ _ _ _ _ _ = _ |- _ =>
           apply (processSourceMap_spec _ _ _ _ p) in H as [_ H];
           [by rewrite H|cbn [alloc withAlloc request print]]
       end.
  all: repeat match goal with
       | Hp : assetPath _ _ _ _ = Some _, H : rewriteUrls _ _ _ _ _ _ = Some _ |- _ =>
           cbn [alloc withAlloc request print] in H;
           apply (rewriteUrls_alloc h baseUrl _ _ _ _ _ _ Hp) in H; subst
       end.
  all: by eapply assetPath_lookup.
Qed.

Lemma downloadAssets_urls entries :
  forall acc,
    assetUrls (fold_left (downloadAsset h baseUrl outDir enableSourceMaps) entries acc).2
    = assetUrls acc.2.
Proof.
  induction entries as [|[url ty] entries IH]; intros [d st]; [done|].
  cbn [fold_left].
  destruct (downloadAsset h baseUrl outDir enableSourceMaps (d, st) (url, ty))
    as [d' st'] eqn:E.
  rewrite IH. cbn [snd]. by eapply downloadAsset_urls.
Qed.

(** *** Phase 6 *)

Lemma saveAssets_frame downloaded :
  forall st st',
    (forall u c, (u, c) ∈ downloaded -> is_Some (filePathMap (alloc st) !! u)) ->
    saveAssets h baseUrl outDir downloaded st = Ok st' ->
    alloc st' = alloc st /\ assetUrls st' = assetUrls st.
Proof.
  induction downloaded as [|[url content] rest IH]; intros st st' Hall; simpl.
  - by intros [= <-].
  - destruct (Hall url content) as [p Hp]; [left|].
    rewrite (assetPath_hit _ _ _ Hp).
    destruct (save h outDir p content _) as [[|] st1] eqn:Hs; [|done].
    apply save_frame in Hs as (Ha1 & Hu1 & _). cbn [alloc assetUrls withAlloc] in *.
    assert (alloc st1 = alloc st) as Ha by (rewrite Ha1; by destruct (alloc st)).
    intros [Ha2 Hu2]%IH; [split; congruence|].
    intros u c Hin. rewrite Ha. apply (Hall u c). by right.
Qed.

End Phases.

(** The phases of a run that ends without an exception. *)
Lemma broddy_phases (h : Host) (baseUrl outDir : string) (enableSourceMaps : bool)
    (pages : list string) (files0 : gmap string string) (fuel : nat) (s : Summary) :
  broddy h baseUrl outDir enableSourceMaps pages files0 fuel = Some (Ok s) ->
  exists st0 st1 st2 st3 a,
    start h outDir files0 = Ok st0
    /\ downloadPages h baseUrl outDir pages st0 = Ok st1
    /\ scanPages h baseUrl outDir enableSourceMaps st1 = Ok st2
    /\ discover h enableSourceMaps fuel
         (JS.mapKeys (assetUrls st2)) (print (Log "Scanning for dependencies...") st2)
       = Some st3
    /\ discovery h baseUrl outDir enableSourceMaps fuel st1 = Some (Ok st3)
    /\ precompute h baseUrl (JS.mapKeys (assetUrls st3)) (alloc st3) = Ok a
    /\ saveAssets h baseUrl outDir (downloadedAssets s)
         (downloadAssets h baseUrl outDir enableSourceMaps
            (print (Log ("Downloading " +:+ pretty (length (assetUrls st3)) +:+ " assets..."))
               (withAlloc a st3))).2
       = Ok (final s)
    /\ downloadedAssets s
       = (downloadAssets h baseUrl outDir enableSourceMaps
            (print (Log ("Downloading " +:+ pretty (length (assetUrls st3)) +:+ " assets..."))
               (withAlloc a st3))).1.
Proof.
  unfold broddy, mirror.
  destruct (start h outDir files0) as [st0|] eqn:E0; [|done].
  destruct (downloadPages _ _ _ _ _) as [st1|] eqn:E1; [|done].
  destruct (discovery _ _ _ _ _ _) as [[st3|]|] eqn:E3; [|done..].
  destruct (precompute _ _ _ _) as [a|] eqn:E4; [|done].
  cbn [assetUrls withAlloc print].
  destruct (downloadAssets _ _ _ _ _) as [d st5] eqn:E5.
  destruct (saveAssets _ _ _ _ _) as [st6|] eqn:E6; [|done].
  intros [= <-]. cbn [final downloadedAssets fst snd].
  pose proof E3 as E3'. unfold discovery in E3.
  destruct (scanPages h baseUrl outDir enableSourceMaps st1) as [st2|] eqn:E2; [|done].
  cbn [assetUrls print] in E3.
  destruct (discover _ _ _ _ _) as [st3'|] eqn:Ed; [|done]. injection E3 as ->.
  exists st0, st1, st2, st3, a. rewrite E5. by repeat split.
Qed.

(** ** Regular expressions *)

Import Regex.

Lemma run_sound (r : re) :
  forall s c k x,
    run r s c k = Some x ->
    exists s' c', matches r s c s' c' /\ k s' c' = Some x.
Proof.
  induction r as [|a|f|r1 IH1 r2 IH2|r1 IH1 r2 IH2|g r IH|n r IH|n];
    intros s c k x; simpl.
  - eauto using matches.
  - destruct s as [|y s]; [done|]. case_bool_decide; [subst|done]. eauto using matches.
  - destruct s as [|y s]; [done|]. destruct (f y) eqn:E; [|done]. eauto using matches.
  - intros H. apply IH1 in H as (s1 & c1 & M1 & H).
    apply IH2 in H as (s2 & c2 & M2 & H). eauto using matches.
  - destruct (run r1 s c k) eqn:E.
    + intros [= <-]. apply IH1 in E as (s1 & c1 & M1 & H). eauto using matches.
    + intros H. apply IH2 in H as (s1 & c1 & M1 & H). eauto using matches.
  - generalize (length s) at 1. intros fuel. revert s c x.
    induction fuel as [|fuel IHf]; intros s c x.
    + destruct g; simpl.
      * eauto using matches.
      * destruct (k s c) eqn:E; [|done]. intros [= <-]. eauto using matches.
    + assert (forall y,
        run r s c (fun s' c' =>
          if (length s' <? length s)%nat
          then (fix loop (fuel : nat) (s : list ascii) (c : captures) {struct fuel} : outcome :=
                  let more (_ : unit) :=
                    match fuel with
                    | O => None
                    | S fuel' =>
                        run r s c (fun s' c' =>
                          if (length s' <? length s)%nat then loop fuel' s' c' else None)
                    end in
                  if g then
                    match more () with Some x => Some x | None => k s c end
                  else
                    match k s c with Some x => Some x | None => more () end) fuel s' c'
          else None) = Some y ->
        exists s' c', matches (Star g r) s c s' c' /\ k s' c' = Some y) as Hmore.
      { intros y H. apply IH in H as (s1 & c1 & M1 & H).
        destruct (length s1 <? length s)%nat; [|done].
        apply IHf in H as (s2 & c2 & M2 & H). eauto using matches. }
      destruct g; simpl.
      * match goal with |- match ?e with _ => _ end = _ -> _ => destruct e eqn:E end.
        -- intros [= <-]. by apply Hmore.
        -- eauto using matches.
      * destruct (k s c) eqn:E.
        -- intros [= <-]. eauto using matches.
        -- apply Hmore.
  - intros H. apply IH in H as (s1 & c1 & M1 & H). eauto using matches.
  - destruct (stripPrefix (getcap n c) s) eqn:E; [|done]. eauto using matches.
Qed.

Lemma matches_star_cls g f s c s' c' :
  matches (Star g (Cls f)) s c s' c' ->
  exists l, s = (l ++ s')%list /\ Forall (fun x => f x = true) l /\ c' = c.
Proof.
  remember (Star g (Cls f)) as r eqn:Er. intros M.
  induction M as [| | | | | |g' r' s c|g' r' s c s1 c1 s2 c2 M1 _ M2 IH2| |];
    try discriminate Er.
  - exists []. done.
  - injection Er as -> ->. destruct (IH2 eq_refl) as (l & -> & Hl & ->).
    inversion M1; subst. exists (x :: l). split; [done|]. split; [|done].
    by constructor.
Qed.

Lemma matches_lit l s c s' c' :
  matches (lit l) s c s' c' -> s = (l ++ s')%list /\ c' = c.
Proof.
  revert s c. induction l as [|a l IH]; intros s c M; simpl in M.
  - inversion M; subst. done.
  - destruct l as [|b l].
    + inversion M; subst. done.
    + inversion M as [| | |? ? ? ? s1 c1 ? ? M1 M2| | | | | |]; subst.
      inversion M1; subst. apply IH in M2 as [-> ->]. done.
Qed.

(** What a match of [scheme] reads. *)
Lemma matches_scheme s c s' c' :
  matches Patterns.scheme s c s' c' ->
  exists a sch, s = (a :: sch ++ JS.chars "://" ++ s')%list /\ isAlpha a = true.
Proof.
  unfold Patterns.scheme. simpl. intros M.
  inversion M as [| | |? ? ? ? s1 c1 ? ? M1 M2| | | | | |]; subst. clear M.
  inversion M1; subst. clear M1.
  inversion M2 as [| | |? ? ? ? s2 c2 ? ? M3 M4| | | | | |]; subst. clear M2.
  apply matches_star_cls in M3 as (sch & -> & Hsch & ->).
  apply (matches_lit (JS.chars "://")) in M4 as [-> ->].
  by exists x, sch.
Qed.

Lemma hasDoubleSlash_app x y :
  Path.hasDoubleSlash (x ++ Path.slash :: Path.slash :: y) = true.
Proof.
  induction x as [|a x IH]; [done|].
  change ((a :: x) ++ Path.slash :: Path.slash :: y)%list
    with (a :: (x ++ Path.slash :: Path.slash :: y))%list.
  destruct (x ++ Path.slash :: Path.slash :: y)%list as [|b l] eqn:E.
  - by destruct x.
  - change (Path.hasDoubleSlash (a :: b :: l))
      with ((Path.is_slash a && Path.is_slash b) || Path.hasDoubleSlash (b :: l)).
    rewrite IH. apply orb_true_r.
Qed.

Lemma splitOn_nonempty sep l : JS.splitOn sep l <> [].
Proof.
  destruct l as [|c l]; simpl; [done|].
  case_bool_decide; [done|]. by destruct (JS.splitOn sep l).
Qed.

Lemma joinWith_cons sep c s ss :
  JS.joinWith sep ((c :: s) :: ss) = c :: JS.joinWith sep (s :: ss).
Proof. by destruct ss. Qed.

Lemma joinWith_splitOn sep l : JS.joinWith sep (JS.splitOn sep l) = l.
Proof.
  induction l as [|c l IH]; simpl; [done|].
  case_bool_decide as E.
  - subst. pose proof (splitOn_nonempty sep l).
    destruct (JS.splitOn sep l) as [|s ss] eqn:Es; [done|]. simpl in *. by rewrite IH.
  - pose proof (splitOn_nonempty sep l).
    destruct (JS.splitOn sep l) as [|s ss] eqn:Es; [done|].
    rewrite joinWith_cons. by rewrite IH.
Qed.

Lemma splitOn_no_sep sep l : Forall (fun s => sep ∉ s) (JS.splitOn sep l).
Proof.
  induction l as [|c l IH]; simpl.
  - constructor; [|done]. by intros ?%elem_of_nil.
  - case_bool_decide as E.
    + constructor; [|done]. by intros ?%elem_of_nil.
    + destruct (JS.splitOn sep l) as [|s ss].
      * constructor; [|done]. intros [->|?%elem_of_nil]%elem_of_cons; done.
      * inversion IH; subst. constructor; [|done].
        intros [->|?]%elem_of_cons; done.
Qed.

Lemma normalizeAbs_clean segs stack :
  Forall cleanSegment stack ->
  Forall (fun s => Path.slash ∉ s) segs ->
  Forall cleanSegment (Path.normalizeAbs segs stack).
Proof.
  revert stack. induction segs as [|s segs IH]; intros stack Hst Hsegs; simpl.
  - by apply Forall_rev.
  - inversion Hsegs; subst.
    destruct (decide (s = [])) as [->|Hne]; [by apply IH|].
    rewrite (bool_decide_eq_false_2 (s = [])) by done. cbn [orb].
    destruct (decide (s = [Path.dot])) as [->|Hnd].
    { rewrite (bool_decide_eq_true_2 ([Path.dot] = [Path.dot])) by done. by apply IH. }
    rewrite (bool_decide_eq_false_2 (s = [Path.dot])) by done.
    case_bool_decide.
    + apply IH; [|done]. destruct stack; [done|]. by inversion Hst.
    + apply IH; [|done]. constructor; [|done]. by split.
Qed.

Lemma resolve_clean cwd p : Forall cleanSegment (Path.resolve cwd p).
Proof.
  unfold Path.resolve. destruct (Path.isAbsolute p); apply normalizeAbs_clean;
    try done; try apply Forall_app; try split; apply splitOn_no_sep.
Qed.

Lemma stripCommon_keeps (P : Path.segment -> Prop) a b f t :
  Path.stripCommon a b = (f, t) -> Forall P b -> Forall P t.
Proof.
  revert b. induction a as [|x a IH]; intros b; simpl.
  - by intros [= <- <-].
  - destruct b as [|y b]; [by intros [= <- <-]|].
    case_bool_decide.
    + intros E Hb. inversion Hb; subst. by eapply IH.
    + by intros [= <- <-].
Qed.

Lemma hasDoubleSlash_cons c l :
  Path.hasDoubleSlash (c :: l)
  = match l with
    | c' :: _ => (Path.is_slash c && Path.is_slash c') || Path.hasDoubleSlash l
    | [] => false
    end.
Proof. by destruct l. Qed.

Lemma is_slash_false c : c <> Path.slash -> Path.is_slash c = false.
Proof. intros H. unfold Path.is_slash. by rewrite bool_decide_eq_false_2. Qed.

(** A clean segment in front of a separator and a path that does not start
    with a separator. *)
Lemma hasDoubleSlash_segment s R :
  cleanSegment s ->
  Path.hasDoubleSlash R = false -> head R <> Some Path.slash ->
  Path.hasDoubleSlash (s ++ Path.slash :: R) = false
  /\ head (s ++ Path.slash :: R) <> Some Path.slash.
Proof.
  intros [Hne Hns] HR Hhead. induction s as [|c s IHs]; [done|].
  assert (c <> Path.slash) as Hc by (intros ->; apply Hns; left).
  split; [|simpl; congruence].
  change ((c :: s) ++ Path.slash :: R)%list with (c :: (s ++ Path.slash :: R))%list.
  rewrite hasDoubleSlash_cons.
  destruct s as [|c' s].
  - cbn [app]. rewrite (is_slash_false c Hc). cbn [andb orb].
    rewrite hasDoubleSlash_cons. destruct R as [|r R]; [done|].
    rewrite (is_slash_false r) by (simpl in Hhead; congruence).
    rewrite andb_false_r. exact HR.
  - change ((c' :: s) ++ Path.slash :: R)%list with (c' :: (s ++ Path.slash :: R))%list.
    rewrite (is_slash_false c Hc). cbn [andb orb].
    apply IHs; [done|]. intros Hin. apply Hns. by right.
Qed.

Lemma hasDoubleSlash_clean s :
  cleanSegment s -> Path.hasDoubleSlash s = false /\ head s <> Some Path.slash.
Proof.
  intros [Hne Hns]. induction s as [|c s IHs]; [done|].
  assert (c <> Path.slash) as Hc by (intros ->; apply Hns; left).
  split; [|simpl; congruence]. rewrite hasDoubleSlash_cons.
  destruct s as [|c' s]; [done|]. rewrite (is_slash_false c Hc). cbn [andb orb].
  apply IHs; [done|]. intros Hin. apply Hns. by right.
Qed.

Lemma joinWith_clean segs :
  Forall cleanSegment segs ->
  Path.hasDoubleSlash (JS.joinWith Path.slash segs) = false
  /\ head (JS.joinWith Path.slash segs) <> Some Path.slash.
Proof.
  induction segs as [|s segs IH]; intros H; [done|].
  apply Forall_cons in H as [Hs Hrest]. specialize (IH Hrest).
  destruct segs as [|s' segs].
  - by apply hasDoubleSlash_clean.
  - change (JS.joinWith Path.slash (s :: s' :: segs))
      with (s ++ Path.slash :: JS.joinWith Path.slash (s' :: segs))%list.
    destruct IH as [IH1 IH2]. by apply hasDoubleSlash_segment.
Qed.

Lemma getRelativePath_no_double_slash (h : Host) (fromFilePath toFilePath : string) :
  Path.hasDoubleSlash (JS.chars (getRelativePath h fromFilePath toFilePath)) = false.
Proof.
  unfold getRelativePath. rewrite joinWith_splitOn.
  rewrite string_of_list_ascii_of_string.
  unfold Path.relative. case_bool_decide; [done|].
  destruct (Path.stripCommon _ _) as [f t] eqn:E.
  unfold JS.chars, JS.str. rewrite list_ascii_of_string_of_list_ascii.
  apply joinWith_clean. apply Forall_app. split.
  - apply Forall_fmap. apply Forall_true. intros x. split; [done|].
    intros [?|[?|?%elem_of_nil]%elem_of_cons]%elem_of_cons; done.
  - eapply stripCommon_keeps; [exact E|]. apply resolve_clean.
Qed.

(** *** What a match leaves and captures *)

Lemma stripPrefix_app p : forall s s', stripPrefix p s = Some s' -> s = (p ++ s')%list.
Proof.
  induction p as [|a p IH]; intros s s'; simpl; [by intros [= ->]|].
  destruct s as [|b s]; [done|]. case_bool_decide; [subst|done].
  by intros ->%IH.
Qed.

Lemma matches_suffix r s c s' c' : matches r s c s' c' -> exists pre, s = (pre ++ s')%list.
Proof.
  induction 1 as [s c|a s c|f x s c Hx|r1 r2 s c s1 c1 s2 c2 _ [p1 ->] _ [p2 ->]
                 |r1 r2 s c s' c' _ IH|r1 r2 s c s' c' _ IH|g r s c
                 |g r s c s1 c1 s2 c2 _ [p1 ->] _ [p2 ->]|n r s c s' c' _ IH|n s c s' Hp].
  - by exists [].
  - by exists [a].
  - by exists [x].
  - exists (p1 ++ p2)%list. by rewrite app_assoc.
  - done.
  - done.
  - by exists [].
  - exists (p1 ++ p2)%list. by rewrite app_assoc.
  - done.
  - exists (getcap n c). by apply stripPrefix_app.
Qed.

Lemma take_prefix (pre s' : list ascii) :
  take (length (pre ++ s') - length s') (pre ++ s') = pre.
Proof.
  rewrite length_app. replace (length pre + length s' - length s') with (length pre) by lia.
  apply take_app_length.
Qed.

(** A match found by [search] splits the text, and is a match at the head
    of some text. *)
Lemma search_parts r : forall s skipped m,
  search r skipped s = Some m ->
  (rev skipped ++ s)%list = (before m ++ matched m ++ after m)%list
  /\ exists t, matches r t [] (after m) (groups m).
Proof.
  assert (forall s skipped m s' c,
            matchHere r s = Some (s', c) ->
            Some (mkFound (rev skipped) (take (length s - length s') s) s' c) = Some m ->
            (rev skipped ++ s)%list = (before m ++ matched m ++ after m)%list
            /\ exists t, matches r t [] (after m) (groups m)) as Hhere.
  { intros s skipped m s' c E [= <-]. cbn [before matched after groups].
    apply run_sound in E as (s1 & c1 & M & [= -> ->]).
    destruct (matches_suffix _ _ _ _ _ M) as [pre ->]. rewrite take_prefix.
    split; [done|]. by eexists. }
  assert (forall s skipped,
            search r skipped s
            = match matchHere r s with
              | Some (s', c) =>
                  Some (mkFound (rev skipped) (take (length s - length s') s) s' c)
              | None => match s with
                        | [] => None
                        | x :: s' => search r (x :: skipped) s'
                        end
              end) as Heq by (by intros [|x s] skipped).
  induction s as [|x s IH]; intros skipped m; rewrite Heq.
  - destruct (matchHere r []) as [[s' c]|] eqn:E; [|done]. by apply Hhere.
  - destruct (matchHere r (x :: s)) as [[s' c]|] eqn:E; [by apply Hhere|].
    intros [Hparts Hm]%IH. split; [|done]. rewrite <- Hparts. simpl.
    by rewrite <- app_assoc.
Qed.

Lemma exec_parts r s m :
  exec r s = Some m ->
  s = (before m ++ matched m ++ after m)%list
  /\ exists t, matches r t [] (after m) (groups m).
Proof. unfold exec. by intros H%search_parts. Qed.

Lemma matchAllFrom_sound r fuel : forall s m,
  m ∈ matchAllFrom fuel r s -> exists t, matches r t [] (after m) (groups m).
Proof.
  induction fuel as [|fuel IH]; intros s m; simpl; [by intros ?%elem_of_nil|].
  destruct (exec r s) as [m0|] eqn:E; [|by intros ?%elem_of_nil].
  intros [->|Hin]%elem_of_cons; [by apply exec_parts in E as [_ ?]|].
  destruct (matched m0), (after m0); try (by apply elem_of_nil in Hin); by eapply IH.
Qed.

(** A global replacement whose replacer returns every match as it is
    changes nothing. *)
Lemma replaceAllFrom_id r fn fuel : forall s,
  (forall m, m ∈ matchAllFrom fuel r s -> fn m = matched m) ->
  replaceAllFrom fuel r fn s = s.
Proof.
  induction fuel as [|fuel IH]; intros s Hfn; simpl in *; [done|].
  destruct (exec r s) as [m|] eqn:E; [|done].
  pose proof (exec_parts _ _ _ E) as [Hs _].
  rewrite (Hfn m) by left.
  assert (forall rest,
            (forall m', m' ∈ matchAllFrom fuel r rest ->
                        m' ∈ m :: match matched m, after m with
                                  | [], [] => []
                                  | [], _ :: rest0 => matchAllFrom fuel r rest0
                                  | _ :: _, rest0 => matchAllFrom fuel r rest0
                                  end) ->
            replaceAllFrom fuel r fn rest = rest) as Hrest.
  { intros rest Hsub. apply IH. intros m' Hm'. apply Hfn. by apply Hsub. }
  destruct (matched m) as [|x l] eqn:Em, (after m) as [|y rest] eqn:Ea.
  - by rewrite Hs.
  - rewrite Hrest; [by rewrite Hs|]. intros m' Hm'. by right.
  - rewrite Hrest; [by rewrite Hs|]. intros m' Hm'. by right.
  - rewrite Hrest; [by rewrite Hs|]. intros m' Hm'. by right.
Qed.

Lemma replaceAll_id r fn s :
  (forall m, m ∈ matchAll r s -> fn m = matched m) -> replaceAll r fn s = s.
Proof. apply replaceAllFrom_id. Qed.

Lemma matches_keeps n r s c s' c' :
  matches r s c s' c' -> sets n r = false -> getcap n c' = getcap n c.
Proof.
  induction 1 as [| | |r1 r2 s c s1 c1 s2 c2 _ IH1 _ IH2| | |
                 |g r s c s1 c1 s2 c2 _ IH1 _ IH2|k r s c s' c' _ IH|]; simpl; try done.
  - intros [H1 H2]%orb_false_elim. by rewrite IH2, IH1.
  - intros [H1 H2]%orb_false_elim. auto.
  - intros [H1 H2]%orb_false_elim. auto.
  - intros H. by rewrite IH2, IH1.
  - intros [H1 H2]%orb_false_elim. rewrite H1. auto.
Qed.

Lemma matches_schemeGroup n r :
  schemeGroup n r ->
  forall s c s' c', matches r s c s' c' -> absolute (getcap n c').
Proof.
  induction 1 as [r|r1 r2 _ IH Hsets|r1 r2 _ IH]; intros s c s' c' M.
  - inversion M as [| | | | | | | |? ? ? ? ? ? M1|]; subst. clear M.
    inversion M1 as [| | |? ? ? ? s1 c1 ? ? M2 M3| | | | | |]; subst. clear M1.
    apply matches_scheme in M2 as (a & sch & -> & Ha).
    apply matches_suffix in M3 as [pre ->].
    unfold setcap. cbn [getcap]. rewrite Nat.eqb_refl.
    assert ((a :: sch ++ JS.chars "://" ++ pre ++ s')%list
            = ((a :: sch ++ JS.chars "://" ++ pre) ++ s')%list) as ->.
    { rewrite <- app_comm_cons. f_equal. by rewrite <- !app_assoc. }
    rewrite take_prefix. by exists a, sch, pre.
  - inversion M as [| | |? ? ? ? s1 c1 ? ? M1 M2| | | | | |]; subst.
    rewrite (matches_keeps _ _ _ _ _ _ M2 Hsets). by eapply IH.
  - inversion M as [| | |? ? ? ? s1 c1 ? ? M1 M2| | | | | |]; subst. by eapply IH.
Qed.

Ltac scheme_group :=
  first [ apply schemeGroup_here
        | apply schemeGroup_first; [apply schemeGroup_here|reflexivity]
        | apply schemeGroup_then; scheme_group ].

Lemma schemeGroup_quotedUrl : schemeGroup 2 Patterns.quotedUrl.
Proof. unfold Patterns.quotedUrl. cbn [seq]. scheme_group. Qed.

Lemma schemeGroup_fetchUrl : schemeGroup 2 Patterns.fetchUrl.
Proof.
  unfold Patterns.fetchUrl. cbn [seq]. do 2 apply schemeGroup_then.
  apply schemeGroup_quotedUrl.
Qed.

Lemma schemeGroup_newUrl : schemeGroup 2 Patterns.newUrl.
Proof.
  unfold Patterns.newUrl. cbn [seq]. do 4 apply schemeGroup_then.
  apply schemeGroup_quotedUrl.
Qed.

Lemma schemeGroup_cssAbsUrl : schemeGroup 2 Patterns.cssAbsUrl.
Proof. unfold Patterns.cssAbsUrl. cbn [seq]. scheme_group. Qed.

Lemma schemeGroup_cssAbsImport : schemeGroup 2 Patterns.cssAbsImport.
Proof. unfold Patterns.cssAbsImport. cbn [seq]. scheme_group. Qed.

Lemma schemeGroup_jsonAbsUrl : schemeGroup 1 Patterns.jsonAbsUrl.
Proof. unfold Patterns.jsonAbsUrl. cbn [seq]. scheme_group. Qed.

Lemma absolute_double_slash l : absolute l -> Path.hasDoubleSlash l = true.
Proof.
  intros (a & sch & rest & -> & _).
  change (a :: sch ++ JS.chars "://" ++ rest)%list
    with ((a :: sch) ++ [":"%char] ++ Path.slash :: Path.slash :: rest)%list.
  rewrite app_assoc. apply hasDoubleSlash_app.
Qed.

Lemma dropWhile_split f (r : list ascii) :
  exists sp, r = (sp ++ Path.dropWhile f r)%list /\ Forall (fun x => f x = true) sp.
Proof.
  induction r as [|x r (sp & Hr & Hsp)]; simpl; [by exists []|].
  destruct (f x) eqn:Hx; [|by exists []].
  exists (x :: sp). split; [simpl; by f_equal|by constructor].
Qed.

Lemma isAlpha_not_space a : isAlpha a = true -> isSpace a = false.
Proof. destruct a as [[] [] [] [] [] [] [] []]; vm_compute; done. Qed.

(** [trim] keeps the scheme at the head of a text. *)
Lemma trim_absolute l : absolute l -> absolute (JS.chars (trim (JS.str l))).
Proof.
  intros (a & sch & rest & -> & Ha). unfold trim. rewrite !chars_str.
  cbn [Path.dropWhile]. rewrite (isAlpha_not_space a Ha).
  assert (forall rest', (a :: sch ++ JS.chars "://" ++ rest')%list
                        = (((a :: sch) ++ JS.chars ":/") ++ [Path.slash] ++ rest')%list)
    as Eshape by (intros rest'; by rewrite <- app_assoc).
  match goal with
  | |- context [Path.dropWhile isSpace (rev ?l)] =>
      destruct (dropWhile_split isSpace (rev l)) as (sp & Hl & Hsp);
      remember (Path.dropWhile isSpace (rev l)) as k eqn:Ek; clear Ek
  end.
  apply (f_equal (@rev ascii)) in Hl. rewrite rev_involutive, rev_app_distr in Hl.
  assert (exists rest', rev k = (a :: sch ++ JS.chars "://" ++ rest')%list) as [rest' ->];
    [|by exists a, sch, rest'].
  rewrite Eshape, app_assoc in Hl.
  apply app_eq_app in Hl as [m [[E1 E2]|[E1 E2]]].
  - destruct m as [|z m _] using rev_ind.
    + exists []. rewrite Eshape, !app_nil_r in *. by rewrite E1.
    + exfalso. rewrite app_assoc in E1. apply app_inj_tail in E1 as [_ <-].
      assert (Path.slash ∈ rev sp) as Hin.
      { rewrite E2. apply elem_of_app. left. apply elem_of_app. right. left. }
      apply list_elem_of_In, in_rev, list_elem_of_In in Hin.
      rewrite Forall_forall in Hsp. by apply Hsp in Hin.
  - exists m. by rewrite Eshape, E1, <- !app_assoc.
Qed.

(** The URL that a replacer looks up has two separators in a row. *)
Lemma detector_url_absolute fileType d (s : list ascii) m :
  d ∈ detectors fileType -> m ∈ matchAll d.1 s ->
  Path.hasDoubleSlash (JS.chars (d.2 m)) = true.
Proof.
  intros Hd Hm. apply matchAllFrom_sound in Hm as [t M].
  assert (forall n, schemeGroup n d.1 -> absolute (getcap n (groups m))) as Habs.
  { intros n G. by eapply matches_schemeGroup. }
  unfold detectors in Hd.
  apply elem_of_app in Hd as [Hd|Hd]; [|apply elem_of_app in Hd as [Hd|Hd]];
    (destruct (_ : bool) in Hd; [|by apply elem_of_nil in Hd]);
    repeat (apply elem_of_cons in Hd as [->|Hd]); try (by apply elem_of_nil in Hd);
    cbn [fst snd] in *; apply absolute_double_slash;
    first [ apply trim_absolute, Habs, schemeGroup_cssAbsUrl
          | rewrite chars_str; apply Habs;
            first [ apply schemeGroup_quotedUrl | apply schemeGroup_fetchUrl
                  | apply schemeGroup_newUrl | apply schemeGroup_cssAbsImport
                  | apply schemeGroup_jsonAbsUrl ] ].
Qed.

Section Again.

Context (h : Host) (baseOrigin : string) (a : Alloc) (filePath fileType : string)
  (content : list ascii).

Hypothesis settled :
  forall d m, d ∈ detectors fileType -> m ∈ matchAll d.1 content ->
              rewriteTarget h baseOrigin a filePath (d.2 m) = None.

Lemma quotedReplacer_settled p lead trail :
  (p, fun m => JS.str (getcap 2 (groups m))) ∈ detectors fileType ->
  replaceAll p (quotedReplacer h baseOrigin a filePath lead trail) content = content.
Proof.
  intros Hd. apply replaceAll_id. intros m Hm. unfold quotedReplacer. cbv zeta.
  pose proof (settled _ m Hd Hm) as Hnone. cbn [fst snd] in Hnone. by rewrite Hnone.
Qed.

Lemma cssUrlReplacer_settled :
  (Patterns.cssAbsUrl, fun m => trim (JS.str (getcap 2 (groups m)))) ∈ detectors fileType ->
  replaceAll Patterns.cssAbsUrl (cssUrlReplacer h baseOrigin a filePath) content = content.
Proof.
  intros Hd. apply replaceAll_id. intros m Hm. unfold cssUrlReplacer. cbv zeta.
  pose proof (settled _ m Hd Hm) as Hnone. cbn [fst snd] in Hnone. by rewrite Hnone.
Qed.

Lemma jsonReplacer_settled :
  (Patterns.jsonAbsUrl, fun m => JS.str (getcap 1 (groups m))) ∈ detectors fileType ->
  replaceAll Patterns.jsonAbsUrl (jsonReplacer h baseOrigin a filePath) content = content.
Proof.
  intros Hd. apply replaceAll_id. intros m Hm. unfold jsonReplacer. cbv zeta.
  pose proof (settled _ m Hd Hm) as Hnone. cbn [fst snd] in Hnone. by rewrite Hnone.
Qed.

Ltac detector :=
  unfold detectors; cbv zeta;
  repeat match goal with H : _ = true |- _ => rewrite H; clear H end;
  apply list_elem_of_In; apply in_or_app;
  first [ left; simpl; repeat first [left; reflexivity | right]; fail
        | right; apply in_or_app;
          first [ left; simpl; repeat first [left; reflexivity | right]; fail
                | right; simpl; repeat first [left; reflexivity | right]; fail ] ].

Lemma rewriteBody_settled :
  rewriteBody h baseOrigin a filePath (JS.str content) fileType = JS.str content.
Proof.
  unfold rewriteBody. rewrite chars_str. f_equal. cbv zeta.
  assert ((if bool_decide (fileType = "js") || bool_decide (fileType = "mjs")
           then rewriteJs h baseOrigin a filePath content else content) = content) as ->.
  { destruct (bool_decide (fileType = "js") || bool_decide (fileType = "mjs")) eqn:Hjs;
      [|done].
    unfold rewriteJs. cbv zeta. rewrite !quotedReplacer_settled; [done|detector..]. }
  assert ((if bool_decide (fileType = "css")
           then rewriteCss h baseOrigin a filePath content else content) = content) as ->.
  { destruct (bool_decide (fileType = "css")) eqn:Hcss; [|done].
    unfold rewriteCss. cbv zeta.
    rewrite cssUrlReplacer_settled, quotedReplacer_settled; [done|detector..]. }
  destruct (bool_decide (fileType = "json")) eqn:Hjson; [|done].
  unfold rewriteJson. rewrite jsonReplacer_settled; [done|detector].
Qed.

End Again.



(** * Further properties of the program *)

(** ** Paths under the output folder *)

Lemma splitOn_app sep (a b : list ascii) :
  JS.splitOn sep (a ++ sep :: b) = (JS.splitOn sep a ++ JS.splitOn sep b)%list.
Proof.
  induction a as [|c a IH]; simpl.
  - by rewrite bool_decide_eq_true_2.
  - case_bool_decide; [by rewrite IH|]. rewrite IH.
    destruct (JS.splitOn sep a) as [|s ss] eqn:E; [by destruct (splitOn_nonempty sep a)|].
    done.
Qed.

Lemma splitOn_joinWith sep (segs : list (list ascii)) :
  segs <> [] -> Forall (fun s => sep ∉ s) segs ->
  JS.splitOn sep (JS.joinWith sep segs) = segs.
Proof.
  induction segs as [|s segs IH]; [done|]. intros _ Hall.
  apply Forall_cons in Hall as [Hs Hall].
  assert (JS.splitOn sep s = [s]) as Hone.
  { clear -Hs. induction s as [|c s IH]; [done|]. simpl.
    apply not_elem_of_cons in Hs as [Hc Hs].
    rewrite bool_decide_eq_false_2 by done. by rewrite (IH Hs). }
  destruct segs as [|s' segs]; [exact Hone|].
  change (JS.joinWith sep (s :: s' :: segs))
    with (s ++ sep :: JS.joinWith sep (s' :: segs))%list.
  rewrite splitOn_app, Hone, IH; done.
Qed.

Lemma normalizeAbs_app a b stack :
  Path.normalizeAbs (a ++ b) stack = Path.normalizeAbs b (rev (Path.normalizeAbs a stack)).
Proof.
  revert stack. induction a as [|s a IH]; intros stack; simpl.
  - by rewrite rev_involutive.
  - repeat case_match; apply IH.
Qed.

Lemma normalizeAbs_plain segs stack :
  Forall plainSegment segs -> Path.normalizeAbs segs stack = (rev stack ++ segs)%list.
Proof.
  revert stack. induction segs as [|s segs IH]; intros stack Hall; simpl.
  - by rewrite app_nil_r.
  - apply Forall_cons in Hall as [(H1 & H2 & H3) Hall].
    rewrite !bool_decide_eq_false_2 by done. simpl.
    rewrite IH by done. simpl. by rewrite <- app_assoc.
Qed.

Lemma normalizeAbs_is_plain segs stack :
  Forall plainSegment stack -> Forall plainSegment (Path.normalizeAbs segs stack).
Proof.
  revert stack. induction segs as [|s segs IH]; intros stack Hst; simpl.
  - by apply Forall_rev.
  - destruct (bool_decide (s = [])) eqn:E1; [by apply IH|].
    destruct (bool_decide (s = [Path.dot])) eqn:E2; [by apply IH|]. simpl.
    destruct (bool_decide (s = Path.dotdot)) eqn:E3.
    + apply IH. destruct stack; [done|]. by apply Forall_cons in Hst as [_ ?].
    + apply IH. apply Forall_cons. split; [|done].
      apply bool_decide_eq_false in E1, E2, E3. done.
Qed.

Lemma normalizeAbs_onto segs stack :
  Path.dotdot ∉ segs ->
  Path.normalizeAbs segs stack = (rev stack ++ Path.normalizeAbs segs [])%list.
Proof.
  revert stack. induction segs as [|s segs IH]; intros stack Hno; simpl.
  - by rewrite app_nil_r.
  - apply not_elem_of_cons in Hno as [Hs Hno].
    destruct (bool_decide (s = []) || bool_decide (s = [Path.dot])); [by apply IH|].
    rewrite bool_decide_eq_false_2 by done.
    rewrite (IH (s :: stack)), (IH [s]) by done. simpl. by rewrite <- app_assoc.
Qed.

Lemma normalizeAbs_up (f : list Path.segment) rest stack :
  Path.normalizeAbs (map (fun _ => Path.dotdot) f ++ rest) stack
  = Path.normalizeAbs rest (drop (length f) stack).
Proof.
  revert stack. induction f as [|x f IH]; intros stack; [done|].
  change (Path.normalizeAbs (map (fun _ => Path.dotdot) (x :: f) ++ rest) stack)
    with (Path.normalizeAbs (map (fun _ => Path.dotdot) f ++ rest) (tail stack)).
  rewrite IH. destruct stack; simpl; [by rewrite drop_nil|done].
Qed.

Lemma stripCommon_split (a b f t : list Path.segment) :
  Path.stripCommon a b = (f, t) -> exists c, a = (c ++ f)%list /\ b = (c ++ t)%list.
Proof.
  revert b. induction a as [|x a IH]; intros b; simpl.
  - intros [= <- <-]. by exists [].
  - destruct b as [|y b]; [intros [= <- <-]; by exists []|].
    case_bool_decide as E; [|intros [= <- <-]; by exists []].
    subst y. intros (c & -> & ->)%IH. by exists (x :: c).
Qed.

Lemma takeWhile_dropWhile f (l : list ascii) :
  (Path.takeWhile f l ++ Path.dropWhile f l)%list = l.
Proof. induction l as [|c l IH]; simpl; [done|]. destruct (f c); simpl; by f_equal. Qed.

Lemma dropWhile_head f (l : list ascii) x r : Path.dropWhile f l = x :: r -> f x = false.
Proof.
  induction l as [|c l IH]; simpl; [done|].
  destruct (f c) eqn:E; [done|]. by intros [= <- _].
Qed.

(** The segments of the directory of a rooted path are segments of the
    path, or empty. *)
Lemma dirname_segments p s :
  Path.isAbsolute p = true ->
  s ∈ Path.segments (Path.dirname p) -> s = [] \/ s ∈ Path.segments p.
Proof.
  unfold Path.isAbsolute, Path.dirname, Path.segments.
  destruct (JS.chars p) as [|c0 rest] eqn:Ep; [done|]. intros Hroot. rewrite Hroot.
  apply bool_decide_eq_true in Hroot. subst c0.
  pose proof (takeWhile_dropWhile Path.is_slash (rev rest)) as E1.
  pose proof (takeWhile_dropWhile (fun c => negb (Path.is_slash c))
                (Path.dropWhile Path.is_slash (rev rest))) as E2.
  destruct (Path.dropWhile (fun c => negb (Path.is_slash c))
              (Path.dropWhile Path.is_slash (rev rest))) as [|x before] eqn:Ed.
  { intros Hs. left. vm_compute in Hs.
    repeat (apply elem_of_cons in Hs as [->|Hs]; [done|]). by apply elem_of_nil in Hs. }
  assert (x = Path.slash) as ->.
  { apply dropWhile_head in Ed. apply negb_false_iff, bool_decide_eq_true in Ed. done. }
  destruct before as [|b before].
  { intros Hs. left. vm_compute in Hs.
    repeat (apply elem_of_cons in Hs as [->|Hs]; [done|]). by apply elem_of_nil in Hs. }
  rewrite chars_str. intros Hs. right.
  assert (rest = rev (b :: before) ++ Path.slash
                 :: rev (Path.takeWhile Path.is_slash (rev rest)
                         ++ Path.takeWhile (fun c => negb (Path.is_slash c))
                              (Path.dropWhile Path.is_slash (rev rest))))%list as ->.
  { rewrite <- (rev_involutive rest) at 1. rewrite <- E1 at 1. rewrite <- E2 at 1.
    rewrite app_assoc, rev_app_distr. simpl. by rewrite <- app_assoc. }
  change (Path.slash :: (rev (b :: before) ++ ?t))%list
    with ((Path.slash :: rev (b :: before)) ++ t)%list.
  rewrite splitOn_app. apply elem_of_app. by left.
Qed.

Lemma segments_join a b :
  Path.segments (a +:+ "/" +:+ b) = (Path.segments a ++ Path.segments b)%list.
Proof.
  unfold Path.segments. rewrite !chars_app.
  change (JS.chars "/" ++ JS.chars b)%list with (Path.slash :: JS.chars b).
  apply splitOn_app.
Qed.

Lemma resolve_plain cwd p : Forall plainSegment (Path.resolve cwd p).
Proof. unfold Path.resolve. destruct (Path.isAbsolute p); by apply normalizeAbs_is_plain. Qed.

Lemma outBase_plain h outDir : Forall plainSegment (outBase h outDir).
Proof. unfold outBase. destruct (JS.truthy outDir); [apply resolve_plain|done]. Qed.

Lemma location_rooted h outDir p :
  Path.isAbsolute p = true -> Path.dotdot ∉ Path.segments p ->
  location h outDir p = (outBase h outDir ++ Path.normalizeAbs (Path.segments p) [])%list.
Proof.
  intros Habs Hno. unfold location, Path.joinResolve, outBase.
  assert (JS.truthy p = true) as -> by (by destruct p).
  destruct outDir as [|c outDir]; simpl JS.truthy; cbv iota.
  { unfold Path.resolve. by rewrite Habs. }
  unfold Path.resolve.
  change (Path.isAbsolute (String c outDir +:+ "/" +:+ p))
    with (Path.isAbsolute (String c outDir)).
  rewrite segments_join.
  destruct (Path.isAbsolute (String c outDir)).
  - rewrite normalizeAbs_app, (normalizeAbs_onto (Path.segments p)) by done. by rewrite rev_involutive.
  - rewrite app_assoc, normalizeAbs_app, (normalizeAbs_onto (Path.segments p)) by done.
    by rewrite rev_involutive.
Qed.

Lemma dirname_rooted p :
  Path.isAbsolute p = true -> Path.isAbsolute (Path.dirname p) = true.
Proof.
  unfold Path.isAbsolute, Path.dirname.
  destruct (JS.chars p) as [|c0 rest]; [done|]. intros Hroot. rewrite Hroot.
  destruct (Path.dropWhile _ _) as [|x [|b before]]; [done..|].
  by rewrite chars_str.
Qed.

Lemma resolveFrom_here dir :
  Forall plainSegment dir -> Path.resolveFrom dir "" = dir.
Proof.
  intros Hdir. unfold Path.resolveFrom.
  change (Path.isAbsolute "") with false. change (Path.segments "") with [@nil ascii].
  rewrite normalizeAbs_app, (normalizeAbs_plain dir) by done.
  change (Path.normalizeAbs [[]] ?st) with (rev st). by rewrite rev_involutive.
Qed.

(** X1. For two rooted paths without [..] segments, the relative path that
    [getRelativePath] computes from the first to the second leads, from the
    folder where [save] puts the first, to the file where [save] puts the
    second. *)
Theorem relative_path_round_trip (h : Host) (outDir fromFilePath toFilePath : string) :
  Path.isAbsolute fromFilePath = true -> Path.isAbsolute toFilePath = true ->
  Path.dotdot ∉ Path.segments fromFilePath -> Path.dotdot ∉ Path.segments toFilePath ->
  Path.resolveFrom (location h outDir (Path.dirname fromFilePath))
    (getRelativePath h fromFilePath toFilePath)
  = location h outDir toFilePath.
Proof.
  intros Hfrom Hto Hnf Hnt.
  pose proof (dirname_rooted _ Hfrom) as Hdir.
  assert (Path.dotdot ∉ Path.segments (Path.dirname fromFilePath)) as Hnd.
  { intros Hin. by destruct (dirname_segments _ _ Hfrom Hin). }
  rewrite (location_rooted h outDir _ Hdir Hnd), (location_rooted h outDir _ Hto Hnt).
  unfold getRelativePath. rewrite joinWith_splitOn, str_chars.
  pose proof (outBase_plain h outDir) as HB.
  pose proof (resolve_plain (cwd h) (Path.dirname fromFilePath)) as HF.
  pose proof (resolve_plain (cwd h) toFilePath) as HT.
  pose proof (resolve_clean (cwd h) toFilePath) as HTc.
  unfold Path.relative. unfold Path.resolve in *. rewrite Hdir, Hto in *.
  set (B := outBase h outDir) in *.
  set (F := Path.normalizeAbs (Path.segments (Path.dirname fromFilePath)) []) in *.
  set (T := Path.normalizeAbs (Path.segments toFilePath) []) in *.
  case_bool_decide as Esame.
  { rewrite resolveFrom_here by (by apply Forall_app).
    subst F T. by rewrite Esame. }
  destruct (Path.stripCommon F T) as [f t] eqn:Es.
  destruct (stripCommon_split _ _ _ _ Es) as (c & EF & ET).
  pose proof (stripCommon_keeps _ _ _ _ _ Es HTc) as Htc.
  rewrite EF, ET in *. clear Es EF ET.
  apply Forall_app in HF as [Hc Hf]. apply Forall_app in HT as [_ Ht].
  set (L := (map (fun _ => Path.dotdot) f ++ t)%list).
  destruct (decide (L = [])) as [EL|HLne].
  { rewrite EL. subst L. apply app_eq_nil in EL as [Ef ->]. apply map_eq_nil in Ef as ->.
    simpl. rewrite resolveFrom_here; [done|]. rewrite app_nil_r.
    by apply Forall_app. }
  assert (Forall cleanSegment L) as HL.
  { subst L. apply Forall_app. split; [|done]. apply Forall_forall.
    intros s (x & -> & _)%list_elem_of_fmap. split; [done|].
    intros Hin. vm_compute in Hin.
    repeat (apply elem_of_cons in Hin as [Hin|Hin]; [done|]). by apply elem_of_nil in Hin. }
  destruct (joinWith_clean L HL) as [_ Hhead].
  unfold Path.resolveFrom, Path.isAbsolute, Path.segments. rewrite chars_str.
  assert (match JS.joinWith Path.slash L with
          | c0 :: _ => Path.is_slash c0
          | [] => false
          end = false) as ->.
  { destruct (JS.joinWith Path.slash L) as [|c0 r]; [done|].
    apply is_slash_false. intros ->. by apply Hhead. }
  rewrite splitOn_joinWith; [|done|].
  2:{ eapply Forall_impl; [exact HL|]. by intros s [_ ?]. }
  subst L. rewrite normalizeAbs_app, (normalizeAbs_plain (B ++ c ++ f)).
  2:{ apply Forall_app. split; [done|]. by apply Forall_app. }
  simpl. rewrite normalizeAbs_up, !rev_app_distr, <- app_assoc.
  rewrite <- (length_rev f), drop_app_length.
  rewrite normalizeAbs_plain by done.
  by rewrite rev_app_distr, !rev_involutive, <- app_assoc.
Qed.

(** ** More on the path allocator *)

Lemma freePath_least used name ext fuel counter p :
  freePath used name ext fuel counter = Some p ->
  exists k, counter <= k /\ p = numbered name ext k /\ (p ∉ used)
    /\ forall j, counter <= j < k -> numbered name ext j ∈ used.
Proof.
  revert counter. induction fuel as [|fuel IH]; intros counter; simpl;
    case_bool_decide as Hin; try done.
  - intros [= <-]. exists counter. repeat split; [lia|done|lia].
  - intros (k & Hk & -> & Hfree & Hbelow)%IH. exists k. repeat split; [lia|done|].
    intros j Hj. destruct (decide (j = counter)) as [->|]; [done|]. apply Hbelow. lia.
  - intros [= <-]. exists counter. repeat split; [lia|done|lia].
Qed.

(** X2. The path given to a URL that is not in the map yet is the path
    derived from the URL when that one is free.  Otherwise it is
    [nameWithoutExt-k ext] for the smallest [k >= 1] whose path is free,
    where [ext] is [path.extname] of the derived path and [nameWithoutExt]
    is [filePath.slice(0, -ext.length)]: the derived path with [-k] before
    its extension when it has one, and [-k] alone when it has none, the
    slice being empty then. *)
Theorem assetPath_first_free (h : Host) (baseUrl url p : string) (a a' : Alloc) (u : URL) :
  filePathMap a !! url = None ->
  new_URL h url (Some baseUrl) = Some u ->
  assetPath h baseUrl url a = Some (p, a') ->
  let ext := Path.extname (hashedPath u) in
  let nameWithoutExt := JS.slice_0_neg (hashedPath u) (String.length ext) in
  ((hashedPath u ∉ usedPaths a) /\ p = hashedPath u)
  \/ (hashedPath u ∈ usedPaths a
      /\ exists k, 1 <= k /\ p = numbered nameWithoutExt ext k /\ (p ∉ usedPaths a)
           /\ forall j, 1 <= j < k -> numbered nameWithoutExt ext j ∈ usedPaths a).
Proof.
  intros Hnone Hu. unfold assetPath. rewrite Hnone, Hu. unfold uncollide.
  case_bool_decide as Hused.
  - destruct (freePath _ _ _ _ _) as [q|] eqn:E; [|done]. intros [= <- _].
    right. split; [done|]. by apply freePath_least in E.
  - intros [= <- _]. by left.
Qed.

Lemma assetPath_first_free_witness :
  let h := Scenario.offline in
  let a := Sample.allocate h Scenario.base
             ["https://cdn.test/a.css"; "https://x.test/a-1.css"; "https://cdn.test/img"] in
  let a1 := Sample.allocateFrom h Scenario.base a ["https://x.test/a.css"] in
  let a2 := Sample.allocateFrom h Scenario.base a ["https://x.test/img"] in
  (assetPath h Scenario.base "https://x.test/a.css" a = Some ("/a-2.css", a1)
   /\ ((("/a.css" ∉ usedPaths a) /\ "/a-2.css" = "/a.css")
       \/ ("/a.css" ∈ usedPaths a
           /\ exists k, 1 <= k /\ "/a-2.css" = numbered "/a" ".css" k
                /\ ("/a-2.css" ∉ usedPaths a)
                /\ forall j, 1 <= j < k -> numbered "/a" ".css" j ∈ usedPaths a)))
  /\ (assetPath h Scenario.base "https://x.test/img" a = Some ("-1", a2)
      /\ ((("/img" ∉ usedPaths a) /\ "-1" = "/img")
          \/ ("/img" ∈ usedPaths a
              /\ exists k, 1 <= k /\ "-1" = numbered "" "" k
                   /\ ("-1" ∉ usedPaths a)
                   /\ forall j, 1 <= j < k -> numbered "" "" j ∈ usedPaths a))).
Proof.
  intros h a a1 a2. split; (split; [vm_compute; reflexivity|]).
  - apply (assetPath_first_free h Scenario.base "https://x.test/a.css" "/a-2.css" a a1
             (mkURL "https://x.test/a.css" "https://x.test" "/a.css" "")).
    + vm_compute. reflexivity.
    + vm_compute. reflexivity.
    + vm_compute. reflexivity.
  - apply (assetPath_first_free h Scenario.base "https://x.test/img" "-1" a a2
             (mkURL "https://x.test/img" "https://x.test" "/img" "")).
    + vm_compute. reflexivity.
    + vm_compute. reflexivity.
    + vm_compute. reflexivity.
Defined.

(** X3. [assetPath] throws only when the URL is new to the map and
    [new URL] rejects it: the collision loop always comes to an end. *)
Theorem assetPath_throws_only_on_invalid_url (h : Host) (baseUrl url : string) (a : Alloc) :
  assetPath h baseUrl url a = None
  <-> filePathMap a !! url = None /\ new_URL h url (Some baseUrl) = None.
Proof.
  split.
  - intros Hnone. destruct (filePathMap a !! url) as [p|] eqn:Hmap.
    { unfold assetPath in Hnone. by rewrite Hmap in Hnone. }
    split; [done|]. destruct (new_URL h url (Some baseUrl)) as [u|] eqn:Hu; [|done].
    destruct (assetPath_total h baseUrl url a) as [x Hx]; [by rewrite Hu|]. congruence.
  - intros [Hmap Hu]. unfold assetPath. by rewrite Hmap, Hu.
Qed.

Lemma allocSteps_used (h : Host) (baseUrl : string) (a a' : Alloc) :
  allocSteps h baseUrl a a' ->
  (forall p, p ∈ usedPaths a -> exists u, filePathMap a !! u = Some p) ->
  forall p, p ∈ usedPaths a' -> exists u, filePathMap a' !! u = Some p.
Proof.
  induction 1 as [a|a url q a1 a2 Hcall Hsteps IH]; [done|]. intros Hinv.
  apply IH. intros p Hp.
  destruct (assetPath_cases h baseUrl _ _ _ _ Hcall) as [[_ ->]|(Hnone & Hfree & ->)];
    [by apply Hinv|]. simpl in *.
  apply elem_of_union in Hp as [->%elem_of_singleton|Hp].
  - exists url. apply lookup_insert_eq.
  - destruct (Hinv p Hp) as [v Hv]. exists v. rewrite lookup_insert_ne; [done|].
    intros ->. congruence.
Qed.

(** X4. After any number of calls of [assetPath] from the empty maps,
    [usedPaths] holds the paths of [filePathMap] and nothing else. *)
Theorem usedPaths_are_the_assigned_paths (h : Host) (baseUrl : string) (a : Alloc) :
  allocSteps h baseUrl emptyAlloc a ->
  forall p, p ∈ usedPaths a <-> exists u, filePathMap a !! u = Some p.
Proof.
  intros Hsteps p. split.
  - revert p. apply (allocSteps_used h baseUrl emptyAlloc a Hsteps).
    intros q Hq. simpl in Hq. set_solver.
  - intros [u Hu]. destruct (allocSteps_inv h baseUrl _ _ Hsteps (allocInv_empty)) as [Hin _].
    by apply (Hin u).
Qed.

Lemma usedPaths_are_the_assigned_paths_witness :
  let a := Sample.allocate Scenario.offline Scenario.base
             ["https://x.test/img?a=1"; "https://x.test/img?a=2"] in
  "/img-169lj" ∈ usedPaths a <-> exists u, filePathMap a !! u = Some "/img-169lj".
Proof.
  intros a.
  apply (usedPaths_are_the_assigned_paths Scenario.offline Scenario.base a).
  apply allocate_steps.
Defined.

(** ** The hash of a query string *)

Lemma to_int32_range z : (- 2 ^ 31 <= JS.to_int32 z < 2 ^ 31)%Z.
Proof.
  unfold JS.to_int32.
  pose proof (Z.mod_pos_bound (z + 2 ^ 31) (2 ^ 32) eq_refl). lia.
Qed.

Lemma searchHash_range search : (- 2 ^ 31 <= searchHash search < 2 ^ 31)%Z.
Proof.
  unfold searchHash.
  apply (fold_left_preserves (fun z => (- 2 ^ 31 <= z < 2 ^ 31)%Z)); [lia|].
  intros z c _. apply to_int32_range.
Qed.

Lemma digit36_base36 d : (d < 36)%N -> JS.digit36 d ∈ base36.
Proof.
  intros Hd.
  assert (forallb (fun i => bool_decide (JS.digit36 (N.of_nat i) ∈ base36)) (List.seq 0 36)
          = true) as Hall by (vm_compute; reflexivity).
  rewrite forallb_forall in Hall.
  specialize (Hall (N.to_nat d)). rewrite N2Nat.id in Hall.
  eapply bool_decide_eq_true_1, Hall, in_seq. lia.
Qed.

Lemma toString36_go_length fuel :
  forall n acc k,
    1 <= k -> k <= fuel -> (Z.of_N n < 36 ^ Z.of_nat k)%Z ->
    S (String.length acc) <= String.length (JS.toString36_go fuel n acc)
    /\ String.length (JS.toString36_go fuel n acc) <= k + String.length acc.
Proof.
  induction fuel as [|fuel IH]; intros n acc k Hk1 Hk Hn; [lia|]. simpl.
  destruct (n / 36 =? 0)%N eqn:E; [simpl; lia|].
  apply N.eqb_neq in E.
  assert (36 <= n)%N as Hbig.
  { destruct (N.lt_ge_cases n 36) as [Hlt|]; [|done].
    by rewrite N.div_small in E. }
  destruct k as [|[|k]]; [lia| |].
  { change (36 ^ Z.of_nat 1)%Z with 36%Z in Hn. lia. }
  destruct (IH (n / 36)%N (String (JS.digit36 (n mod 36)) acc) (S k)) as [H1 H2];
    [lia|lia| |simpl in *; lia].
  rewrite N2Z.inj_div. change (Z.of_N 36) with 36%Z.
  apply Z.div_lt_upper_bound; [lia|].
  rewrite <- Z.pow_succ_r by lia. by rewrite <- Nat2Z.inj_succ.
Qed.

Lemma toString36_go_chars fuel :
  forall n acc c,
    c ∈ JS.chars (JS.toString36_go fuel n acc) -> c ∈ base36 \/ c ∈ JS.chars acc.
Proof.
  induction fuel as [|fuel IH]; intros n acc c; simpl; [by right|].
  assert (JS.digit36 (n mod 36) ∈ base36) as Hd.
  { apply digit36_base36. by apply N.mod_lt. }
  destruct (n / 36 =? 0)%N.
  - intros [->|?]%elem_of_cons; [by left|by right].
  - intros [?|[->|?]%elem_of_cons]%IH; [by left|by left|by right].
Qed.

Lemma size_nat_bound n : (Z.of_N n < 2 ^ Z.of_nat (N.size_nat n))%Z.
Proof.
  destruct n as [|p]; [done|]. simpl.
  induction p as [p IH|p IH|]; simpl Pos.size_nat; [| |done];
    rewrite Nat2Z.inj_succ, Z.pow_succ_r by lia; lia.
Qed.

(** X5. The suffix that [assetPath] puts into the name of a URL with a
    query string, [Math.abs(hash).toString(36)], has between one and six
    characters, all of them digits or lower-case letters: it holds no
    separator and no dot. *)
Theorem hashSuffix_short (search : string) :
  1 <= String.length (hashSuffix search) <= 6
  /\ Forall (fun c => c ∈ base36) (JS.chars (hashSuffix search)).
Proof.
  unfold hashSuffix, JS.toString36.
  set (n := Z.to_N (Z.abs (searchHash search))).
  assert (Z.of_N n < 36 ^ 6)%Z as Hn.
  { subst n. pose proof (searchHash_range search) as Hr. rewrite Z2N.id by lia.
    change (2 ^ 31)%Z with 2147483648%Z in Hr. change (36 ^ 6)%Z with 2176782336%Z. lia. }
  split.
  - destruct (toString36_go_length (S (N.size_nat n)) n "" (Nat.min 6 (S (N.size_nat n))))
      as [H1 H2]; [lia|lia| |change (String.length "") with 0 in *; lia].
    destruct (Nat.min_spec 6 (S (N.size_nat n))) as [[_ ->]|[_ ->]]; [done|].
    pose proof (size_nat_bound n) as Hs.
    eapply Z.lt_le_trans; [exact Hs|].
    etrans; [apply (Z.pow_le_mono_l 2 36); lia|].
    apply Z.pow_le_mono_r; lia.
  - apply Forall_forall. intros c Hc.
    by destruct (toString36_go_chars _ _ _ _ Hc) as [?|?%elem_of_nil].
Qed.

(** ** The command line *)

Lemma find_app_skip {A : Type} (g : A -> bool) l1 x l2 :
  g x = false -> List.find g (l1 ++ x :: l2) = List.find g (l1 ++ l2).
Proof.
  intros Hx. induction l1 as [|y l1 IH]; simpl; [by rewrite Hx|].
  by destruct (g y).
Qed.

(** X6. An argument that starts with [--], other than [--sourcemaps], has
    no effect wherever it stands among the arguments. *)
Theorem parseArgs_ignores_unknown_flags (l1 l2 : list string) (flag : string) :
  Cli.isFlag flag = true -> flag <> "--sourcemaps" ->
  Cli.parseArgs (l1 ++ flag :: l2)%list = Cli.parseArgs (l1 ++ l2)%list.
Proof.
  intros Hflag Hne. unfold Cli.parseArgs.
  rewrite find_app_skip by (by rewrite Hflag).
  destruct (List.find _ (l1 ++ l2)) as [baseUrl|]; [|done].
  destruct (JS.truthy baseUrl); [|done].
  assert (Cli.remaining baseUrl (l1 ++ flag :: l2)%list = Cli.remaining baseUrl (l1 ++ l2)%list) as ->.
  { unfold Cli.remaining. rewrite !filter_app, filter_cons.
    rewrite decide_False; [done|]. rewrite Hflag, andb_false_r. by intros []. }
  assert (bool_decide ("--sourcemaps" ∈ (l1 ++ flag :: l2)%list)
          = bool_decide ("--sourcemaps" ∈ (l1 ++ l2)%list)) as ->; [|done].
  apply bool_decide_ext. rewrite !elem_of_app, elem_of_cons.
  split; [intros [?|[E|?]]; [by left|by destruct Hne|by right]
         |intros [?|?]; [by left|right; by right]].
Qed.

Lemma parseArgs_ignores_unknown_flags_witness :
  Cli.parseArgs ["--verbose"; "https://x.test"; "--depth=2"; "/"; "out"]
  = Some (Cli.mkOptions "https://x.test" false "out" ["/"])
  /\ Cli.parseArgs (["--verbose"; "https://x.test"] ++ "--depth=2" :: ["/"; "out"])%list
     = Cli.parseArgs (["--verbose"; "https://x.test"] ++ ["/"; "out"])%list.
Proof.
  split; [vm_compute; reflexivity|].
  apply (parseArgs_ignores_unknown_flags ["--verbose"; "https://x.test"] ["/"; "out"]
           "--depth=2").
  - reflexivity.
  - discriminate.
Defined.

Lemma popOutDir_spec (remaining : list string) outDir pages :
  Cli.popOutDir remaining = (outDir, pages) ->
  JS.startsWith outDir "/" = false
  /\ (remaining = (pages ++ [outDir])%list
      \/ (remaining = pages /\ outDir = "mirror"
          /\ forall p, last pages = Some p -> JS.startsWith p "/" = true)).
Proof.
  unfold Cli.popOutDir. destruct (rev remaining) as [|lastArg others] eqn:E.
  - intros [= <- <-]. split; [done|]. right. repeat split.
    apply (f_equal (@rev _)) in E. rewrite rev_involutive in E. by subst.
  - assert (remaining = (rev others ++ [lastArg])%list) as Hr.
    { apply (f_equal (@rev _)) in E. by rewrite rev_involutive in E. }
    destruct (JS.startsWith lastArg "/") eqn:Hs; simpl; intros [= <- <-].
    + split; [done|]. right. repeat split. intros p. rewrite Hr, last_snoc. by intros [= <-].
    + split; [done|]. by left.
Qed.

(** X7. The output folder is never a path that starts with [/]: it is
    [mirror], or the last argument that is neither a flag nor the URL when
    that one does not start with [/].  The other such arguments are the
    pages, in their order; when no folder was taken from them, the last
    page starts with [/]. *)
Theorem parseArgs_output_folder (args : list string) (o : Cli.Options) :
  Cli.parseArgs args = Some o ->
  JS.startsWith (Cli.outDir o) "/" = false
  /\ (Cli.remaining (Cli.baseUrl o) args = (Cli.pages o ++ [Cli.outDir o])%list
      \/ (Cli.remaining (Cli.baseUrl o) args = Cli.pages o /\ Cli.outDir o = "mirror"
          /\ forall p, last (Cli.pages o) = Some p -> JS.startsWith p "/" = true))
  /\ Forall (fun p => p ∈ args /\ p <> Cli.baseUrl o /\ Cli.isFlag p = false) (Cli.pages o).
Proof.
  unfold Cli.parseArgs. destruct (List.find _ args) as [baseUrl|]; [|done].
  destruct (JS.truthy baseUrl); [|done].
  destruct (Cli.popOutDir (Cli.remaining baseUrl args)) as [outDir pages] eqn:E.
  intros [= <-]. simpl. destruct (popOutDir_spec _ _ _ E) as [Hout Hsplit].
  split; [done|]. split; [done|].
  assert (forall p, p ∈ Cli.remaining baseUrl args ->
                    p ∈ args /\ p <> baseUrl /\ Cli.isFlag p = false) as Hrem.
  { intros p [Hp Hin]%list_elem_of_filter. split; [done|].
    apply Is_true_true, andb_true_iff in Hp as [H1 H2].
    apply negb_true_iff in H1, H2. by apply bool_decide_eq_false in H1. }
  apply Forall_forall. intros p Hp. apply Hrem.
  destruct Hsplit as [->|[-> _]]; [|done]. apply elem_of_app. by left.
Qed.

Lemma parseArgs_output_folder_witness :
  let o := Cli.mkOptions "https://x.test" true "mirror" ["/about"; "/tmp/out"] in
  Cli.parseArgs ["https://x.test"; "--sourcemaps"; "/about"; "/tmp/out"] = Some o
  /\ JS.startsWith (Cli.outDir o) "/" = false
  /\ (Cli.remaining (Cli.baseUrl o) ["https://x.test"; "--sourcemaps"; "/about"; "/tmp/out"]
      = (Cli.pages o ++ [Cli.outDir o])%list
      \/ (Cli.remaining (Cli.baseUrl o)
            ["https://x.test"; "--sourcemaps"; "/about"; "/tmp/out"] = Cli.pages o
          /\ Cli.outDir o = "mirror"
          /\ forall p, last (Cli.pages o) = Some p -> JS.startsWith p "/" = true))
  /\ Forall (fun p => p ∈ ["https://x.test"; "--sourcemaps"; "/about"; "/tmp/out"]
                      /\ p <> Cli.baseUrl o /\ Cli.isFlag p = false) (Cli.pages o).
Proof.
  intros o. split; [vm_compute; reflexivity|].
  apply (parseArgs_output_folder ["https://x.test"; "--sourcemaps"; "/about"; "/tmp/out"] o).
  vm_compute. reflexivity.
Defined.

Lemma find_none_flags (args : list string) :
  List.find (fun a => negb (Cli.isFlag a)) args = None
  <-> Forall (fun a => Cli.isFlag a = true) args.
Proof.
  induction args as [|a args IH]; simpl; [done|].
  destruct (Cli.isFlag a) eqn:E; simpl.
  - rewrite IH. split; [by constructor|by intros [_ ?]%Forall_cons].
  - split; [done|]. intros [? _]%Forall_cons. congruence.
Qed.

Lemma find_some_flags (args : list string) b :
  List.find (fun a => negb (Cli.isFlag a)) args = Some b
  <-> exists flags rest, args = (flags ++ b :: rest)%list
        /\ Forall (fun a => Cli.isFlag a = true) flags /\ Cli.isFlag b = false.
Proof.
  induction args as [|a args IH]; simpl.
  - split; [done|]. intros (flags & rest & E & _). by destruct flags.
  - destruct (Cli.isFlag a) eqn:E; simpl.
    + rewrite IH. split.
      * intros (flags & rest & -> & Hf & Hb). exists (a :: flags), rest.
        split; [done|]. split; [by constructor|done].
      * intros (flags & rest & Ea & Hf & Hb). destruct flags as [|f flags].
        { simpl in Ea. injection Ea as -> _. congruence. }
        injection Ea as -> ->. apply Forall_cons in Hf as [_ Hf]. by exists flags, rest.
    + split.
      * intros [= <-]. by exists [], args.
      * intros (flags & rest & Ea & Hf & Hb). destruct flags as [|f flags].
        { simpl in Ea. by injection Ea as -> _. }
        injection Ea as -> ->. apply Forall_cons in Hf as [Hf _]. congruence.
Qed.

(** X8. The script stops with the usage message exactly when no URL was
    given: every argument is a flag, or the first one that is not a flag is
    the empty string. *)
Theorem parseArgs_usage (args : list string) :
  Cli.parseArgs args = None
  <-> Forall (fun a => Cli.isFlag a = true) args
      \/ exists flags rest, args = (flags ++ "" :: rest)%list
           /\ Forall (fun a => Cli.isFlag a = true) flags.
Proof.
  unfold Cli.parseArgs. destruct (List.find _ args) as [b|] eqn:E.
  - pose proof E as E'. apply find_some_flags in E' as (flags & rest & -> & Hf & Hb).
    destruct b as [|c b]; simpl.
    + split; [|done]. intros _. right. by exists flags, rest.
    + destruct (Cli.popOutDir _). split; [done|]. intros [Hall|(fl & rs & Ea & Hfl)].
      * apply find_none_flags in Hall. congruence.
      * assert (List.find (fun a => negb (Cli.isFlag a)) (fl ++ "" :: rs) = Some "") as Hfind
          by (apply find_some_flags; by exists fl, rs).
        rewrite <- Ea in Hfind. congruence.
  - split; [|done]. intros _. left. by apply find_none_flags.
Qed.

(** ** The crawl of the root page *)

Lemma setAdd_elem x (l : list string) y : y ∈ JS.setAdd x l <-> y = x \/ y ∈ l.
Proof.
  unfold JS.setAdd. case_bool_decide as E.
  - split; [by right|]. by intros [->|?].
  - rewrite elem_of_app, list_elem_of_singleton. tauto.
Qed.

Lemma setAdd_NoDup x (l : list string) : NoDup l -> NoDup (JS.setAdd x l).
Proof.
  intros Hl. unfold JS.setAdd. case_bool_decide as E; [done|].
  apply NoDup_app. split; [done|]. split.
  - by intros y Hy ->%list_elem_of_singleton.
  - apply NoDup_singleton.
Qed.

Lemma setAdd_extends x (l : list string) : exists more, JS.setAdd x l = (l ++ more)%list.
Proof.
  unfold JS.setAdd. case_bool_decide; [exists []; by rewrite app_nil_r|by eexists].
Qed.

Lemma crawlLink_cases h base set el :
  crawlLink h base set el = set
  \/ exists target u b,
       tag el = "a" /\ getAttr "href" (attribs el) = Some target
       /\ new_URL h target (Some base) = Some u /\ new_URL h base None = Some b
       /\ origin u = origin b /\ crawlLink h base set el = JS.setAdd (pathname u) set.
Proof.
  unfold crawlLink. case_bool_decide as Htag; [|by left].
  destruct (getAttr "href" (attribs el)) as [target|] eqn:Ha; [|by left].
  destruct (new_URL h target (Some base)) as [u|] eqn:Hu; [|by left].
  destruct (new_URL h base None) as [b|] eqn:Hb; [|by left].
  case_bool_decide as Ho; [|by left]. right. by exists target, u, b.
Qed.

Lemma crawlLinks_spec h base doc :
  forall set, NoDup set ->
    NoDup (fold_left (crawlLink h base) doc set)
    /\ (exists more, fold_left (crawlLink h base) doc set = (set ++ more)%list)
    /\ forall p, p ∈ fold_left (crawlLink h base) doc set
                 <-> p ∈ set \/ linkedPage h base doc p.
Proof.
  induction doc as [|el doc IH]; intros set Hset; simpl.
  - split; [done|]. split; [exists []; by rewrite app_nil_r|].
    intros p. split; [by left|]. intros [?|(el & ? & ? & ? & ?%elem_of_nil & _)]; done.
  - assert (NoDup (crawlLink h base set el)) as Hnd.
    { destruct (crawlLink_cases h base set el) as [->|(? & u & ? & _ & _ & _ & _ & _ & ->)];
        [done|by apply setAdd_NoDup]. }
    destruct (IH _ Hnd) as (Hnd' & [more Hmore] & Hmem). split; [done|]. split.
    { rewrite Hmore.
      destruct (crawlLink_cases h base set el) as [->|(? & u & ? & _ & _ & _ & _ & _ & ->)].
      - by exists more.
      - destruct (setAdd_extends (pathname u) set) as [m1 ->].
        exists (m1 ++ more)%list. by rewrite <- app_assoc. }
    intros p. rewrite Hmem. split.
    + intros [Hp|(el' & target & u & b & Hin & Hrest)].
      * destruct (crawlLink_cases h base set el)
          as [E|(target & u & b & Ht & Ha & Hu & Hb & Ho & E)]; rewrite E in Hp; [by left|].
        apply setAdd_elem in Hp as [->|Hp]; [|by left].
        right. exists el, target, u, b. split; [left|done].
      * right. exists el', target, u, b. split; [by right|done].
    + intros [Hp|(el' & target & u & b & Hin & Ht & Ha & Hu & Hb & Ho & ->)].
      * left. destruct (crawlLink_cases h base set el)
          as [->|(? & ? & ? & _ & _ & _ & _ & _ & ->)]; [done|].
        apply setAdd_elem. by right.
      * apply elem_of_cons in Hin as [->|Hin].
        -- left. unfold crawlLink. rewrite bool_decide_eq_true_2 by done.
           rewrite Ha, Hu, Hb, bool_decide_eq_true_2 by done. apply setAdd_elem. by left.
        -- right. by exists el', target, u, b.
Qed.

(** X9. When the root URL parses and its request is answered (with any
    status), [crawlRoot] returns a list without repetition that starts with
    [/] and holds, besides [/], exactly the paths of the links of the root
    page that lead into the site. *)
Theorem crawlRoot_pages (h : Host) (base : string) (root : URL) (ok : bool) (text : string) :
  new_URL h "/" (Some base) = Some root ->
  fetch h (href root) = Some (ok, text) ->
  exists rest,
    crawlRoot h base = Ok ("/" :: rest)
    /\ NoDup ("/" :: rest)
    /\ forall p, p ∈ "/" :: rest <-> p = "/" \/ linkedPage h base (load h text) p.
Proof.
  intros Hroot Hfetch. unfold crawlRoot. rewrite Hroot, Hfetch.
  destruct (crawlLinks_spec h base (load h text) ["/"]) as (Hnd & [more Hmore] & Hmem);
    [apply NoDup_singleton|].
  exists more. rewrite Hmore in *. split; [done|]. split; [done|].
  intros p. rewrite Hmem, list_elem_of_singleton. done.
Qed.

(** ** Pages *)

Lemma downloadPages_throws (h : Host) (baseUrl outDir : string) (pages : list string)
    (page : string) :
  page ∈ pages ->
  (new_URL h page (Some baseUrl) = None
   \/ exists u, new_URL h page (Some baseUrl) = Some u /\ fetch h (href u) = None) ->
  forall st, exists e, downloadPages h baseUrl outDir pages st = Throw e.
Proof.
  intros Hin Hbad. induction pages as [|p pages IH]; [by apply elem_of_nil in Hin|].
  intros st. simpl. destruct (downloadPage h baseUrl outDir p st) as [st'|e] eqn:E;
    [|by exists e].
  apply elem_of_cons in Hin as [->|Hin]; [|by apply IH].
  exfalso. unfold downloadPage in E.
  destruct Hbad as [Hu|(u & Hu & Hf)]; rewrite Hu in E; [done|].
  by rewrite Hf in E.
Qed.

(** X10. A page whose URL does not parse, or whose request is rejected,
    ends the whole run with an exception, wherever it stands in the list of
    pages. *)
Theorem page_failure_aborts_run (h : Host) (baseUrl outDir : string)
    (enableSourceMaps : bool) (pages : list string) (files0 : gmap string string)
    (fuel : nat) (page : string) :
  page ∈ pages ->
  (new_URL h page (Some baseUrl) = None
   \/ exists u, new_URL h page (Some baseUrl) = Some u /\ fetch h (href u) = None) ->
  exists e, broddy h baseUrl outDir enableSourceMaps pages files0 fuel = Some (Throw e).
Proof.
  intros Hin Hbad. unfold broddy.
  destruct (start h outDir files0) as [st0|e]; [|by exists e].
  destruct (downloadPages_throws h baseUrl outDir pages page Hin Hbad st0) as [e ->].
  by exists e.
Qed.

Lemma page_failure_aborts_run_witness :
  exists e,
    broddy Scenario.spa Scenario.base "mirror" false ["/"; "/missing"] ∅ 10 = Some (Throw e).
Proof.
  apply (page_failure_aborts_run Scenario.spa Scenario.base "mirror" false
           ["/"; "/missing"] ∅ 10 "/missing").
  - apply list_elem_of_In. simpl. tauto.
  - right. exists (mkURL "https://x.test/missing" "https://x.test" "/missing" "").
    split; vm_compute; reflexivity.
Defined.

Lemma save_keeps (h : Host) (outDir p data : string) (st : State) ok st' :
  save h outDir p data st = (ok, st') ->
  (forall path, is_Some (files st !! path) -> is_Some (files st' !! path))
  /\ (ok = true -> is_Some (files st' !! Path.render (location h outDir p))).
Proof.
  intros (_ & _ & _ & _ & _ & ->)%save_frame. destruct ok.
  - split; [|intros _; rewrite lookup_insert_eq; by eexists].
    intros path Hp. rewrite lookup_insert. by case_decide.
  - done.
Qed.

Lemma downloadPage_status (h : Host) (baseUrl outDir : string) (ok : string -> bool)
    (page : string) (st : State) :
  downloadPage (withStatus ok h) baseUrl outDir page st
  = downloadPage h baseUrl outDir page st.
Proof.
  unfold downloadPage. cbn [new_URL fetch withStatus].
  destruct (new_URL h page (Some baseUrl)) as [u|]; [|done].
  destruct (fetch h (href u)) as [[status text]|]; [|done]. reflexivity.
Qed.

Lemma downloadPages_saved (h : Host) (baseUrl outDir : string) (pages : list string) :
  forall st st1,
    downloadPages h baseUrl outDir pages st = Ok st1 ->
    requests st1 = (requests st ++ pageUrls h baseUrl pages)%list
    /\ (forall path, is_Some (files st !! path) -> is_Some (files st1 !! path))
    /\ forall page, page ∈ pages ->
         is_Some (files st1 !! Path.render (location h outDir (pageFile page))).
Proof.
  induction pages as [|page pages IH]; intros st st1; simpl.
  - intros [= <-]. rewrite app_nil_r. split; [done|]. split; [done|].
    by intros page ?%elem_of_nil.
  - destruct (downloadPage h baseUrl outDir page st) as [st'|] eqn:E; [|done].
    intros (Hr & Hmono & Hfiles)%IH.
    assert (exists u, new_URL h page (Some baseUrl) = Some u
              /\ requests st' = (requests st ++ [href u])%list
              /\ (forall path, is_Some (files st !! path) -> is_Some (files st' !! path))
              /\ is_Some (files st' !! Path.render (location h outDir (pageFile page))))
      as (u & Hu & Hr' & Hmono' & Hfile).
    { unfold downloadPage in E.
      destruct (new_URL h page (Some baseUrl)) as [u|]; [|done].
      destruct (fetch h (href u)) as [[status text]|]; [|done].
      destruct (new_URL h baseUrl None) as [b|]; [|done].
      destruct (save h outDir _ _ _) as [[|] st2] eqn:Hs; [|done].
      injection E as <-. exists u. split; [done|].
      pose proof (save_frame _ _ _ _ _ _ _ Hs) as (_ & _ & _ & Hreq & _).
      apply save_keeps in Hs as [Hk Hw].
      cbn [requests files print request] in *. split; [done|]. split; [exact Hk|].
      by apply Hw. }
    split; [|split].
    + rewrite Hr, Hr'. unfold pageUrls. simpl. rewrite Hu. simpl. by rewrite <- app_assoc.
    + auto.
    + intros p [->|Hp]%elem_of_cons; [by apply Hmono|by apply Hfiles].
Qed.

(** X11. Phase 1 does not look at the status of a response: with the
    status of every response replaced, the phase does what it does on the
    responses as they are; and when it ends without an exception it has
    sent one request per page, in the order of the pages, and left a file
    for each page. *)
Theorem pages_saved_whatever_the_status (h : Host) (baseUrl outDir : string)
    (ok : string -> bool) (pages : list string) (st : State) :
  downloadPages (withStatus ok h) baseUrl outDir pages st
  = downloadPages h baseUrl outDir pages st
  /\ forall st1,
       downloadPages h baseUrl outDir pages st = Ok st1 ->
       requests st1 = (requests st ++ pageUrls h baseUrl pages)%list
       /\ forall page, page ∈ pages ->
            is_Some (files st1 !! Path.render (location h outDir (pageFile page))).
Proof.
  split.
  - revert st. induction pages as [|page pages IH]; intros st; simpl; [done|].
    rewrite downloadPage_status.
    destruct (downloadPage h baseUrl outDir page st); [apply IH|done].
  - intros st1 (Hr & _ & Hfiles)%downloadPages_saved. by split.
Qed.

(** ** Discovery and download *)

Lemma discover_frame (h : Host) (enableSourceMaps : bool) (fuel : nat) :
  forall toProcess st st',
    discover h enableSourceMaps fuel toProcess st = Some st' ->
    files st' = files st /\ alloc st' = alloc st.
Proof.
  induction fuel as [|fuel IH]; intros toProcess st st'; simpl.
  - destruct toProcess; [|done]. by intros [= <-].
  - destruct toProcess as [|url rest]; [by intros [= <-]|].
    case_bool_decide; [apply IH|].
    destruct (scanAsset h enableSourceMaps url st rest) as [st1 tp1] eqn:Hscan.
    apply scanAsset_effects in Hscan as (Hf & Ha & _).
    intros [Hf' Ha']%IH. split; congruence.
Qed.

(** X12. The scan of the saved pages and the discovery loop only read:
    when they end, the files of the output folder and the two maps of the
    path allocator are what they were after phase 1. *)
Theorem discovery_only_reads (h : Host) (baseUrl outDir : string) (enableSourceMaps : bool)
    (fuel : nat) (st st' : State) :
  discovery h baseUrl outDir enableSourceMaps fuel st = Some (Ok st') ->
  files st' = files st /\ alloc st' = alloc st.
Proof.
  unfold discovery.
  destruct (scanPages h baseUrl outDir enableSourceMaps st) as [st2|] eqn:E2; [|done].
  destruct (discover _ _ _ _ _) as [st3|] eqn:Ed; [|done]. intros [= <-].
  apply discover_frame in Ed as [Hf Ha]. cbn [files alloc print] in Hf, Ha.
  apply scanPages_only in E2 as (Hf2 & Ha2 & _). split; congruence.
Qed.

Section Stored.

Context (h : Host) (baseUrl outDir : string) (enableSourceMaps : bool).

Lemma downloadAsset_stores d st url ty d' st' :
  downloadAsset h baseUrl outDir enableSourceMaps (d, st) (url, ty) = (d', st') ->
  d' = d \/ (storable h baseUrl url /\ exists content, d' = JS.mapSet url content d).
Proof.
  unfold downloadAsset. cbv beta iota zeta.
  destruct (new_URL h url (Some baseUrl)) as [u|] eqn:Hu; [|intros [= <- <-]; by left].
  destruct (isPagePath u) eqn:Hpage; [intros [= <- <-]; by left|].
  assert (storable h baseUrl url) as Hst by (by exists u).
  repeat (case_match; try (intros [= <- <-]; by left);
          try (intros [= <- <-]; right; split; [exact Hst|by eexists])).
Qed.

Lemma downloadAssets_store entries :
  forall acc,
    (forall u c, (u, c) ∈ acc.1 -> storable h baseUrl u) ->
    forall u c,
      (u, c) ∈ (fold_left (downloadAsset h baseUrl outDir enableSourceMaps) entries acc).1 ->
      storable h baseUrl u.
Proof.
  induction entries as [|[url ty] entries IH]; intros [d st] Hacc; [done|].
  cbn [fold_left].
  destruct (downloadAsset h baseUrl outDir enableSourceMaps (d, st) (url, ty))
    as [d' st'] eqn:E.
  apply IH. cbn [fst snd] in *. intros u c Hin.
  apply downloadAsset_stores in E as [->|[Hst [content ->]]]; [exact (Hacc _ _ Hin)|].
  apply elem_of_mapSet in Hin as [[-> _]|Hin]; [done|exact (Hacc _ _ Hin)].
Qed.

End Stored.

(** X13. The URL of every entry of [downloadedAssets] passes the test of
    the download loop: it parses against the site URL, and its path is
    neither [/] nor a path that ends in [.html]. *)
Theorem stored_assets_have_asset_paths (h : Host) (baseUrl outDir : string)
    (enableSourceMaps : bool) (pages : list string) (files0 : gmap string string)
    (fuel : nat) (s : Summary) (url content : string) :
  broddy h baseUrl outDir enableSourceMaps pages files0 fuel = Some (Ok s) ->
  (url, content) ∈ downloadedAssets s ->
  exists u, new_URL h url (Some baseUrl) = Some u
    /\ pathname u <> "/" /\ JS.endsWith (pathname u) ".html" = false.
Proof.
  intros (st0 & st1 & st2 & st3 & a & _ & _ & _ & _ & _ & _ & _ & ->)%broddy_phases Hin.
  unfold downloadAssets in Hin.
  assert (storable h baseUrl url) as (u & Hu & Hpage).
  { eapply (downloadAssets_store h baseUrl outDir enableSourceMaps _ ([], _)).
    - intros u c Hc. by apply elem_of_nil in Hc.
    - exact Hin. }
  exists u. split; [done|]. unfold isPagePath in Hpage.
  apply orb_false_iff in Hpage as [H1 H2]. by apply bool_decide_eq_false in H1.
Qed.

(** ** Requests *)

Section Requests.

Context (h : Host) (baseUrl outDir : string) (enableSourceMaps : bool).

Lemma processSourceMap_requests url sourceMapUrl processedContent st r st' :
  processSourceMap h baseUrl outDir url sourceMapUrl processedContent st = (r, st') ->
  requests st `prefix_of` requests st'.
Proof.
  unfold processSourceMap, download. intros E.
  repeat case_match; simplify_eq;
    repeat match goal with
           | H : save _ _ _ _ _ = _ |- _ =>
               apply save_frame in H as (_ & _ & _ & H & _);
               cbn [requests withAlloc request print] in H
           end;
    cbn [requests withAlloc request print]; try done; rewrite ?H; by eexists.
Qed.

Lemma downloadAsset_requests d st url ty d' st' :
  downloadAsset h baseUrl outDir enableSourceMaps (d, st) (url, ty) = (d', st') ->
  requests st `prefix_of` requests st'
  /\ (d' = d \/ (requests st ++ [url])%list `prefix_of` requests st').
Proof.
  unfold downloadAsset, download. cbv beta iota zeta. intros E.
  repeat case_match; simplify_eq;
    repeat match goal with
           | H : processSourceMap _ _ _ _ _ _ _ = _ |- _ =>
               apply processSourceMap_requests in H;
               cbn [requests withAlloc save withFiles request print] in H
           end;
    cbn [requests withAlloc save withFiles request print];
    (split; [first [done | by eexists | by etrans; [|eassumption]; eexists]
            |first [by left | right; first [done | eassumption
                                           | by etrans; [|eassumption]; eexists]]]).
Qed.


Lemma downloadAssets_requests entries :
  forall acc base R,
    requests acc.2 = (base ++ R)%list ->
    (forall u, u ∈ JS.mapKeys acc.1 -> u ∈ R) ->
    exists R',
      requests (fold_left (downloadAsset h baseUrl outDir enableSourceMaps) entries acc).2
      = (base ++ R')%list
      /\ forall u,
           u ∈ JS.mapKeys
                 (fold_left (downloadAsset h baseUrl outDir enableSourceMaps) entries acc).1 ->
           u ∈ R'.
Proof.
  induction entries as [|[url ty] entries IH]; intros [d st] base R HR Hd.
  { by exists R. }
  cbn [fold_left].
  destruct (downloadAsset h baseUrl outDir enableSourceMaps (d, st) (url, ty))
    as [d' st'] eqn:E.
  pose proof (downloadAsset_stores h baseUrl outDir enableSourceMaps _ _ _ _ _ _ E) as Hst.
  apply downloadAsset_requests in E as [[more Hmore] Hurl]. cbn [fst snd] in *.
  apply (IH (d', st') base (R ++ more)%list).
  { cbn [snd]. by rewrite Hmore, HR, <- app_assoc. }
  cbn [fst]. intros u Hu. apply elem_of_app.
  destruct Hst as [->|[_ [content ->]]]; [left; by apply Hd|].
  destruct (decide (u ∈ JS.mapKeys d)) as [Hin|Hnin]; [left; by apply Hd|].
  assert (u = url) as ->.
  { destruct (JS.mapHas url d) eqn:Ehas.
    - by rewrite mapKeys_mapSet_old in Hu.
    - rewrite mapKeys_mapSet_new in Hu by done.
      apply elem_of_app in Hu as [?|?%list_elem_of_singleton]; done. }
  right. destruct Hurl as [Hsame|[k Hk]].
  - exfalso. apply Hnin. rewrite <- Hsame. apply mapKeys_mapSet_key.
  - rewrite Hmore, <- app_assoc in Hk. apply app_inv_head in Hk. subst more. by left.
Qed.

Lemma downloadAssets_keys entries :
  forall acc u,
    u ∈ JS.mapKeys
          (fold_left (downloadAsset h baseUrl outDir enableSourceMaps) entries acc).1 ->
    u ∈ JS.mapKeys acc.1 \/ u ∈ JS.mapKeys entries.
Proof.
  induction entries as [|[url ty] entries IH]; intros [d st] u; [by left|].
  cbn [fold_left].
  destruct (downloadAsset h baseUrl outDir enableSourceMaps (d, st) (url, ty))
    as [d' st'] eqn:E.
  apply downloadAsset_stores in E as [->|[_ [content ->]]].
  - intros [?|?]%IH; [by left|right; by right].
  - intros [Hu|?]%IH; [|right; by right]. cbn [fst] in *.
    destruct (JS.mapHas url d) eqn:Ehas.
    + rewrite mapKeys_mapSet_old in Hu by done. by left.
    + rewrite mapKeys_mapSet_new in Hu by done.
      apply elem_of_app in Hu as [?|Hu]; [by left|].
      apply list_elem_of_singleton in Hu as ->. right. left.
Qed.

Lemma saveAssets_requests downloaded :
  forall st st', saveAssets h baseUrl outDir downloaded st = Ok st' ->
                 requests st' = requests st.
Proof.
  induction downloaded as [|[url content] rest IH]; intros st st'; simpl.
  - by intros [= <-].
  - destruct (assetPath h baseUrl url (alloc st)) as [[p a']|]; [|done].
    destruct (save h outDir p content _) as [[|] st1] eqn:Hs; [|done].
    apply save_frame in Hs as (_ & _ & _ & Hr & _). intros ->%IH. exact Hr.
Qed.

Lemma discover_requests fuel :
  forall done toProcess st st',
    discover h enableSourceMaps fuel toProcess st = Some st' ->
    JS.mapKeys (assetUrls st) = (done ++ toProcess)%list ->
    NoDup (JS.mapKeys (assetUrls st)) ->
    (forall x, x ∈ processedAssets st <-> x ∈ done) ->
    exists rest,
      JS.mapKeys (assetUrls st') = (done ++ rest)%list
      /\ requests st' = (requests st ++ rest)%list.
Proof.
  induction fuel as [|fuel IH]; intros done toProcess st st' Hd Hk Hnd Hproc.
  - destruct toProcess as [|url rest]; [|done]. injection Hd as <-.
    exists []. rewrite !app_nil_r. by rewrite app_nil_r in Hk.
  - destruct toProcess as [|url rest].
    { injection Hd as <-. exists []. rewrite !app_nil_r. by rewrite app_nil_r in Hk. }
    simpl in Hd. assert (url ∉ done) as Hnew.
    { rewrite Hk in Hnd. apply NoDup_app in Hnd as (_ & Hdis & _).
      intros Hin. apply (Hdis _ Hin). left. }
    rewrite bool_decide_eq_false_2 in Hd by (by rewrite Hproc).
    destruct (scanAsset h enableSourceMaps url st rest) as [st1 tp1] eqn:Hscan.
    apply scanAsset_spec in Hscan as (new & Hk1 & -> & Hsub & Hnd1 & Hp1 & Hr1).
    destruct (IH (done ++ [url])%list (rest ++ new)%list st1 st' Hd) as (more & Hk' & Hr').
    + rewrite Hk1, Hk, <- !app_assoc. done.
    + by apply Hnd1.
    + intros x. rewrite Hp1, elem_of_union, elem_of_singleton, Hproc, elem_of_app,
        list_elem_of_singleton. tauto.
    + exists (url :: more). split; [by rewrite Hk', <- app_assoc|].
      by rewrite Hr', Hr1, <- app_assoc.
Qed.

End Requests.

(** X14. Every asset that a run stores was requested at least twice: once
    by the discovery loop, which scans it, and once more by the download
    loop. *)
Theorem stored_assets_are_requested_twice (h : Host) (baseUrl outDir : string)
    (enableSourceMaps : bool) (pages : list string) (files0 : gmap string string)
    (fuel : nat) (s : Summary) (url content : string) :
  broddy h baseUrl outDir enableSourceMaps pages files0 fuel = Some (Ok s) ->
  (url, content) ∈ downloadedAssets s ->
  exists l1 l2 l3, requests (final s) = (l1 ++ url :: l2 ++ url :: l3)%list.
Proof.
  intros (st0 & st1 & st2 & st3 & a & E0 & E1 & E2 & E3 & _ & _ & E6 & Hd)%broddy_phases Hin.
  apply saveAssets_requests in E6. rewrite E6. clear E6. rewrite Hd in Hin. clear Hd.
  apply start_spec in E0 as (Ha0 & Hu0 & Hp0 & _).
  destruct (downloadPages_spec h baseUrl outDir pages st0 st1 Ha0 E1) as (_ & Hu1 & Hp1).
  apply scanPages_only in E2 as (_ & _ & Hp2 & _ & _ & Hnd2).
  destruct (discover_requests h enableSourceMaps fuel [] _ _ _ E3) as (keys & Hk & Hr);
    [done| |..].
  { cbn. apply Hnd2. rewrite Hu1, Hu0. constructor. }
  { intros x. cbn. rewrite Hp2, Hp1, Hp0. split; [set_solver|by intros ?%elem_of_nil]. }
  cbn [app] in Hk. unfold downloadAssets in *.
  set (st4 := print _ (withAlloc a st3)) in *.
  destruct (downloadAssets_requests h baseUrl outDir enableSourceMaps (assetUrls st4)
              ([], st4) (requests st4) []) as (R & HR & HinR).
  { cbn [snd]. by rewrite app_nil_r. }
  { by intros u ?%elem_of_nil. }
  pose proof (downloadAssets_keys h baseUrl outDir enableSourceMaps (assetUrls st4)
                ([], st4) url) as Hkeys.
  destruct (fold_left _ (assetUrls st4) ([], st4)) as [d st5] eqn:E5.
  cbn [fst snd] in *.
  assert (url ∈ JS.mapKeys d) as Hd.
  { unfold JS.mapKeys. apply list_elem_of_fmap. by exists (url, content). }
  destruct (Hkeys Hd) as [?%elem_of_nil|Hkey]; [done|].
  change (assetUrls st4) with (assetUrls st3) in Hkey. rewrite Hk in Hkey.
  apply list_elem_of_split in Hkey as (k1 & k2 & ->).
  destruct (list_elem_of_split _ _ (HinR _ Hd)) as (r1 & r2 & ->).
  rewrite HR. change (requests st4) with (requests st3). rewrite Hr.
  exists (requests (print (Log "Scanning for dependencies...") st2) ++ k1)%list,
         (k2 ++ r1)%list, r2.
  by rewrite <- !app_assoc.
Qed.

(** ** References in JSON files *)

Lemma setAdd_Forall (P : string -> Prop) x l : P x -> Forall P l -> Forall P (JS.setAdd x l).
Proof.
  intros Hx Hl. unfold JS.setAdd. case_bool_decide; [done|].
  apply Forall_app. split; [done|]. by constructor.
Qed.

(** X15. From a JSON file only references that start with [http] are
    taken: a relative reference in JSON is never followed, and
    [sourceMapUrls] is left alone. *)
Theorem extractAssets_json_only_absolute (h : Host) (enableSourceMaps : bool)
    (code baseUrl : string) (sourceMapUrls : gmap string string) :
  Forall (fun url => JS.startsWith url "http" = true)
         (extractAssets h enableSourceMaps code "json" baseUrl sourceMapUrls).1
  /\ (extractAssets h enableSourceMaps code "json" baseUrl sourceMapUrls).2 = sourceMapUrls.
Proof.
  unfold extractAssets.
  change (bool_decide ("json" = "js")) with false.
  change (bool_decide ("json" = "mjs")) with false.
  change (bool_decide ("json" = "css")) with false.
  change (bool_decide ("json" = "json")) with true.
  cbn [orb fst snd]. split; [|done].
  unfold forEachMatch.
  apply (fold_left_preserves (Forall (fun url => JS.startsWith url "http" = true)));
    [done|].
  intros found pattern Hfound.
  apply (fold_left_preserves (Forall (fun url => JS.startsWith url "http" = true)));
    [done|].
  intros found' m Hfound'. unfold scanJsonRef.
  destruct (JS.truthy (group 1 m)); [|done]. simpl.
  destruct (JS.startsWith (group 1 m) "http") eqn:E; [|done].
  by apply setAdd_Forall.
Qed.

(** ** Saving the assets *)

Section Saving.

Context (h : Host) (baseUrl outDir : string).

Lemma saveAssets_keeps downloaded :
  forall st st', saveAssets h baseUrl outDir downloaded st = Ok st' ->
    (forall u p, filePathMap (alloc st) !! u = Some p -> filePathMap (alloc st') !! u = Some p)
    /\ (forall path, is_Some (files st !! path) -> is_Some (files st' !! path)).
Proof.
  induction downloaded as [|[url content] rest IH]; intros st st'; simpl.
  - by intros [= <-].
  - destruct (assetPath h baseUrl url (alloc st)) as [[p a']|] eqn:Hp; [|done].
    destruct (save h outDir p content _) as [[|] st1] eqn:Hs; [|done].
    pose proof (save_frame _ _ _ _ _ _ _ Hs) as (Ha1 & _).
    apply save_keeps in Hs as [Hk _].
    intros [Hmap Hfiles]%IH. cbn [alloc files withAlloc] in *. split.
    + intros u q Hq. apply Hmap. rewrite Ha1. by eapply assetPath_keeps.
    + intros path Hpath. apply Hfiles. by apply Hk.
Qed.

Lemma saveAssets_writes downloaded :
  forall st st', saveAssets h baseUrl outDir downloaded st = Ok st' ->
    forall url content, (url, content) ∈ downloaded ->
      exists p, filePathMap (alloc st') !! url = Some p
        /\ is_Some (files st' !! Path.render (location h outDir p)).
Proof.
  induction downloaded as [|[url0 content0] rest IH]; intros st st'; simpl.
  - intros _ url content Hin. by apply elem_of_nil in Hin.
  - destruct (assetPath h baseUrl url0 (alloc st)) as [[p a']|] eqn:Hp; [|done].
    destruct (save h outDir p content0 _) as [[|] st1] eqn:Hs; [|done].
    intros Hrest url content [[= -> ->]|Hin]%elem_of_cons; [|by eapply IH].
    destruct (saveAssets_keeps _ _ _ Hrest) as [Hmap Hfiles].
    pose proof (save_frame _ _ _ _ _ _ _ Hs) as (Ha1 & _).
    apply save_keeps in Hs as [_ Hw]. cbn [alloc withAlloc] in *.
    exists p. split.
    + apply Hmap. rewrite Ha1. by eapply assetPath_lookup.
    + apply Hfiles. by apply Hw.
Qed.

End Saving.

(** X16. At the end of a run every stored asset has a path in
    [filePathMap], and the output folder holds a file where [save] puts
    that path. *)
Theorem stored_assets_are_on_disk (h : Host) (baseUrl outDir : string)
    (enableSourceMaps : bool) (pages : list string) (files0 : gmap string string)
    (fuel : nat) (s : Summary) (url content : string) :
  broddy h baseUrl outDir enableSourceMaps pages files0 fuel = Some (Ok s) ->
  (url, content) ∈ downloadedAssets s ->
  exists p, filePathMap (alloc (final s)) !! url = Some p
    /\ is_Some (files (final s) !! Path.render (location h outDir p)).
Proof.
  intros (st0 & st1 & st2 & st3 & a & _ & _ & _ & _ & _ & _ & E6 & _)%broddy_phases Hin.
  by eapply saveAssets_writes.
Qed.

(** ** Concrete instances *)

Lemma relative_path_round_trip_witness :
  let h := Scenario.offline in
  getRelativePath h "/js/app.js" "/css/site.css" = "../css/site.css"
  /\ Path.resolveFrom (location h "mirror" (Path.dirname "/js/app.js"))
       (getRelativePath h "/js/app.js" "/css/site.css")
     = location h "mirror" "/css/site.css".
Proof.
  intros h. split; [vm_compute; reflexivity|].
  apply (relative_path_round_trip h "mirror" "/js/app.js" "/css/site.css").
  - reflexivity.
  - reflexivity.
  - apply (bool_decide_unpack _). vm_compute. exact I.
  - apply (bool_decide_unpack _). vm_compute. exact I.
Defined.

Lemma crawlRoot_pages_witness :
  crawlRoot linked "https://x.test" = Ok ["/"; "/about"]
  /\ exists rest,
       crawlRoot linked "https://x.test" = Ok ("/" :: rest)
       /\ NoDup ("/" :: rest)
       /\ forall p, p ∈ "/" :: rest
                    <-> p = "/" \/ linkedPage linked "https://x.test"
                                     (load linked (Sample.serialize linksPage)) p.
Proof.
  split; [vm_compute; reflexivity|].
  apply (crawlRoot_pages linked "https://x.test"
           (mkURL "https://x.test/" "https://x.test" "/" "") false
           (Sample.serialize linksPage)).
  - vm_compute. reflexivity.
  - vm_compute. reflexivity.
Defined.

Lemma pages_saved_whatever_the_status_witness :
  let st0 := stateOf (start linked "mirror" ∅) in
  let st1 := stateOf (downloadPages linked "https://x.test" "mirror" ["/"] st0) in
  fetch linked "https://x.test/" = Some (false, Sample.serialize linksPage)
  /\ requests st1 = (requests st0 ++ pageUrls linked "https://x.test" ["/"])%list
  /\ forall page, page ∈ ["/"] ->
       is_Some (files st1 !! Path.render (location linked "mirror" (pageFile page))).
Proof.
  intros st0 st1. split; [vm_compute; reflexivity|].
  destruct (pages_saved_whatever_the_status linked "https://x.test" "mirror"
              (fun _ => true) ["/"] st0) as [_ Hsaved].
  apply (Hsaved st1). vm_compute. reflexivity.
Defined.

Lemma discovery_only_reads_witness :
  let st1 := stateOf (downloadPages framed Scenario.base "mirror" ["/"]
                        (stateOf (start framed "mirror" ∅))) in
  let st3 := stateOf (default (Throw "")
                        (discovery framed Scenario.base "mirror" false 10 st1)) in
  JS.mapKeys (assetUrls st3) = ["https://x.test/app.js"; "https://x.test/frame.html"]
  /\ files st3 = files st1 /\ alloc st3 = alloc st1.
Proof.
  intros st1 st3. split; [vm_compute; reflexivity|].
  apply (discovery_only_reads framed Scenario.base "mirror" false 10 st1 st3).
  vm_compute. reflexivity.
Defined.

Lemma stored_assets_have_asset_paths_witness :
  let s := summaryOf (broddy framed Scenario.base "mirror" false ["/"] ∅ 10) in
  JS.mapKeys (assetUrls (final s)) = ["https://x.test/app.js"; "https://x.test/frame.html"]
  /\ JS.mapKeys (downloadedAssets s) = ["https://x.test/app.js"]
  /\ exists u, new_URL framed "https://x.test/app.js" (Some Scenario.base) = Some u
       /\ pathname u <> "/" /\ JS.endsWith (pathname u) ".html" = false.
Proof.
  intros s. split; [vm_compute; reflexivity|]. split; [vm_compute; reflexivity|].
  apply (stored_assets_have_asset_paths framed Scenario.base "mirror" false ["/"] ∅ 10 s
           "https://x.test/app.js" "export default 1").
  - vm_compute. reflexivity.
  - vm_compute. apply list_elem_of_here.
Defined.

Lemma stored_assets_are_requested_twice_witness :
  let s := summaryOf (broddy framed Scenario.base "mirror" false ["/"] ∅ 10) in
  requests (final s)
  = ["https://x.test/"; "https://x.test/app.js"; "https://x.test/frame.html";
     "https://x.test/app.js"]
  /\ exists l1 l2 l3,
       requests (final s)
       = (l1 ++ "https://x.test/app.js" :: l2 ++ "https://x.test/app.js" :: l3)%list.
Proof.
  intros s. split; [vm_compute; reflexivity|].
  apply (stored_assets_are_requested_twice framed Scenario.base "mirror" false ["/"] ∅ 10 s
           "https://x.test/app.js" "export default 1").
  - vm_compute. reflexivity.
  - vm_compute. apply list_elem_of_here.
Defined.

Lemma stored_assets_are_on_disk_witness :
  let s := summaryOf (broddy framed Scenario.base "mirror" false ["/"] ∅ 10) in
  exists p, filePathMap (alloc (final s)) !! "https://x.test/app.js" = Some p
    /\ is_Some (files (final s) !! Path.render (location framed "mirror" p)).
Proof.
  intros s.
  apply (stored_assets_are_on_disk framed Scenario.base "mirror" false ["/"] ∅ 10 s
           "https://x.test/app.js" "export default 1").
  - vm_compute. reflexivity.
  - vm_compute. apply list_elem_of_here.
Defined.

(** ** The maps after phase 4 *)

Section Fixed.

Context (h : Host) (baseUrl outDir : string) (enableSourceMaps : bool).

Lemma precompute_covers urls :
  forall a a', precompute h baseUrl urls a = Ok a' -> forall u, u ∈ urls -> covered h baseUrl a' u.
Proof.
  induction urls as [|url urls IH]; intros a a'; simpl.
  - intros _ u Hu. by apply elem_of_nil in Hu.
  - destruct (new_URL h url (Some baseUrl)) as [x0|] eqn:Hx0; [|done].
    destruct (isPagePath x0) eqn:Hpage.
    + intros Hrest u [->|Hu]%elem_of_cons; [|by eapply IH].
      intros x Hx. rewrite Hx0 in Hx. injection Hx as <-. congruence.
    + destruct (assetPath h baseUrl url a) as [[p a1]|] eqn:Hp; [|done].
      intros Hrest u [->|Hu]%elem_of_cons; [|by eapply IH].
      intros _ _ _. exists p. eapply allocSteps_keeps; [by eapply precompute_steps|].
      by eapply assetPath_lookup.
Qed.

Lemma downloadAsset_alloc d st url ty d' st' :
  covered h baseUrl (alloc st) url ->
  downloadAsset h baseUrl outDir enableSourceMaps (d, st) (url, ty) = (d', st') ->
  alloc st' = alloc st.
Proof.
  intros Hcov. unfold downloadAsset, download. cbv beta iota zeta.
  destruct (new_URL h url (Some baseUrl)) as [x|] eqn:Hx; [|by intros [= _ <-]].
  destruct (isPagePath x) eqn:Hpage; [by intros [= _ <-]|].
  destruct (Hcov x Hx Hpage) as [p Hp].
  pose proof (assetPath_hit h baseUrl _ _ _ Hp) as Hhit. rewrite Hhit.
  assert (forall content r a'', rewriteUrls h baseUrl content url ty (alloc st) = Some (r, a'')
                                -> a'' = alloc st) as Hrw.
  { intros content r a''. by apply (rewriteUrls_alloc h baseUrl content url ty _ _ _ Hhit). }
  cbn [alloc withAlloc request print]. intros E.
  repeat case_match; simplify_eq;
    repeat match goal with
           | H : rewriteUrls _ _ _ _ _ _ = Some _ |- _ => apply Hrw in H; subst
           | H : processSourceMap _ _ _ _ _ _ _ = _ |- _ =>
               apply processSourceMap_spec with (p := p) in H as (H & _);
               [cbn [alloc withAlloc request print] in H|by cbn]
           end;
    cbn [alloc withAlloc request print]; try done; by destruct (alloc st).
Qed.

Lemma downloadAssets_alloc entries :
  forall acc,
    (forall u, u ∈ JS.mapKeys entries -> covered h baseUrl (alloc acc.2) u) ->
    alloc (fold_left (downloadAsset h baseUrl outDir enableSourceMaps) entries acc).2
    = alloc acc.2.
Proof.
  induction entries as [|[url ty] entries IH]; intros [d st] Hcov; [done|].
  cbn [fold_left].
  destruct (downloadAsset h baseUrl outDir enableSourceMaps (d, st) (url, ty))
    as [d' st'] eqn:E.
  apply downloadAsset_alloc in E; [|apply Hcov; left]. cbn [snd] in *.
  rewrite IH; [done|]. cbn [snd]. rewrite E. intros u Hu. apply Hcov. by right.
Qed.

End Fixed.

(** X17. The paths are settled before the first download: at the end of a
    run, [filePathMap] and [usedPaths] are what phase 4 computes, from the
    empty maps, for the discovered URLs in the order of their discovery. *)
Theorem paths_are_fixed_before_download (h : Host) (baseUrl outDir : string)
    (enableSourceMaps : bool) (pages : list string) (files0 : gmap string string)
    (fuel : nat) (s : Summary) :
  broddy h baseUrl outDir enableSourceMaps pages files0 fuel = Some (Ok s) ->
  precompute h baseUrl (JS.mapKeys (assetUrls (final s))) emptyAlloc = Ok (alloc (final s)).
Proof.
  intros (st0 & st1 & st2 & st3 & a & E0 & E1 & _ & _ & E3 & E4 & E6 & Hd)%broddy_phases.
  apply start_spec in E0 as (Ha0 & _).
  destruct (downloadPages_spec h baseUrl outDir pages st0 st1 Ha0 E1) as (Ha1 & _).
  apply discovery_only_reads in E3 as [_ Ha3]. rewrite Ha3, Ha1 in E4.
  unfold downloadAssets in *.
  set (st4 := print _ (withAlloc a st3)) in *.
  assert (forall u, u ∈ JS.mapKeys (assetUrls st4) -> forall x,
            new_URL h u (Some baseUrl) = Some x -> isPagePath x = false ->
            is_Some (filePathMap a !! u)) as Hcov.
  { intros u Hu. by eapply precompute_covers. }
  pose proof (downloadAssets_alloc h baseUrl outDir enableSourceMaps (assetUrls st4)
                ([], st4) Hcov) as Ha5.
  pose proof (downloadAssets_keys h baseUrl outDir enableSourceMaps (assetUrls st4)
                ([], st4)) as Hkeys.
  pose proof (downloadAssets_store h baseUrl outDir enableSourceMaps (assetUrls st4)
                ([], st4)) as Hstore.
  pose proof (downloadAssets_urls h baseUrl outDir enableSourceMaps (assetUrls st4)
                ([], st4)) as Hu5.
  destruct (fold_left _ (assetUrls st4) ([], st4)) as [d st5] eqn:E5.
  cbn [fst snd] in *. rewrite Hd in E6.
  apply saveAssets_frame in E6 as [Ha6 Hu6].
  { rewrite Ha6, Ha5, Hu6, Hu5. exact E4. }
  intros u c Hin. rewrite Ha5.
  destruct (Hstore (fun u c H => False_ind _ (proj1 (elem_of_nil _) H)) u c Hin)
    as (x & Hx & Hpage).
  destruct (Hkeys u) as [?%elem_of_nil|Hk]; [|done|].
  { unfold JS.mapKeys. apply list_elem_of_fmap. by exists (u, c). }
  by apply (Hcov u Hk x).
Qed.

Lemma paths_are_fixed_before_download_witness :
  let s := summaryOf (broddy Scenario.spa Scenario.base "mirror" false ["/"] ∅ 10) in
  JS.mapKeys (assetUrls (final s)) = ["https://x.test/app.js"; "https://x.test/chunk.js"]
  /\ precompute Scenario.spa Scenario.base (JS.mapKeys (assetUrls (final s))) emptyAlloc
     = Ok (alloc (final s)).
Proof.
  intros s. split; [vm_compute; reflexivity|].
  apply (paths_are_fixed_before_download Scenario.spa Scenario.base "mirror" false ["/"] ∅
           10 s).
  vm_compute. reflexivity.
Defined.
